(** * EdgeFinder API: payment settlement and entitlement lifecycle

    A shallow embedding of the payment core of the EdgeFinder API
    (services/payment.ts, services/supabase.ts, utils/validation.ts,
    utils/response.ts, routes/payment.ts, config.ts, types.ts), the
    properties of it that the specification states (Part III), and
    further properties read off the code (Part IV).  The opportunities
    feed (floating-point prices) and the server bootstrap are not
    embedded.

    Conventions of the embedding:
    - JavaScript numbers that hold timestamps, HTTP statuses and delays are
      integers ([Z]); BigInt values are [Z] with truncating division.
    - The validators take values of any type ([Value]), as the request
      body of the settle route holds them; [isAddress] of the viem
      library is an argument, which may throw and keeps a state.
    - A reply is the object handed to [reply.send] together with what
      the route's response schema lets through to the client.
    - An exception is an [Outcome] that is [Thrown] with the error's message.
    - Console output, network calls and timers are recorded in order as a
      list of events; the outside world (clock, random bytes, facilitator
      answers, database) is an explicit argument. *)

From Stdlib Require Import ZArith List String Ascii Bool Lia Arith.
From Stdlib Require Import DecimalString Sorting.Sorted.
Import ListNotations.
Local Open Scope string_scope.
Local Open Scope Z_scope.

(* ===================================================================== *)
(** * Part I: the embedding                                               *)
(* ===================================================================== *)

(** ** Exceptions *)

(** The result of evaluating a piece of code: a value, or a thrown
    [Error] (its [message]). *)
Inductive Outcome (A : Type) : Type :=
| Returned (a : A)
| Thrown (message : string).
Arguments Returned {A} a.
Arguments Thrown {A} message.

Definition obind {A B : Type} (m : Outcome A) (k : A -> Outcome B) : Outcome B :=
  match m with
  | Returned a => k a
  | Thrown e => Thrown e
  end.

Declare Scope outcome_scope.
Delimit Scope outcome_scope with outcome.
Notation "'let!' x ':=' m 'in' k" := (obind m (fun x => k))
  (at level 10, x name, m at level 100, k at level 200) : outcome_scope.

(** ** Strings *)

(** [Number.prototype.toString] / [BigInt.prototype.toString] on an integer. *)
Definition Z_to_string (z : Z) : string := NilZero.string_of_int (Z.to_int z).

(** [hay.includes(needle)] *)
Fixpoint includes (hay needle : string) : bool :=
  String.prefix needle hay ||
  match hay with
  | EmptyString => false
  | String _ rest => includes rest needle
  end.

(** [s.slice(from, to)] for [0 <= from <= to]. *)
Definition slice (from to : nat) (s : string) : string :=
  String.substring from (to - from) s.

Definition ascii_code (c : ascii) : N := N_of_ascii c.

Definition in_range (lo hi : N) (c : ascii) : bool :=
  ((lo <=? ascii_code c) && (ascii_code c <=? hi))%N.

(** The character class [[a-fA-F0-9]]. *)
Definition is_hex_digit (c : ascii) : bool :=
  in_range 97 102 c || in_range 65 70 c || in_range 48 57 c.

(** [[a-fA-F0-9]{n}$] anchored at the start of [s]. *)
Fixpoint hex_run (n : nat) (s : string) : bool :=
  match n, s with
  | O, EmptyString => true
  | S n', String c rest => is_hex_digit c && hex_run n' rest
  | _, _ => false
  end.

(** [/^0x[a-fA-F0-9]{n}$/.test(s)] *)
Definition test_0x_hex (n : nat) (s : string) : bool :=
  match s with
  | String "0" (String "x" rest) => hex_run n rest
  | _ => false
  end.

(** Value of one hexadecimal digit, if it is one. *)
Definition hex_value (c : ascii) : option Z :=
  if in_range 48 57 c then Some (Z.of_N (ascii_code c) - 48)
  else if in_range 97 102 c then Some (Z.of_N (ascii_code c) - 87)
  else if in_range 65 70 c then Some (Z.of_N (ascii_code c) - 55)
  else None.

(** Longest run of hexadecimal digits at the start of [s], folded into
    [acc]; the flag tells whether a digit was read. *)
Fixpoint hex_prefix (s : string) (acc : Z) (seen : bool) : Z * bool :=
  match s with
  | EmptyString => (acc, seen)
  | String c rest =>
      match hex_value c with
      | Some d => hex_prefix rest (16 * acc + d) true
      | None => (acc, seen)
      end
  end.

Definition is_js_space (c : ascii) : bool :=
  in_range 9 13 c || (ascii_code c =? 32)%N.

Fixpoint trim_start (s : string) : string :=
  match s with
  | String c rest => if is_js_space c then trim_start rest else s
  | EmptyString => EmptyString
  end.

(** [parseInt(s, 16)] on ASCII input: leading white space, an optional
    sign, an optional [0x]/[0X], then the longest run of digits; [None]
    is [NaN]. *)
Definition parseInt16 (s : string) : option Z :=
  let s1 := trim_start s in
  let '(sign, s2) :=
    match s1 with
    | String "-" r => (-1, r)
    | String "+" r => (1, r)
    | _ => (1, s1)
    end in
  let s3 :=
    match s2 with
    | String "0" (String "x" r) => r
    | String "0" (String "X" r) => r
    | _ => s2
    end in
  let '(v, seen) := hex_prefix s3 0 false in
  if seen then Some (sign * v) else None.

(** Two lower-case hexadecimal digits: [b.toString(16).padStart(2, '0')]
    for a byte [b]. *)
Definition hex_char (d : N) : ascii :=
  if (d <? 10)%N then ascii_of_N (48 + d) else ascii_of_N (87 + d).

Definition hex2 (b : N) : string :=
  String (hex_char ((b / 16) mod 16)) (String (hex_char (b mod 16)) EmptyString).

(** ** Bodies of the facilitator's answers

    A body parsed from JSON is [any].  As far as the code reads it, such
    a value is [undefined], [null], a primitive (with its truthiness) or
    an object; the fields of an object that the code reads have the types
    of the facilitator's interface and may each be absent. *)

Inductive JSVal : Type :=
| JUndefined
| JNum (n : Z)
| JStr (s : string).

Definition truthy (v : JSVal) : bool :=
  match v with
  | JUndefined => false
  | JNum n => negb (n =? 0)
  | JStr s => negb (s =? "")%string
  end.

Definition of_str (o : option string) : JSVal :=
  match o with Some s => JStr s | None => JUndefined end.

Inductive JsArg (O : Type) : Type :=
| ArgUndefined
| ArgNull
| ArgPrimitive (is_truthy : bool)
| ArgObject (o : O).
Arguments ArgUndefined {O}.
Arguments ArgNull {O}.
Arguments ArgPrimitive {O} is_truthy.
Arguments ArgObject {O} o.

(** [a.f]: reading a property of [undefined] or [null] throws a
    [TypeError]; a primitive has none of the fields. [None] is
    [undefined]. *)
Definition get {O A : Type} (a : JsArg O) (proj : O -> option A) : Outcome (option A) :=
  match a with
  | ArgUndefined => Thrown "TypeError: Cannot read properties of undefined"
  | ArgNull => Thrown "TypeError: Cannot read properties of null"
  | ArgPrimitive _ => Returned None
  | ArgObject o => Returned (proj o)
  end.

(** ** Values of any type

    The validators take [any]; what reaches them through the settle route
    is a parsed JSON body.  A value is [undefined], [null], a boolean, a
    number, a string, an array or a plain object (its own properties, one
    binding per name; JSON carries no functions). *)

(** A number by its exact value: an integer, a value strictly between
    two consecutive integers, an infinity ([1e999] parses to one), or
    [NaN]. *)
Inductive Number : Type :=
| NaN
| Infinite (negative : bool)
| Integer (z : Z)
| Fraction (below : Z).

#[local] Unset Elimination Schemes.
Inductive Value : Type :=
| VUndefined
| VNull
| VBool (b : bool)
| VNumber (n : Number)
| VString (s : string)
| VArray (items : list Value)
| VObject (fields : list (string * Value)).
#[local] Set Elimination Schemes.

(** [!!v] *)
Definition truthy_value (v : Value) : bool :=
  match v with
  | VUndefined | VNull => false
  | VBool b => b
  | VNumber NaN => false
  | VNumber (Integer z) => negb (z =? 0)
  | VNumber _ => true
  | VString s => negb (s =? "")%string
  | VArray _ | VObject _ => true
  end.

(** [typeof v === 'object'] *)
Definition typeof_object_value (v : Value) : bool :=
  match v with
  | VNull | VArray _ | VObject _ => true
  | _ => false
  end.

Fixpoint own (fields : list (string * Value)) (name : string) : option Value :=
  match fields with
  | [] => None
  | (key, v) :: rest => if (key =? name)%string then Some v else own rest name
  end.

(** [v[name]] and [v.name] for the names the validators read ([owner],
    [network], ...), which no prototype defines and no array or
    primitive has. *)
Definition property (v : Value) (name : string) : Outcome Value :=
  match v with
  | VUndefined => Thrown "TypeError: Cannot read properties of undefined"
  | VNull => Thrown "TypeError: Cannot read properties of null"
  | VObject fields =>
      Returned (match own fields name with
                | Some x => x
                | None => VUndefined
                end)
  | _ => Returned VUndefined
  end.

(** Conversion to a primitive fails on a plain object with a property
    of its own named [toString] (it is no function, and
    [Object.prototype.valueOf] returns the object), and on an array that
    holds such an object: [join] converts every element. *)
Fixpoint unconvertible (v : Value) : bool :=
  match v with
  | VObject fields =>
      match own fields "toString" with
      | Some _ => true
      | None => false
      end
  | VArray items => existsb unconvertible items
  | _ => false
  end.

(** Whether the string form of a convertible value matches
    [/^0x[a-fA-F0-9]{n}$/].  The string form of an array is its elements'
    string forms joined by commas ([undefined] and [null] as the empty
    string), so only an array of one element can match; [undefined],
    [null], [true], [false], a numeral and [[object Object]] do not start
    with [0x]. *)
Fixpoint matches_0x_hex (n : nat) (v : Value) : bool :=
  match v with
  | VString s => test_0x_hex n s
  | VArray [x] => matches_0x_hex n x
  | _ => false
  end.

(** [/^0x[a-fA-F0-9]{n}$/.test(v)] *)
Definition test_value (n : nat) (v : Value) : Outcome bool :=
  if unconvertible v
  then Thrown "TypeError: Cannot convert object to primitive value"
  else Returned (matches_0x_hex n v).

(** A character with which neither a numeral nor white space nor a sign
    begins (non-ASCII bytes may begin white space). *)
Definition begins_no_numeral (c : ascii) : bool :=
  (ascii_code c <? 128)%N
  && negb (is_js_space c)
  && negb (in_range 48 57 c)
  && negb ((ascii_code c =? 43) || (ascii_code c =? 45) || (ascii_code c =? 46)
           || (ascii_code c =? 73))%N.

Section Numbers.

(** The number a string reads as when it may hold a numeral (ECMAScript
    [StringToNumber], which rounds decimal numerals to doubles): a
    built-in of the language, taken as given. *)
Variable read_numeral : string -> Number.

Definition StringToNumber (s : string) : Number :=
  match s with
  | EmptyString => Integer 0
  | String c _ => if begins_no_numeral c then NaN else read_numeral s
  end.

(** [ToNumber] of a convertible value: an array and an object go through
    their string forms ([[5]] is 5, [[]] is 0, two elements or more hold a
    comma, [[object Object]] is no numeral). *)
Fixpoint to_number (v : Value) : Number :=
  match v with
  | VUndefined => NaN
  | VNull => Integer 0
  | VBool b => Integer (if b then 1 else 0)
  | VNumber n => n
  | VString s => StringToNumber s
  | VArray [] => Integer 0
  | VArray [x] =>
      match x with
      | VUndefined | VNull => Integer 0
      | VBool _ | VObject _ => NaN
      | VNumber n => n
      | VString s => StringToNumber s
      | VArray _ => to_number x
      end
  | VArray (_ :: _ :: _) => NaN
  | VObject _ => NaN
  end.

(** [x <= now] for a number [x] and an integer [now]. *)
Definition number_le (x : Number) (now : Z) : bool :=
  match x with
  | NaN => false
  | Infinite negative => negative
  | Integer z => z <=? now
  | Fraction below => below <? now
  end.

(** [v <= now] *)
Definition value_le (v : Value) (now : Z) : Outcome bool :=
  if unconvertible v
  then Thrown "TypeError: Cannot convert object to primitive value"
  else Returned (number_le (to_number v) now).

End Numbers.

(** ** utils/validation.ts *)

(** [Math.floor(Date.now() / 1000)] for the clock reading [now_ms]. *)
Definition unix_seconds (now_ms : Z) : Z := now_ms / 1000.

(** A computation that calls into the viem library: it may throw, and
    it may change the library's state (viem keeps a cache of answers). *)
Definition Checked (Lib A : Type) : Type := Lib -> Outcome A * Lib.

Definition checked {Lib A : Type} (o : Outcome A) : Checked Lib A :=
  fun lib => (o, lib).

Definition and_then {Lib A B : Type} (m : Checked Lib A) (k : A -> Checked Lib B)
  : Checked Lib B :=
  fun lib =>
    match m lib with
    | (Returned a, lib') => k a lib'
    | (Thrown message, lib') => (Thrown message, lib')
    end.

Declare Scope checked_scope.
Delimit Scope checked_scope with checked.
Notation "'check!' x ':=' m 'in' k" := (and_then m (fun x => k))
  (at level 10, x name, m at level 100, k at level 200) : checked_scope.

(** [for (const field of requiredFields) { if (!v[field]) return false; }]:
    [Some false] when the loop returns, [None] when it falls through. *)
Fixpoint require_value_fields (v : Value) (fields : list string)
  : Outcome (option bool) :=
  match fields with
  | [] => Returned None
  | field :: rest =>
      (let! x := property v field in
       if negb (truthy_value x) then Returned (Some false)
       else require_value_fields v rest)%outcome
  end.

Section Validation.

Variable read_numeral : string -> Number.

(** [isAddress] of the viem library, which is not part of this
    repository: called on any value, it answers or throws, and it may
    change the library's state [Lib]. *)
Variable Lib : Type.
Variable isAddress : Value -> Checked Lib bool.

Definition validateWalletAddress (address : Value) : Checked Lib bool :=
  isAddress address.

Definition permit_requiredFields : list string :=
  ["owner"; "spender"; "value"; "deadline"; "nonce"; "sig"].

Definition validatePermit (now_ms : Z) (permit : Value) : Checked Lib bool :=
  (if negb (truthy_value permit) || negb (typeof_object_value permit)
   then checked (Returned false)
   else
     check! early := checked (require_value_fields permit permit_requiredFields) in
     match early with
     | Some b => checked (Returned b)
     | None =>
         (* Validate addresses *)
         check! owner := checked (property permit "owner") in
         check! owner_ok := validateWalletAddress owner in
         if negb owner_ok then checked (Returned false)
         else
           check! spender := checked (property permit "spender") in
           check! spender_ok := validateWalletAddress spender in
           if negb spender_ok then checked (Returned false)
           else
             (* Validate signature format (0x + 130 hex chars) *)
             check! sig := checked (property permit "sig") in
             check! sig_ok := checked (test_value 130 sig) in
             if negb sig_ok then checked (Returned false)
             else
               (* Validate nonce format (0x + 64 hex chars) *)
               check! nonce := checked (property permit "nonce") in
               check! nonce_ok := checked (test_value 64 nonce) in
               if negb nonce_ok then checked (Returned false)
               else
                 (* Validate deadline is in the future *)
                 let now := unix_seconds now_ms in
                 check! deadline := checked (property permit "deadline") in
                 check! late := checked (value_le read_numeral deadline now) in
                 if late then checked (Returned false)
                 else checked (Returned true)
     end)%checked.

Definition requirements_requiredFields : list string :=
  ["network"; "token"; "recipient"; "amount"; "nonce"; "deadline"].

Definition validateRequirements (requirements : Value) : Checked Lib bool :=
  (if negb (truthy_value requirements) || negb (typeof_object_value requirements)
   then checked (Returned false)
   else
     check! early :=
       checked (require_value_fields requirements requirements_requiredFields) in
     match early with
     | Some b => checked (Returned b)
     | None =>
         (* Validate network *)
         check! network := checked (property requirements "network") in
         if negb (match network with
                  | VString n => (n =? "arbitrum")%string
                  | _ => false
                  end)
         then checked (Returned false)
         else
           (* Validate recipient address *)
           check! recipient := checked (property requirements "recipient") in
           check! recipient_ok := validateWalletAddress recipient in
           if negb recipient_ok then checked (Returned false)
           else
             (* Validate token address *)
             check! token := checked (property requirements "token") in
             check! token_ok := validateWalletAddress token in
             if negb token_ok then checked (Returned false)
             else checked (Returned true)
     end)%checked.

End Validation.
Arguments validateWalletAddress {Lib} isAddress address.
Arguments validatePermit read_numeral {Lib} isAddress now_ms permit.
Arguments validateRequirements {Lib} isAddress requirements.

(** ** config.ts *)

Record Config : Type := mkConfig {
  NODE_ENV : string;
  FACILITATOR_API_URL : string;
  FACILITATOR_API_KEY : string;
  MERCHANT_ADDRESS : string;
  DEV_BYPASS_SECRET : string
}.

(** [CONFIG.PAYMENT] *)
Definition AMOUNT_USDC : string := "1000000".
Definition USDC_ADDRESS : string := "0xaf88d065e77c8cC2239327C5EDb3A432268e5831".

(** ** types.ts *)

Record PaymentRequirements : Type := mkPaymentRequirements {
  req_network : string;
  req_token : string;
  req_recipient : string;
  req_amount : string;
  req_nonce : string;
  req_deadline : Z
}.

Record Permit : Type := mkPermit {
  permit_owner : string;
  permit_spender : string;
  permit_value : string;
  permit_deadline : Z;
  permit_nonce : string;
  permit_sig : string
}.

(** ** The facilitator's wire format (services/payment.ts) *)

(** Body of [POST /requirements]. *)
Record QuoteRequest : Type := mkQuoteRequest {
  qr_amount : string;
  qr_memo : string;
  qr_network : string;
  qr_token : string;
  qr_extra_merchantAddress : string
}.

Record AcceptsExtra : Type := mkAcceptsExtra {
  extra_nonce : option string;
  extra_deadline : option Z
}.

Record AcceptsItem : Type := mkAcceptsItem {
  acc_network : string;
  acc_asset : string;
  acc_payTo : string;
  acc_maxAmountRequired : string;
  acc_extra : option AcceptsExtra
}.

Record QuoteData : Type := mkQuoteData {
  accepts : option (list AcceptsItem)
}.

Record Payload : Type := mkPayload {
  pl_from : string;
  pl_to : string;
  pl_value : string;
  pl_validAfter : Z;
  pl_validBefore : Z;
  pl_nonce : string;
  pl_v : option Z;
  pl_r : string;
  pl_s : string
}.

Record PaymentPayload : Type := mkPaymentPayload {
  pp_scheme : string;
  pp_network : string;
  pp_payload : Payload
}.

Record SettleTerms : Type := mkSettleTerms {
  st_scheme : string;
  st_network : string;
  st_token : string;
  st_amount : string;
  st_recipient : string;
  st_description : string;
  st_maxTimeoutSeconds : Z
}.

(** Body of [POST /settle]. *)
Record SettleRequest : Type := mkSettleRequest {
  sr_network : string;
  sr_token : string;
  sr_recipient : string;
  sr_amount : string;
  sr_nonce : string;
  sr_deadline : Z;
  sr_extra_merchantAddress : string;
  sr_permit : Permit;
  sr_paymentPayload : PaymentPayload;
  sr_paymentRequirements : SettleTerms
}.

Record SettleMeta : Type := mkSettleMeta {
  incomingTxHash : option string
}.

(** The fields of a settlement answer that the code reads. *)
Record SettleData : Type := mkSettleData {
  data_txHash : option string;
  data_transactionHash : option string;
  data_meta : option SettleMeta
}.

(** ** Network, console and timers *)

(** A response: its status, and what reading its body comes to.
    [await response.text()] gives the body or throws; [await
    response.json()] gives the parsed body ([null], a primitive, or an
    object seen through the fields the code reads) or throws, as it does
    on a body that is not JSON. *)
Record HttpResponse (J : Type) : Type := mkHttpResponse {
  status : Z;
  text : Outcome string;
  json : Outcome (JsArg J)
}.
Arguments mkHttpResponse {J} status text json.
Arguments status {J} h.
Arguments text {J} h.
Arguments json {J} h.

(** [response.ok]: the status is in the range 200-299. *)
Definition ok {J : Type} (response : HttpResponse J) : bool :=
  (200 <=? status response) && (status response <=? 299).

(** What [await fetch(...)] comes to: the promise rejects (a network
    error), or a response arrives. *)
Inductive FetchOutcome (J : Type) : Type :=
| Rejects (message : string)
| Responds (response : HttpResponse J).
Arguments Rejects {J} message.
Arguments Responds {J} response.

Inductive Event : Type :=
| ELog (line : string)
| EQuote (url : string) (body : QuoteRequest)
| ESettle (url : string) (apiKey : string) (body : SettleRequest)
| ESleep (ms : Z).

(** A computation: the events it caused, and how it ended. *)
Definition Eff (A : Type) : Type := (list Event * Outcome A)%type.

Definition ret {A : Type} (a : A) : Eff A := ([], Returned a).

Definition throw {A : Type} (message : string) : Eff A := ([], Thrown message).

Definition bind {A B : Type} (m : Eff A) (k : A -> Eff B) : Eff B :=
  match m with
  | (t, Returned a) => let '(t', r) := k a in ((t ++ t')%list, r)
  | (t, Thrown e) => (t, Thrown e)
  end.

(** [try { body } catch (error) { handler(error.message) }] *)
Definition try_catch {A : Type} (body : Eff A) (handler : string -> Eff A) : Eff A :=
  match body with
  | (t, Returned a) => (t, Returned a)
  | (t, Thrown e) => let '(t', r) := handler e in ((t ++ t')%list, r)
  end.

Definition emit (e : Event) : Eff unit := ([e], Returned tt).

Declare Scope eff_scope.
Delimit Scope eff_scope with eff.
Notation "x <- m ;; k" := (bind m (fun x => k))
  (at level 61, m at next level, right associativity) : eff_scope.
Notation "m ;; k" := (bind m (fun _ => k))
  (at level 61, right associativity) : eff_scope.

Definition log (line : string) : Eff unit := emit (ELog line).
Definition sleep (ms : Z) : Eff unit := emit (ESleep ms).

Definition events {A : Type} (m : Eff A) : list Event := fst m.
Definition result {A : Type} (m : Eff A) : Outcome A := snd m.

(** [await] on a promise that is not a network call. *)
Definition await {A : Type} (o : Outcome A) : Eff A := ([], o).

(** [await fetch(url, ...)] *)
Definition await_fetch {J : Type} (request : Event) (answer : FetchOutcome J)
  : Eff (HttpResponse J) :=
  (emit request ;;
   match answer with
   | Rejects message => throw message
   | Responds response => ret response
   end)%eff.

(** [a || b] on strings that may be [undefined]. *)
Definition or_else (a : option string) (b : string) : string :=
  match a with
  | Some s => if truthy (JStr s) then s else b
  | None => b
  end.

(** ** services/payment.ts *)

(** What [startPayment] reads from outside: the clock ([Date.now()], in
    milliseconds), the random source ([crypto.getRandomValues]) and the
    facilitator's answer to the quote request. *)
Record StartWorld : Type := mkStartWorld {
  now_ms : Z;
  random_byte : nat -> N;
  quote : QuoteRequest -> FetchOutcome QuoteData
}.

Definition generateNonce (w : StartWorld) : string :=
  let bytes := List.map (fun i => (random_byte w i mod 256)%N) (seq 0 32) in
  "0x" ++ String.concat "" (List.map hex2 bytes).

Definition createDevBypassResponse (w : StartWorld) : PaymentRequirements :=
  let nonce := generateNonce w in
  let deadline := unix_seconds (now_ms w) + 3600 in
  {| req_network := "arbitrum";
     req_token := USDC_ADDRESS;
     req_recipient := "0x0000000000000000000000000000000000000000";
     req_amount := AMOUNT_USDC;
     req_nonce := nonce;
     req_deadline := deadline |}.

(** The fee arithmetic of the live path, on [BigInt]s ([/] truncates). *)
Definition merchantAmount : Z := 900000.
Definition feeBasisPoints : Z := 50.
Definition serviceFee : Z := Z.quot (merchantAmount * feeBasisPoints) 10000.
Definition gasFee : Z := 100000.
Definition totalAmount : Z := merchantAmount + serviceFee + gasFee.

Definition startPayment (cfg : Config) (w : StartWorld)
    (walletAddress : string) (devBypass : option string) : Eff PaymentRequirements :=
  (* Check for dev bypass *)
  if negb (NODE_ENV cfg =? "production")%string
     && truthy (of_str devBypass)
     && match devBypass with
        | Some token => (token =? DEV_BYPASS_SECRET cfg)%string
        | None => false
        end
  then
    (log "Using dev bypass mode" ;;
     ret (createDevBypassResponse w))%eff
  else
  (* Validate facilitator configuration *)
  if negb (truthy (JStr (FACILITATOR_API_URL cfg)))
     || negb (truthy (JStr (MERCHANT_ADDRESS cfg)))
  then throw "Facilitator configuration not available"
  else
    let facilitatorRequest :=
      {| qr_amount := Z_to_string totalAmount;
         qr_memo := "EdgeFinder scan";
         qr_network := "arbitrum";
         qr_token := "USDC";
         qr_extra_merchantAddress := MERCHANT_ADDRESS cfg |} in
    (response <- await_fetch
                   (EQuote (FACILITATOR_API_URL cfg ++ "/requirements") facilitatorRequest)
                   (quote w facilitatorRequest) ;;
     if negb (ok response) && negb (status response =? 402)
     then
       (errorText <- await (text response) ;;
        throw ("Facilitator error: " ++ errorText))
     else
       facilitatorData <- await (json response) ;;
       offers <- await (get facilitatorData accepts) ;;
       match offers with
       | None | Some [] => throw "Invalid response from payment facilitator"
       | Some (acceptsItem :: _) =>
           if negb (acc_network acceptsItem =? "arbitrum")%string
           then throw "Only Arbitrum network is supported"
           else
             ret {| req_network := acc_network acceptsItem;
                    req_token := acc_asset acceptsItem;
                    req_recipient := acc_payTo acceptsItem;
                    req_amount := acc_maxAmountRequired acceptsItem;
                    req_nonce :=
                      or_else (match acc_extra acceptsItem with
                               | Some extra => extra_nonce extra
                               | None => None
                               end) "";
                    req_deadline :=
                      match (match acc_extra acceptsItem with
                             | Some extra => extra_deadline extra
                             | None => None
                             end) with
                      | Some d => if truthy (JNum d) then d else now_ms w + 3600000
                      | None => now_ms w + 3600000
                      end |}
       end)%eff.

Record SettleReturn : Type := mkSettleReturn {
  success : bool;
  txHash : string;
  facilitatorResponse : JsArg SettleData
}.

(** The facilitator as [settlePayment] meets it: its answer to the
    [n]-th [POST /settle] of one settlement. *)
Definition Facilitator : Type := SettleRequest -> nat -> FetchOutcome SettleData.

Definition build_facilitatorRequest (cfg : Config)
    (requirements : PaymentRequirements) (permit : Permit) : SettleRequest :=
  (* Parse signature components *)
  let signature := permit_sig permit in
  let r := slice 0 66 signature in
  let s := "0x" ++ slice 66 130 signature in
  let v := parseInt16 (slice 130 132 signature) in
  {| sr_network := req_network requirements;
     sr_token := req_token requirements;
     sr_recipient := req_recipient requirements;
     sr_amount := req_amount requirements;
     sr_nonce := permit_nonce permit;
     sr_deadline := req_deadline requirements;
     sr_extra_merchantAddress := MERCHANT_ADDRESS cfg;
     sr_permit :=
       {| permit_owner := permit_owner permit;
          permit_spender := permit_spender permit;
          permit_value := permit_value permit;
          permit_deadline := permit_deadline permit;
          permit_nonce := permit_nonce permit;
          permit_sig := permit_sig permit |};
     sr_paymentPayload :=
       {| pp_scheme := "exact";
          pp_network := req_network requirements;
          pp_payload :=
            {| pl_from := permit_owner permit;
               pl_to := permit_spender permit;
               pl_value := permit_value permit;
               pl_validAfter := 0;
               pl_validBefore := permit_deadline permit;
               pl_nonce := permit_nonce permit;
               pl_v := v;
               pl_r := r;
               pl_s := s |} |};
     sr_paymentRequirements :=
       {| st_scheme := "exact";
          st_network := req_network requirements;
          st_token := req_token requirements;
          st_amount := req_amount requirements;
          st_recipient := req_recipient requirements;
          st_description := "EdgeFinder scan";
          st_maxTimeoutSeconds := 3600 |} |}.

Definition maxRetries : nat := 4.
Definition baseRetryDelay : Z := 1000.

(** [baseRetryDelay * Math.pow(2, attempt - 1)] *)
Definition retryDelay (attempt : nat) : Z :=
  baseRetryDelay * 2 ^ (Z.of_nat attempt - 1).

(** A string operand of [||] that is truthy. *)
Definition populated (x : option string) : option string :=
  match x with
  | Some s => if truthy (JStr s) then Some s else None
  | None => None
  end.

(** [data.txHash || data.transactionHash || data.meta?.incomingTxHash || 'unknown'] *)
Definition extract_txHash (data : JsArg SettleData) : Outcome string :=
  (let! txHash := get data data_txHash in
   match populated txHash with
   | Some hash => Returned hash
   | None =>
       let! transactionHash := get data data_transactionHash in
       match populated transactionHash with
       | Some hash => Returned hash
       | None =>
           let! meta := get data data_meta in
           Returned (or_else (match meta with
                              | Some m => incomingTxHash m
                              | None => None
                              end)
                             "unknown")
       end
   end)%outcome.

(** The body of the [try] block of one iteration: [Some] is the value
    the function returns, [None] lets the loop go on. *)
Definition settle_try (cfg : Config) (facilitatorRequest : SettleRequest)
    (facilitator : Facilitator) (attempt : nat) : Eff (option SettleReturn) :=
  (response <- await_fetch
                 (ESettle (FACILITATOR_API_URL cfg ++ "/settle")
                          (FACILITATOR_API_KEY cfg) facilitatorRequest)
                 (facilitator facilitatorRequest attempt) ;;
   if ok response then
     data <- await (json response) ;;
     txHash <- await (extract_txHash data) ;;
     ret (Some {| success := true;
                  txHash := txHash;
                  facilitatorResponse := data |})
   else
     errorText <- await (text response) ;;
     let statusCode := status response in
     let isNonceError :=
       includes errorText "nonce uniqueness" || includes errorText "checking nonce" in
     let isDatabaseError :=
       includes errorText "database" || includes errorText "Internal error" in
     let isServerError := 500 <=? statusCode in
     let isRetryable := isServerError || isNonceError || isDatabaseError in
     if negb isRetryable || (attempt =? maxRetries)%nat
     then throw ("Payment settlement failed: " ++ errorText)
     else
       (log ("Retryable error, waiting " ++ Z_to_string (retryDelay attempt)
             ++ "ms before retry...") ;;
        sleep (retryDelay attempt) ;;
        ret None))%eff.

(** One iteration of the loop, [try] and [catch]; the second component
    is the variable [lastError] after it. *)
Definition settle_iteration (cfg : Config) (facilitatorRequest : SettleRequest)
    (facilitator : Facilitator) (attempt : nat) (lastError : option string)
  : Eff (option SettleReturn * option string) :=
  try_catch
    (returned <- settle_try cfg facilitatorRequest facilitator attempt ;;
     ret (returned, lastError))%eff
    (fun error_message =>
       if (attempt =? maxRetries)%nat
       then throw ("Payment settlement failed after "
                   ++ Z_to_string (Z.of_nat maxRetries) ++ " attempts: " ++ error_message)
       else
         (sleep (retryDelay attempt) ;;
          ret (None, Some error_message))%eff).

(** [for (let attempt = ...; attempt <= maxRetries; attempt++) { ... }]
    with [remaining] iterations left, then the statement after the loop. *)
Fixpoint settle_loop (cfg : Config) (facilitatorRequest : SettleRequest)
    (facilitator : Facilitator) (remaining : nat) (attempt : nat)
    (lastError : option string) : Eff SettleReturn :=
  match remaining with
  | O =>
      throw (match lastError with
             | Some message => message
             | None => "Payment settlement failed"
             end)
  | S remaining' =>
      (step <- settle_iteration cfg facilitatorRequest facilitator attempt lastError ;;
       match step with
       | (Some value, _) => ret value
       | (None, lastError') =>
           settle_loop cfg facilitatorRequest facilitator remaining' (S attempt) lastError'
       end)%eff
  end.

Definition settlePayment (cfg : Config) (facilitator : Facilitator)
    (requirements : PaymentRequirements) (permit : Permit)
    (devBypass : option string) : Eff SettleReturn :=
  (* Check for dev bypass *)
  if negb (NODE_ENV cfg =? "production")%string
     && truthy (of_str devBypass)
     && match devBypass with
        | Some token => (token =? DEV_BYPASS_SECRET cfg)%string
        | None => false
        end
  then
    (log "Using dev bypass mode for settlement" ;;
     ret {| success := true; txHash := "dev-bypass"; facilitatorResponse := ArgNull |})%eff
  else
  (* Validate facilitator configuration *)
  if negb (truthy (JStr (FACILITATOR_API_URL cfg)))
     || negb (truthy (JStr (FACILITATOR_API_KEY cfg)))
  then throw "Facilitator configuration not available"
  else
    let facilitatorRequest := build_facilitatorRequest cfg requirements permit in
    settle_loop cfg facilitatorRequest facilitator maxRetries 1 None.

(** ** services/supabase.ts *)

(** Timestamps ([created_at], [expires_at], [valid_until]) are instants,
    in milliseconds; the items of a dataset are kept by their ids. *)
Record SharedDataset : Type := mkSharedDataset {
  ds_id : string;
  ds_items : list string;
  ds_created_at : Z;
  ds_expires_at : Z
}.

Record Entitlement : Type := mkEntitlement {
  ent_id : string;
  ent_wallet_address : string;
  ent_shared_dataset_id : string;
  ent_tx_hash : string;
  ent_facilitator_response : JsArg SettleData;
  ent_valid_until : Z;
  ent_created_at : Z
}.

(** The row handed to [.insert(...)]. *)
Record EntitlementRow : Type := mkEntitlementRow {
  row_wallet_address : string;
  row_shared_dataset_id : string;
  row_tx_hash : string;
  row_facilitator_response : JsArg SettleData;
  row_valid_until : Z
}.

(** The [{ data, error }] pair a query resolves to; [error] is the
    error's [message]. *)
Record PgResponse (A : Type) : Type := mkPgResponse {
  pg_data : option A;
  pg_error : option string
}.
Arguments mkPgResponse {A} pg_data pg_error.
Arguments pg_data {A} p.
Arguments pg_error {A} p.

(** The queries on [shared_datasets] that the code builds:
    [.gt('expires_at', t)], [.eq('id', id)],
    [.order('created_at', { ascending: false })], [.limit(n)]. *)
Inductive Filter : Type :=
| Gt_expires_at (t : Z)
| Eq_id (id : string).

Record Select : Type := mkSelect {
  sel_where : list Filter;
  sel_order_created_at_desc : bool;
  sel_limit : option nat
}.

(** The Supabase client, over some database state [S]: the select on
    [shared_datasets], and the insert into [entitlements] that returns the
    inserted row ([.insert(row).select().single()]: the row, or the
    error's message). *)
Record SupabaseClient (S : Type) : Type := mkSupabaseClient {
  select_shared_datasets : Select -> S -> PgResponse (list SharedDataset);
  insert_entitlement : EntitlementRow -> S -> Outcome Entitlement * S
}.
Arguments select_shared_datasets {S} s _ _.
Arguments insert_entitlement {S} s _ _.

Section Supabase.

Variable DB : Type.
Variable supabase : SupabaseClient DB.

Definition getLatestSharedDataset (now : Z) (db : DB) : Outcome SharedDataset :=
  (* First try to get an unexpired dataset *)
  let active :=
    select_shared_datasets supabase
      {| sel_where := [Gt_expires_at now];
         sel_order_created_at_desc := true;
         sel_limit := Some 1%nat |} db in
  match pg_error active with
  | Some message => Thrown ("Failed to fetch shared dataset: " ++ message)
  | None =>
      match pg_data active with
      | Some (first :: _) => Returned first
      | _ =>
          (* Fall back to most recent expired dataset *)
          let expired :=
            select_shared_datasets supabase
              {| sel_where := [];
                 sel_order_created_at_desc := true;
                 sel_limit := Some 1%nat |} db in
          match pg_error expired with
          | Some message => Thrown ("Failed to fetch shared dataset: " ++ message)
          | None =>
              match pg_data expired with
              | None | Some [] =>
                  Thrown "No shared dataset available. Pipeline may not have run yet."
              | Some (first :: _) => Returned first
              end
          end
      end
  end.

Definition grantDatasetAccess (walletAddress sharedDatasetId txHash : string)
    (facilitatorResponse : JsArg SettleData) (db : DB) : Outcome Entitlement * DB :=
  (* Get the shared dataset to determine expiration *)
  let found :=
    select_shared_datasets supabase
      {| sel_where := [Eq_id sharedDatasetId];
         sel_order_created_at_desc := false;
         sel_limit := Some 1%nat |} db in
  match pg_error found, pg_data found with
  | None, Some (sharedDataset :: _) =>
      let '(inserted, db') :=
        insert_entitlement supabase
          {| row_wallet_address := walletAddress;
             row_shared_dataset_id := sharedDatasetId;
             row_tx_hash := txHash;
             row_facilitator_response := facilitatorResponse;
             row_valid_until := ds_expires_at sharedDataset |} db in
      match inserted with
      | Thrown message => (Thrown ("Failed to create entitlement: " ++ message), db')
      | Returned entitlement => (Returned entitlement, db')
      end
  | _, _ => (Thrown "Failed to get shared dataset expiration", db)
  end.

End Supabase.
Arguments getLatestSharedDataset {DB} supabase now db.
Arguments grantDatasetAccess {DB} supabase walletAddress sharedDatasetId txHash
  facilitatorResponse db.

(** *** The database, in memory *)

Record Store : Type := mkStore {
  shared_datasets : list SharedDataset;
  entitlements : list Entitlement;
  store_clock : Z;        (* the database's [now()] *)
  store_serial : nat      (* source of generated ids *)
}.

Definition filter_holds (f : Filter) (d : SharedDataset) : bool :=
  match f with
  | Gt_expires_at t => t <? ds_expires_at d
  | Eq_id id => (ds_id d =? id)%string
  end.

(** [ORDER BY created_at DESC], by insertion. *)
Fixpoint insert_desc (d : SharedDataset) (sorted : list SharedDataset)
  : list SharedDataset :=
  match sorted with
  | [] => [d]
  | x :: rest =>
      if ds_created_at x <=? ds_created_at d then d :: x :: rest
      else x :: insert_desc d rest
  end.

Definition order_desc (rows : list SharedDataset) : list SharedDataset :=
  fold_right insert_desc [] rows.

Definition run_select (q : Select) (rows : list SharedDataset) : list SharedDataset :=
  let kept := filter (fun d => forallb (fun f => filter_holds f d) (sel_where q)) rows in
  let ordered := if sel_order_created_at_desc q then order_desc kept else kept in
  match sel_limit q with
  | Some n => firstn n ordered
  | None => ordered
  end.

Definition store_insert (row : EntitlementRow) (db : Store) : Entitlement * Store :=
  let entitlement :=
    {| ent_id := "ent-" ++ Z_to_string (Z.of_nat (store_serial db));
       ent_wallet_address := row_wallet_address row;
       ent_shared_dataset_id := row_shared_dataset_id row;
       ent_tx_hash := row_tx_hash row;
       ent_facilitator_response := row_facilitator_response row;
       ent_valid_until := row_valid_until row;
       ent_created_at := store_clock db |} in
  (entitlement,
   {| shared_datasets := shared_datasets db;
      entitlements := (entitlements db ++ [entitlement])%list;
      store_clock := store_clock db;
      store_serial := S (store_serial db) |}).

(** A client whose every query succeeds against the store. *)
Definition store_client : SupabaseClient Store :=
  {| select_shared_datasets := fun q db =>
       {| pg_data := Some (run_select q (shared_datasets db)); pg_error := None |};
     insert_entitlement := fun row db =>
       let '(entitlement, db') := store_insert row db in (Returned entitlement, db') |}.

(** The pipeline that owns the datasets moves the expiry of dataset
    [id] to [t]. *)
Definition reschedule (id : string) (t : Z) (db : Store) : Store :=
  {| shared_datasets :=
       List.map (fun d =>
                   if (ds_id d =? id)%string
                   then {| ds_id := ds_id d; ds_items := ds_items d;
                           ds_created_at := ds_created_at d; ds_expires_at := t |}
                   else d)
                (shared_datasets db);
     entitlements := entitlements db;
     store_clock := store_clock db;
     store_serial := store_serial db |}.

(** ** services/supabase.ts: [getPaymentStatus] *)

(** A PostgREST error: its [code] and [message]. *)
Record PgError : Type := mkPgError {
  pg_code : string;
  pg_message : string
}.

(** What [.single()] resolves to: the row or [null], and the error or
    [null]. *)
Record PgSingle (A : Type) : Type := mkPgSingle {
  single_data : option A;
  single_error : option PgError
}.
Arguments mkPgSingle {A} single_data single_error.
Arguments single_data {A} p.
Arguments single_error {A} p.

(** An entitlement row with the embedded resource [shared_dataset]: the
    row of [shared_datasets] it refers to, or [null]. *)
Record JoinedEntitlement : Type := mkJoinedEntitlement {
  je_entitlement : Entitlement;
  je_shared_dataset : option SharedDataset
}.

(** [types.ts]: [PaymentStatus]. *)
Record StatusDataset : Type := mkStatusDataset {
  sd_items : list string;
  sd_next_available_at : Z
}.

Record StatusEntitlement : Type := mkStatusEntitlement {
  se_id : string;
  se_tx_hash : string;
  se_valid_until : Z;
  se_created_at : Z;
  se_is_valid : bool
}.

Record PaymentStatus : Type := mkPaymentStatus {
  ps_dataset : option StatusDataset;
  ps_entitlement : option StatusEntitlement;
  ps_now : Z;
  ps_valid_until : option Z
}.

(** The read of [getPaymentStatus]: the entitlements of a wallet, newest
    first, limited to one, as a single row. *)
Definition EntitlementQuery (DB : Type) : Type :=
  string -> DB -> PgSingle JoinedEntitlement.

Definition getPaymentStatus {DB : Type} (latest_entitlement : EntitlementQuery DB)
    (walletAddress : string) (now : Z) (db : DB) : Outcome PaymentStatus :=
  let answer := latest_entitlement walletAddress db in
  if match single_error answer with
     | Some entitlementError => negb (pg_code entitlementError =? "PGRST116")%string
     | None => false
     end
  then Thrown "Failed to fetch entitlement status"
  else
    match single_data answer with
    | None =>
        Returned {| ps_dataset := None;
                    ps_entitlement := None;
                    ps_now := now;
                    ps_valid_until := None |}
    | Some row =>
        let entitlement := je_entitlement row in
        let validUntil := ent_valid_until entitlement in
        let isValid := now <? validUntil in
        Returned
          {| ps_dataset :=
               match je_shared_dataset row with
               | Some shared_dataset =>
                   Some {| sd_items := ds_items shared_dataset;
                           sd_next_available_at := ds_expires_at shared_dataset |}
               | None => None
               end;
             ps_entitlement :=
               Some {| se_id := ent_id entitlement;
                       se_tx_hash := ent_tx_hash entitlement;
                       se_valid_until := ent_valid_until entitlement;
                       se_created_at := ent_created_at entitlement;
                       se_is_valid := isValid |};
             ps_now := now;
             ps_valid_until := Some (ent_valid_until entitlement) |}
    end.

(** [ORDER BY created_at DESC] on entitlements, by insertion. *)
Fixpoint insert_entitlement_desc (e : Entitlement) (sorted : list Entitlement)
  : list Entitlement :=
  match sorted with
  | [] => [e]
  | x :: rest =>
      if ent_created_at x <=? ent_created_at e then e :: x :: rest
      else x :: insert_entitlement_desc e rest
  end.

Definition order_entitlements_desc (rows : list Entitlement) : list Entitlement :=
  fold_right insert_entitlement_desc [] rows.

(** The read against the store: [.eq('wallet_address', w)], newest first,
    one row; [.single()] on no row is the error [PGRST116]. *)
Definition store_latest_entitlement : EntitlementQuery Store :=
  fun walletAddress db =>
    match order_entitlements_desc
            (filter (fun e => (ent_wallet_address e =? walletAddress)%string)
                    (entitlements db)) with
    | [] =>
        {| single_data := None;
           single_error :=
             Some {| pg_code := "PGRST116";
                     pg_message := "JSON object requested, multiple (or no) rows returned" |} |}
    | newest :: _ =>
        {| single_data :=
             Some {| je_entitlement := newest;
                     je_shared_dataset :=
                       find (fun d => (ds_id d =? ent_shared_dataset_id newest)%string)
                            (shared_datasets db) |};
           single_error := None |}
    end.

(** ** utils/response.ts *)

Record ApiError : Type := mkApiError {
  err_code : string;
  err_message : string;
  err_details : option string
}.

Record ApiMeta : Type := mkApiMeta {
  meta_timestamp : Z;
  meta_requestId : string
}.

Record APIResponse (A : Type) : Type := mkAPIResponse {
  api_success : bool;
  api_data : option A;
  api_error : option ApiError;
  api_meta : ApiMeta
}.
Arguments mkAPIResponse {A} api_success api_data api_error api_meta.
Arguments api_success {A} a.
Arguments api_data {A} a.
Arguments api_error {A} a.
Arguments api_meta {A} a.

(** What is handed to [reply.code(statusCode).send(response)]: the status
    and the response object, before the route's schema writes it. *)
Record Reply (A : Type) : Type := mkReply {
  reply_code : Z;
  reply_body : APIResponse A
}.
Arguments mkReply {A} reply_code reply_body.
Arguments reply_code {A} r.
Arguments reply_body {A} r.

(** The request id and the clock at the time of the reply. *)
Record ReplyContext : Type := mkReplyContext {
  request_id : string;
  replied_at : Z
}.

Definition successResponse {A : Type} (reply : ReplyContext) (data : A)
    (statusCode : Z) : Reply A :=
  let response :=
    {| api_success := true;
       api_data := Some data;
       api_error := None;
       api_meta := {| meta_timestamp := replied_at reply;
                      meta_requestId := request_id reply |} |} in
  {| reply_code := statusCode; reply_body := response |}.

Definition errorResponse {A : Type} (reply : ReplyContext) (code message : string)
    (statusCode : Z) (details : option string) : Reply A :=
  let response :=
    {| api_success := false;
       api_data := None;
       api_error := Some {| err_code := code;
                            err_message := message;
                            err_details := details |};
       api_meta := {| meta_timestamp := replied_at reply;
                      meta_requestId := request_id reply |} |} in
  {| reply_code := statusCode; reply_body := response |}.

(** [ErrorCodes] *)
Definition INVALID_REQUEST : string := "INVALID_REQUEST".
Definition PAYMENT_FAILED : string := "PAYMENT_FAILED".
Definition INVALID_WALLET : string := "INVALID_WALLET".
Definition INVALID_SIGNATURE : string := "INVALID_SIGNATURE".

(** ** routes/payment.ts *)

(** [PaymentRequirements] and [Permit] as JSON. *)
Definition requirements_arg (r : PaymentRequirements) : Value :=
  VObject [("network", VString (req_network r));
           ("token", VString (req_token r));
           ("recipient", VString (req_recipient r));
           ("amount", VString (req_amount r));
           ("nonce", VString (req_nonce r));
           ("deadline", VNumber (Integer (req_deadline r)))].

Definition permit_arg (p : Permit) : Value :=
  VObject [("owner", VString (permit_owner p));
           ("spender", VString (permit_spender p));
           ("value", VString (permit_value p));
           ("deadline", VNumber (Integer (permit_deadline p)));
           ("nonce", VString (permit_nonce p));
           ("sig", VString (permit_sig p))].

(** What the client receives.  A reply with a status for which the route
    declares no response schema is the object handed to [reply.send],
    written as JSON; a reply with status 200 is written by the route's
    schema for 200, which keeps the declared properties only: an object
    declared without properties is written as an empty object. *)
Inductive Sent : Type :=
| AsHanded
| Serialized (body : Value).

(** The 200 schema of [/payment/start]: [success], and [data] with the
    six fields of the requirements. *)
Definition start_sent (requirements : PaymentRequirements) : Sent :=
  Serialized (VObject [("success", VBool true);
                       ("data", requirements_arg requirements)]).

(** The 200 schema of [/payment/settle]: [success], and [data] with
    [dataset] and [entitlement], both declared [{ type: 'object' }]. *)
Definition settle_sent : Sent :=
  Serialized (VObject [("success", VBool true);
                       ("data", VObject [("dataset", VObject []);
                                         ("entitlement", VObject [])])]).

(** The 200 schema of [/payment/status]: [success], and [data] declared
    [{ type: 'object' }]. *)
Definition status_sent : Sent :=
  Serialized (VObject [("success", VBool true); ("data", VObject [])]).

(** The request body of [/payment/settle] after the route's schema:
    [walletAddress] a string, [requirements] and [permit] objects with
    whatever they hold, [dev_bypass] a string if present. *)
Record SettlePaymentRequest : Type := mkSettlePaymentRequest {
  body_walletAddress : string;
  body_requirements : Value;
  body_permit : Value;
  body_dev_bypass : option string
}.

Record SettledDataset : Type := mkSettledDataset {
  out_items : list string;
  out_next_available_at : Z
}.

Record SettledEntitlement : Type := mkSettledEntitlement {
  out_id : string;
  out_tx_hash : string;
  out_valid_until : Z;
  out_created_at : Z
}.

Record SettleReplyData : Type := mkSettleReplyData {
  out_dataset : SettledDataset;
  out_entitlement : SettledEntitlement
}.

(** An object of the body read as the record [settlePayment] declares
    for it: every field present and of the declared type. *)
Definition as_requirements (v : Value) : option PaymentRequirements :=
  match property v "network", property v "token", property v "recipient",
        property v "amount", property v "nonce", property v "deadline" with
  | Returned (VString network), Returned (VString token), Returned (VString recipient),
    Returned (VString amount), Returned (VString nonce),
    Returned (VNumber (Integer deadline)) =>
      Some {| req_network := network; req_token := token; req_recipient := recipient;
              req_amount := amount; req_nonce := nonce; req_deadline := deadline |}
  | _, _, _, _, _, _ => None
  end.

Definition as_permit (v : Value) : option Permit :=
  match property v "owner", property v "spender", property v "value",
        property v "deadline", property v "nonce", property v "sig" with
  | Returned (VString owner), Returned (VString spender), Returned (VString value),
    Returned (VNumber (Integer deadline)), Returned (VString nonce),
    Returned (VString sig) =>
      Some {| permit_owner := owner; permit_spender := spender; permit_value := value;
              permit_deadline := deadline; permit_nonce := nonce; permit_sig := sig |}
  | _, _, _, _, _, _ => None
  end.

(** The clock as the handler reads it: in [validatePermit]
    ([Date.now()], milliseconds) and in [getLatestSharedDataset]. *)
Record RouteClock : Type := mkRouteClock {
  validated_at_ms : Z;
  dataset_read_at : Z
}.

(** What one request does: the reply handed to [reply.send] and what
    the client receives of it, the calls and waits it caused, the error
    handed to [fastify.log.error] if any, and the database after it. *)
Record Handled (A DB : Type) : Type := mkHandled {
  handled_reply : Reply A;
  handled_wire : Sent;
  handled_events : list Event;
  handled_logged : option string;
  handled_db : DB
}.
Arguments mkHandled {A DB} handled_reply handled_wire handled_events handled_logged
  handled_db.
Arguments handled_reply {A DB} h.
Arguments handled_wire {A DB} h.
Arguments handled_events {A DB} h.
Arguments handled_logged {A DB} h.
Arguments handled_db {A DB} h.

(** *** [POST /payment/settle] *)

Section SettleRoute.

Variable read_numeral : string -> Number.
Variable Lib : Type.
Variable isAddress : Value -> Checked Lib bool.
Variable cfg : Config.
Variable facilitator : Facilitator.

(** The handler passes the objects of the body to [settlePayment] as
    they are.  When they are not of the types [settlePayment] declares,
    what it does with them is left open here: some calls and waits, and
    the transaction reference and the response it returns, or the error
    it throws.  Both of its [return] statements write [success: true]. *)
Variable settle_untyped :
  Value -> Value -> option string -> Eff (string * JsArg SettleData).

Variable DB : Type.
Variable supabase : SupabaseClient DB.

Definition settle_with (requirements permit : Value) (devBypass : option string)
  : Eff SettleReturn :=
  match as_requirements requirements, as_permit permit with
  | Some typed_requirements, Some typed_permit =>
      settlePayment cfg facilitator typed_requirements typed_permit devBypass
  | _, _ =>
      let '(trace, returned) := settle_untyped requirements permit devBypass in
      (trace,
       match returned with
       | Returned (hash, response) =>
           Returned {| success := true; txHash := hash;
                       facilitatorResponse := response |}
       | Thrown message => Thrown message
       end)
  end.

(** The [catch] block of the handler. *)
Definition settle_route_catch (reply : ReplyContext) (trace : list Event)
    (message : string) (db : DB) : Handled SettleReplyData DB :=
  {| handled_reply :=
       errorResponse reply PAYMENT_FAILED "Failed to settle payment" 400 (Some message);
     handled_wire := AsHanded;
     handled_events := trace;
     handled_logged := Some message;
     handled_db := db |}.

Definition settle_route_refuse (reply : ReplyContext) (code message : string)
    (trace : list Event) (db : DB) : Handled SettleReplyData DB :=
  {| handled_reply := errorResponse reply code message 400 None;
     handled_wire := AsHanded;
     handled_events := trace;
     handled_logged := None;
     handled_db := db |}.

Definition settle_route (clock : RouteClock) (reply : ReplyContext)
    (body : SettlePaymentRequest) (lib : Lib) (db : DB)
  : Handled SettleReplyData DB :=
  let walletAddress := body_walletAddress body in
  let requirements := body_requirements body in
  let permit := body_permit body in
  let dev_bypass := body_dev_bypass body in
  (* Validate inputs *)
  match validateWalletAddress isAddress (VString walletAddress) lib with
  | (Thrown message, _) => settle_route_catch reply [] message db
  | (Returned false, _) =>
      settle_route_refuse reply INVALID_WALLET "Invalid wallet address format" [] db
  | (Returned true, lib1) =>
      match validateRequirements isAddress requirements lib1 with
      | (Thrown message, _) => settle_route_catch reply [] message db
      | (Returned false, _) =>
          settle_route_refuse reply INVALID_REQUEST "Invalid payment requirements" [] db
      | (Returned true, lib2) =>
          match validatePermit read_numeral isAddress (validated_at_ms clock)
                  permit lib2 with
          | (Thrown message, _) => settle_route_catch reply [] message db
          | (Returned false, _) =>
              settle_route_refuse reply INVALID_SIGNATURE "Invalid permit signature"
                [] db
          | (Returned true, _) =>
              (* Settle payment with facilitator *)
              let '(trace, settlement) := settle_with requirements permit dev_bypass in
              match settlement with
              | Thrown message => settle_route_catch reply trace message db
              | Returned settlementResult =>
                  if negb (success settlementResult)
                  then settle_route_refuse reply PAYMENT_FAILED
                         "Payment settlement failed" trace db
                  else
                    (* Grant access to shared dataset *)
                    match getLatestSharedDataset supabase (dataset_read_at clock) db with
                    | Thrown message => settle_route_catch reply trace message db
                    | Returned sharedDataset =>
                        let '(granted, db') :=
                          grantDatasetAccess supabase walletAddress
                            (ds_id sharedDataset) (txHash settlementResult)
                            (facilitatorResponse settlementResult) db in
                        match granted with
                        | Thrown message => settle_route_catch reply trace message db'
                        | Returned entitlement =>
                            {| handled_reply :=
                                 successResponse reply
                                   {| out_dataset :=
                                        {| out_items := ds_items sharedDataset;
                                           out_next_available_at :=
                                             ds_expires_at sharedDataset |};
                                      out_entitlement :=
                                        {| out_id := ent_id entitlement;
                                           out_tx_hash := ent_tx_hash entitlement;
                                           out_valid_until := ent_valid_until entitlement;
                                           out_created_at := ent_created_at entitlement |} |}
                                   200;
                               handled_wire := settle_sent;
                               handled_events := trace;
                               handled_logged := None;
                               handled_db := db' |}
                        end
                    end
              end
          end
      end
  end.

End SettleRoute.
Arguments settle_route_catch {DB} reply trace message db.
Arguments settle_route_refuse {DB} reply code message trace db.
Arguments settle_route read_numeral {Lib} isAddress cfg facilitator settle_untyped
  {DB} supabase clock reply body lib db.

(** *** [POST /payment/start] and [GET /payment/status]

    The handlers proper; the JSON schema of each route has let the
    request through, so that [walletAddress] is a string. *)

Definition INTERNAL_ERROR : string := "INTERNAL_ERROR".

Section PaymentRoutes.

Variable Lib : Type.
Variable isAddress : Value -> Checked Lib bool.
Variable cfg : Config.

Definition start_route (w : StartWorld) (reply : ReplyContext)
    (walletAddress : string) (dev_bypass : option string) (lib : Lib)
  : Handled PaymentRequirements unit :=
  match validateWalletAddress isAddress (VString walletAddress) lib with
  | (Thrown message, _) =>
      {| handled_reply :=
           errorResponse reply PAYMENT_FAILED "Failed to start payment flow" 400
             (Some message);
         handled_wire := AsHanded;
         handled_events := [];
         handled_logged := Some message;
         handled_db := tt |}
  | (Returned false, _) =>
      {| handled_reply :=
           errorResponse reply INVALID_WALLET "Invalid wallet address format" 400 None;
         handled_wire := AsHanded;
         handled_events := [];
         handled_logged := None;
         handled_db := tt |}
  | (Returned true, _) =>
      let devBypass := dev_bypass in
      let '(trace, started) := startPayment cfg w walletAddress devBypass in
      match started with
      | Returned requirements =>
          {| handled_reply := successResponse reply requirements 200;
             handled_wire := start_sent requirements;
             handled_events := trace;
             handled_logged := None;
             handled_db := tt |}
      | Thrown message =>
          {| handled_reply :=
               errorResponse reply PAYMENT_FAILED "Failed to start payment flow" 400
                 (Some message);
             handled_wire := AsHanded;
             handled_events := trace;
             handled_logged := Some message;
             handled_db := tt |}
      end
  end.

Definition status_route {DB : Type} (latest_entitlement : EntitlementQuery DB)
    (reply : ReplyContext) (walletAddress : string) (now : Z) (lib : Lib) (db : DB)
  : Handled PaymentStatus DB :=
  match validateWalletAddress isAddress (VString walletAddress) lib with
  | (Thrown message, _) =>
      {| handled_reply :=
           errorResponse reply INTERNAL_ERROR "Failed to fetch payment status" 500
             (Some message);
         handled_wire := AsHanded;
         handled_events := [];
         handled_logged := Some message;
         handled_db := db |}
  | (Returned false, _) =>
      {| handled_reply :=
           errorResponse reply INVALID_WALLET "Invalid wallet address format" 400 None;
         handled_wire := AsHanded;
         handled_events := [];
         handled_logged := None;
         handled_db := db |}
  | (Returned true, _) =>
      match getPaymentStatus latest_entitlement walletAddress now db with
      | Returned status =>
          {| handled_reply := successResponse reply status 200;
             handled_wire := status_sent;
             handled_events := [];
             handled_logged := None;
             handled_db := db |}
      | Thrown message =>
          {| handled_reply :=
               errorResponse reply INTERNAL_ERROR "Failed to fetch payment status" 500
                 (Some message);
             handled_wire := AsHanded;
             handled_events := [];
             handled_logged := Some message;
             handled_db := db |}
      end
  end.

End PaymentRoutes.
Arguments start_route {Lib} isAddress cfg w reply walletAddress dev_bypass lib.
Arguments status_route {Lib} isAddress {DB} latest_entitlement reply walletAddress
  now lib db.

(** ** config.ts: [CONFIG] and [validateConfig] *)

(** [process.env] *)
Definition Env : Type := string -> option string.

(** The entries of [CONFIG] that [validateConfig] and the payment service
    read: [process.env.KEY || default]. *)
Record AppConfig : Type := mkAppConfig {
  app_payment : Config;
  SUPABASE_URL : string;
  SUPABASE_SERVICE_ROLE_KEY : string
}.

Definition CONFIG (env : Env) : AppConfig :=
  {| app_payment :=
       {| NODE_ENV := or_else (env "NODE_ENV") "development";
          FACILITATOR_API_URL := or_else (env "FACILITATOR_API_URL") "";
          FACILITATOR_API_KEY := or_else (env "FACILITATOR_API_KEY") "";
          MERCHANT_ADDRESS := or_else (env "MERCHANT_ADDRESS") "";
          DEV_BYPASS_SECRET := or_else (env "DEV_BYPASS_SECRET") "" |};
     SUPABASE_URL := or_else (env "SUPABASE_URL") "";
     SUPABASE_SERVICE_ROLE_KEY := or_else (env "SUPABASE_SERVICE_ROLE_KEY") "" |}.

(** [CONFIG[key]] for the keys [validateConfig] looks up. *)
Definition config_index (c : AppConfig) (key : string) : JSVal :=
  if (key =? "SUPABASE_URL")%string then JStr (SUPABASE_URL c)
  else if (key =? "SUPABASE_SERVICE_ROLE_KEY")%string
       then JStr (SUPABASE_SERVICE_ROLE_KEY c)
  else if (key =? "FACILITATOR_API_URL")%string
       then JStr (FACILITATOR_API_URL (app_payment c))
  else if (key =? "FACILITATOR_API_KEY")%string
       then JStr (FACILITATOR_API_KEY (app_payment c))
  else if (key =? "MERCHANT_ADDRESS")%string
       then JStr (MERCHANT_ADDRESS (app_payment c))
  else JUndefined.

(** [validateConfig()]: the lines written with [console.warn], and
    whether it throws. *)
Definition validateConfig (c : AppConfig) : list string * Outcome unit :=
  let required := ["SUPABASE_URL"; "SUPABASE_SERVICE_ROLE_KEY"] in
  let missing := filter (fun key => negb (truthy (config_index c key))) required in
  if (0 <? List.length missing)%nat
  then ([], Thrown ("Missing required environment variables: "
                    ++ String.concat ", " missing))
  else
    (* Warn about payment config in production *)
    if (NODE_ENV (app_payment c) =? "production")%string
    then
      let paymentRequired :=
        ["FACILITATOR_API_URL"; "FACILITATOR_API_KEY"; "MERCHANT_ADDRESS"] in
      let missingPayment :=
        filter (fun key => negb (truthy (config_index c key))) paymentRequired in
      if (0 <? List.length missingPayment)%nat
      then (["Warning: Missing payment configuration: "
             ++ String.concat ", " missingPayment],
            Returned tt)
      else ([], Returned tt)
    else ([], Returned tt).

(* ===================================================================== *)
(** * Part II: the specification's vocabulary, and scenarios              *)
(* ===================================================================== *)

(** ** What the specification's words mean on the embedding *)

(** A string of hexadecimal characters. *)
Definition all_hex (h : string) : Prop :=
  Forall (fun c => In c (list_ascii_of_string "0123456789abcdefABCDEF"))
         (list_ascii_of_string h).

(** [0x] followed by exactly [n] hexadecimal characters. *)
Definition is_0x_hex (n : nat) (s : string) : Prop :=
  exists h, s = "0x" ++ h /\ String.length h = n /\ all_hex h.

(** The field [name] of a value as the caller sent it: [undefined] when
    there is none. *)
Definition field_value (v : Value) (name : string) : Value :=
  match property v name with
  | Returned x => x
  | Thrown _ => VUndefined
  end.

(** [s] is the current Unix time, in whole seconds, when the clock
    reads [now_ms] milliseconds. *)
Definition unix_time_at (now_ms s : Z) : Prop :=
  1000 * s <= now_ms < 1000 * (s + 1).

(** What a computation that calls into the library answers. *)
Definition answer {Lib A : Type} (run : Outcome A * Lib) : Outcome A := fst run.

(** The development bypass is asked for and allowed: the environment is
    not production and the caller's token is present, not empty, and equal
    to the configured secret. *)
Definition bypass_guard (cfg : Config) (devBypass : option string) : Prop :=
  NODE_ENV cfg <> "production"
  /\ exists token, devBypass = Some token /\ token <> "" /\ token = DEV_BYPASS_SECRET cfg.

(** The branch was taken: its line is on the console. *)
Definition start_bypassed (t : list Event) : Prop :=
  In (ELog "Using dev bypass mode") t.

Definition settle_bypassed (t : list Event) : Prop :=
  In (ELog "Using dev bypass mode for settlement") t.

(** The live path of [startPayment] / [settlePayment] is open. *)
Definition quote_configured (cfg : Config) : Prop :=
  FACILITATOR_API_URL cfg <> "" /\ MERCHANT_ADDRESS cfg <> "".

Definition settle_configured (cfg : Config) : Prop :=
  FACILITATOR_API_URL cfg <> "" /\ FACILITATOR_API_KEY cfg <> "".

(** Reading a trace. *)
Definition is_settle_call (e : Event) : bool :=
  match e with ESettle _ _ _ => true | _ => false end.

Definition is_log (e : Event) : bool :=
  match e with ELog _ => true | _ => false end.

(** Number of calls made to the facilitator's settle endpoint. *)
Definition settle_calls (t : list Event) : nat :=
  List.length (filter is_settle_call t).

(** The delays waited, in order. *)
Definition sleeps (t : list Event) : list Z :=
  flat_map (fun e => match e with ESleep ms => [ms] | _ => [] end) t.

(** The trace without console output. *)
Definition without_logs (t : list Event) : list Event :=
  filter (fun e => negb (is_log e)) t.

(** The [POST /settle] that [settlePayment] issues. *)
Definition settle_call (cfg : Config) (request : SettleRequest) : Event :=
  ESettle (FACILITATOR_API_URL cfg ++ "/settle") (FACILITATOR_API_KEY cfg) request.

(** The transaction reference of a parsed settlement body: the first
    populated field among [txHash], [transactionHash] and
    [meta.incomingTxHash], or ["unknown"]. *)
Definition tx_reference (data : JsArg SettleData) : string :=
  match data with
  | ArgObject d =>
      or_else (data_txHash d)
        (or_else (data_transactionHash d)
           (or_else (match data_meta d with
                     | Some m => incomingTxHash m
                     | None => None
                     end)
                    "unknown"))
  | _ => "unknown"
  end.

(** What an answer makes [settlePayment] return, when it does: a success
    status, a body that parses, and fields that can be read. *)
Definition settles (a : FetchOutcome SettleData) : option SettleReturn :=
  match a with
  | Responds response =>
      if ok response then
        match json response with
        | Returned data =>
            match extract_txHash data with
            | Returned hash =>
                Some {| success := true; txHash := hash; facilitatorResponse := data |}
            | Thrown _ => None
            end
        | Thrown _ => None
        end
      else None
  | Rejects _ => None
  end.

Definition succeeds (a : FetchOutcome SettleData) : bool :=
  match settles a with
  | Some _ => true
  | None => false
  end.

(** An answer on which a settlement cannot end well: the call was
    rejected, or the status is not a success status, or the body of a
    success response does not parse, or parses to [null]. *)
Definition no_settlement (a : FetchOutcome SettleData) : Prop :=
  match a with
  | Rejects _ => True
  | Responds response =>
      ok response = false
      \/ (exists message, json response = Thrown message)
      \/ json response = Returned ArgNull
      \/ json response = Returned ArgUndefined
  end.

(** A non-success answer classified as not retryable: status below 500,
    and a body that mentions neither a nonce conflict nor a database or
    internal error. *)
Definition terminal_answer (a : FetchOutcome SettleData) : Prop :=
  exists response body,
    a = Responds response
    /\ ok response = false
    /\ status response < 500
    /\ text response = Returned body
    /\ includes body "nonce uniqueness" = false
    /\ includes body "checking nonce" = false
    /\ includes body "database" = false
    /\ includes body "Internal error" = false.




(** [calls] calls starting with attempt number [attempt], each but the
    last followed by that attempt's backoff delay. *)
Fixpoint schedule (call : Event) (attempt calls : nat) : list Event :=
  match calls with
  | O => []
  | S rest =>
      call :: match rest with
              | O => []
              | S _ => ESleep (retryDelay attempt) :: schedule call (S attempt) rest
              end
  end.

(** How many of the [remaining] attempts, from [attempt] on, are made:
    up to and including the first success answer. *)
Fixpoint calls_needed (answers : nat -> FetchOutcome SettleData)
    (remaining attempt : nat) : nat :=
  match remaining with
  | O => O
  | S rest =>
      if succeeds (answers attempt) then 1%nat
      else S (calls_needed answers rest (S attempt))
  end.

(** An event of the live settlement path: the call, a sleep, or the
    retry line. *)
Definition live_event (cfg : Config) (request : SettleRequest) (e : Event) : Prop :=
  e = settle_call cfg request
  \/ (exists ms, e = ESleep ms)
  \/ (exists line, e = ELog ("Retryable error, waiting " ++ line)).

(** The request body [request'] in place of whatever was sent. *)
Definition rebody (request' : SettleRequest) (e : Event) : Event :=
  match e with
  | ESettle url key _ => ESettle url key request'
  | _ => e
  end.

(** The quote request of the live path. *)
Definition quote_request (cfg : Config) : QuoteRequest :=
  {| qr_amount := Z_to_string totalAmount;
     qr_memo := "EdgeFinder scan";
     qr_network := "arbitrum";
     qr_token := "USDC";
     qr_extra_merchantAddress := MERCHANT_ADDRESS cfg |}.

(** Newest first. *)
Definition newer_or_same (a b : SharedDataset) : Prop :=
  ds_created_at b <= ds_created_at a.

(** ** Scenarios *)

Definition example_cfg : Config :=
  {| NODE_ENV := "production";
     FACILITATOR_API_URL := "https://facilitator.example";
     FACILITATOR_API_KEY := "api-key";
     MERCHANT_ADDRESS := "0xcccccccccccccccccccccccccccccccccccccccc";
     DEV_BYPASS_SECRET := "let-me-in" |}.

Definition example_requirements : PaymentRequirements :=
  {| req_network := "arbitrum";
     req_token := USDC_ADDRESS;
     req_recipient := "0xcccccccccccccccccccccccccccccccccccccccc";
     req_amount := "1004500";
     req_nonce := "0xabababababababababababababababababababababababababababababababab";
     req_deadline := 1700003600 |}.

Definition example_permit : Permit :=
  {| permit_owner := "0xaaaaaaaaaaaaaaaaaaaaaaaaaaaaaaaaaaaaaaaa";
     permit_spender := "0xbbbbbbbbbbbbbbbbbbbbbbbbbbbbbbbbbbbbbbbb";
     permit_value := "1004500";
     permit_deadline := 1700003600;
     permit_nonce := "0xabababababababababababababababababababababababababababababababab";
     permit_sig := "0x1a1a1a1a1a1a1a1a1a1a1a1a1a1a1a1a1a1a1a1a1a1a1a1a1a1a1a1a1a1a1a1a2b2b2b2b2b2b2b2b2b2b2b2b2b2b2b2b2b2b2b2b2b2b2b2b2b2b2b2b2b2b2b2b1c" |}.

(** Bodies: an error page that is not JSON, and a settlement receipt. *)
Definition error_body (body : string) (code : Z) : HttpResponse SettleData :=
  mkHttpResponse code (Returned body) (Thrown "Unexpected token in JSON").

Definition settled_data : JsArg SettleData :=
  ArgObject {| data_txHash := Some "0xfeed";
               data_transactionHash := None;
               data_meta := None |}.

Definition receipt : HttpResponse SettleData :=
  mkHttpResponse 200 (Returned "receipt") (Returned settled_data).

(** HTTP 200 with an empty body: reading it as JSON throws. *)
Definition empty_200 : HttpResponse SettleData :=
  mkHttpResponse 200 (Returned "") (Thrown "Unexpected end of JSON input").

(** HTTP 503 on attempts 1 to 3, HTTP 200 on attempt 4. *)
Definition flaky_facilitator : Facilitator :=
  fun _ attempt =>
    if (attempt <=? 3)%nat
    then Responds (error_body "Service Unavailable" 503)
    else Responds receipt.

(** HTTP 503 on attempts 1 to 3, HTTP 200 with an empty body on
    attempt 4. *)
Definition flaky_then_empty_facilitator : Facilitator :=
  fun _ attempt =>
    if (attempt <=? 3)%nat
    then Responds (error_body "Service Unavailable" 503)
    else Responds empty_200.

(** HTTP 400 with a body that names no retryable condition, always. *)
Definition refusing_facilitator : Facilitator :=
  fun _ _ => Responds (error_body "insufficient funds" 400).

(** A facilitator that quotes (HTTP 402, the usual answer) one offer on
    Arbitrum which names a nonce and no deadline, at a known time. *)
Definition quoting_world : StartWorld :=
  {| now_ms := 1700000000000;
     random_byte := fun _ => 0%N;
     quote := fun _ =>
       Responds (mkHttpResponse 402 (Returned "quote") (Returned (ArgObject
         {| accepts :=
              Some [{| acc_network := "arbitrum";
                       acc_asset := USDC_ADDRESS;
                       acc_payTo := "0xcccccccccccccccccccccccccccccccccccccccc";
                       acc_maxAmountRequired := "1004500";
                       acc_extra := Some {| extra_nonce := Some "0xabababababababababababababababababababababababababababababababab";
                                            extra_deadline := None |} |}] |}))) |}.

Definition example_wallet : string := "0xaaaaaaaaaaaaaaaaaaaaaaaaaaaaaaaaaaaaaaaa".

(** The address check of the viem library, as far as the scenarios go.
    [isAddress] looks the string form of its argument up in a cache of
    earlier answers; on a miss it tests the string form against
    [/^0x[a-fA-F0-9]{40}$/] and then calls [toLowerCase] on the argument
    itself, which only a string has.  The checksum of a mixed-case address
    is taken to hold.  The state is the list of string forms answered
    so far. *)
Definition Cache : Type := list string.

Fixpoint address_text (v : Value) : option string :=
  match v with
  | VString s => Some s
  | VArray [x] => address_text x
  | _ => None
  end.

Definition address_check (address : Value) : Checked Cache bool :=
  fun cache =>
    if unconvertible address
    then (Thrown "TypeError: Cannot convert object to primitive value", cache)
    else
      match address_text address with
      | None => (Returned false, cache)
      | Some text =>
          if existsb (String.eqb text) cache
          then (Returned (test_0x_hex 40 text), cache)
          else if negb (test_0x_hex 40 text) then (Returned false, text :: cache)
          else
            match address with
            | VString _ => (Returned true, text :: cache)
            | _ => (Thrown "TypeError: address.toLowerCase is not a function", cache)
            end
      end.

(** A reading of numerals for the scenarios: a string of decimal digits
    reads as the integer it writes, anything else as [NaN]. *)
Fixpoint decimal_digits (s : string) (acc : Z) : option Z :=
  match s with
  | EmptyString => Some acc
  | String c rest =>
      if in_range 48 57 c
      then decimal_digits rest (10 * acc + (Z.of_N (ascii_code c) - 48))
      else None
  end.

Definition decimal_numeral (s : string) : Number :=
  match decimal_digits s 0 with
  | Some z => Integer z
  | None => NaN
  end.

(** A value with one of its fields replaced. *)
Fixpoint set_field (fields : list (string * Value)) (name : string) (x : Value)
  : list (string * Value) :=
  match fields with
  | [] => [(name, x)]
  | (key, v) :: rest =>
      if (key =? name)%string then (key, x) :: rest
      else (key, v) :: set_field rest name x
  end.

Definition with_field (v : Value) (name : string) (x : Value) : Value :=
  match v with
  | VObject fields => VObject (set_field fields name x)
  | _ => v
  end.

(** The example permit with another signature, deadline or value. *)
Definition with_sig (sig : string) (p : Permit) : Permit :=
  {| permit_owner := permit_owner p; permit_spender := permit_spender p;
     permit_value := permit_value p; permit_deadline := permit_deadline p;
     permit_nonce := permit_nonce p; permit_sig := sig |}.

Definition with_deadline (deadline : Z) (p : Permit) : Permit :=
  {| permit_owner := permit_owner p; permit_spender := permit_spender p;
     permit_value := permit_value p; permit_deadline := deadline;
     permit_nonce := permit_nonce p; permit_sig := permit_sig p |}.

Definition with_value (value : string) (p : Permit) : Permit :=
  {| permit_owner := permit_owner p; permit_spender := permit_spender p;
     permit_value := value; permit_deadline := permit_deadline p;
     permit_nonce := permit_nonce p; permit_sig := permit_sig p |}.

(** A facilitator that settles at the first call. *)
Definition settling_facilitator : Facilitator :=
  fun _ _ => Responds receipt.

(** ** Further vocabulary and scenarios *)

(** A request to the facilitator, of either kind. *)
Definition is_facilitator_call (e : Event) : bool :=
  match e with
  | EQuote _ _ | ESettle _ _ _ => true
  | _ => false
  end.

Definition facilitator_calls (t : list Event) : nat :=
  List.length (filter is_facilitator_call t).

(** What an answer that does not settle leaves as the error of its
    attempt: the rejection, the error page behind the words of the
    [try] block, or the error of reading the body. *)
Definition failure_detail (a : FetchOutcome SettleData) : string :=
  match a with
  | Rejects message => message
  | Responds response =>
      if ok response then
        match json response with
        | Thrown message => message
        | Returned data =>
            match extract_txHash data with
            | Thrown message => message
            | Returned _ => EmptyString
            end
        end
      else
        match text response with
        | Returned body => "Payment settlement failed: " ++ body
        | Thrown message => message
        end
  end.

(** The first offer of a quote names no usable nonce. *)
Definition nonceless (offer : AcceptsItem) : Prop :=
  acc_extra offer = None
  \/ exists extra,
       acc_extra offer = Some extra
       /\ (extra_nonce extra = None \/ extra_nonce extra = Some EmptyString).

(** A world at time [now] whose facilitator answers the quote request
    with status [code] and the offers [offers]. *)
Definition offering_world (now code : Z) (offers : list AcceptsItem) : StartWorld :=
  {| now_ms := now;
     random_byte := fun i => N.of_nat i;
     quote := fun _ =>
       Responds (mkHttpResponse code (Returned "quote")
                   (Returned (ArgObject {| accepts := Some offers |}))) |}.

Definition arbitrum_offer : AcceptsItem :=
  {| acc_network := "arbitrum";
     acc_asset := USDC_ADDRESS;
     acc_payTo := "0xcccccccccccccccccccccccccccccccccccccccc";
     acc_maxAmountRequired := "1004500";
     acc_extra := Some {| extra_nonce := Some "0xabababababababababababababababababababababababababababababababab";
                          extra_deadline := Some 1700003600 |} |}.

Definition base_offer : AcceptsItem :=
  {| acc_network := "base";
     acc_asset := "0x833589fCD6eDb6E08f4c7C32D4f71b54bdA02913";
     acc_payTo := "0xcccccccccccccccccccccccccccccccccccccccc";
     acc_maxAmountRequired := "1004500";
     acc_extra := None |}.

Definition nonceless_offer : AcceptsItem :=
  {| acc_network := "arbitrum";
     acc_asset := USDC_ADDRESS;
     acc_payTo := "0xcccccccccccccccccccccccccccccccccccccccc";
     acc_maxAmountRequired := "1004500";
     acc_extra := None |}.


(** The three checks at the head of the settle handler, made one after
    the other from the library state [lib], all answer [true]. *)
Definition body_accepted (read_numeral : string -> Number) {Lib : Type}
    (isAddress : Value -> Checked Lib bool) (clock : RouteClock)
    (body : SettlePaymentRequest) (lib : Lib) : Prop :=
  exists lib1 lib2 lib3,
    isAddress (VString (body_walletAddress body)) lib = (Returned true, lib1)
    /\ validateRequirements isAddress (body_requirements body) lib1
       = (Returned true, lib2)
    /\ validatePermit read_numeral isAddress (validated_at_ms clock)
         (body_permit body) lib2
       = (Returned true, lib3).

(** In the scenarios no body falls outside the declared types. *)
Definition no_untyped_settlement
  : Value -> Value -> option string -> Eff (string * JsArg SettleData) :=
  fun _ _ _ => ([], Thrown "TypeError").

(** The error of a reply, read field by field. *)
Definition replied_error {A : Type} (r : Reply A) (statusCode : Z)
    (code message : string) (details : option string) : Prop :=
  reply_code r = statusCode
  /\ api_success (reply_body r) = false
  /\ api_data (reply_body r) = None
  /\ api_error (reply_body r)
     = Some {| err_code := code; err_message := message; err_details := details |}.

(** The entitlements of a wallet were all written before the database's
    present time. *)
Definition entitlements_older (walletAddress : string) (db : Store) : Prop :=
  forall x, In x (entitlements db) ->
            ent_wallet_address x = walletAddress ->
            ent_created_at x < store_clock db.

(** A store with one dataset, written at 1699999000000 and valid until
    1700003000000, and an entitlement of the example wallet that ran out
    before. *)
Definition example_dataset : SharedDataset :=
  {| ds_id := "ds-1"; ds_items := ["event-1"; "event-2"];
     ds_created_at := 1699999000000; ds_expires_at := 1700003000000 |}.

Definition old_entitlement : Entitlement :=
  {| ent_id := "ent-0";
     ent_wallet_address := example_wallet;
     ent_shared_dataset_id := "ds-0";
     ent_tx_hash := "0xold";
     ent_facilitator_response := ArgNull;
     ent_valid_until := 1699990000000;
     ent_created_at := 1699980000000 |}.

Definition example_store : Store :=
  {| shared_datasets := [example_dataset];
     entitlements := [old_entitlement];
     store_clock := 1700000000600;
     store_serial := 1 |}.

(** A store in which the example wallet holds two entitlements, the
    older one still valid at 1700000000000 and the newer one run out, and
    another wallet holds a newer one still. *)
Definition standing_entitlement : Entitlement :=
  {| ent_id := "ent-1";
     ent_wallet_address := example_wallet;
     ent_shared_dataset_id := "ds-1";
     ent_tx_hash := "0xfirst";
     ent_facilitator_response := ArgNull;
     ent_valid_until := 1700009000000;
     ent_created_at := 1699980000000 |}.

Definition lapsed_entitlement : Entitlement :=
  {| ent_id := "ent-2";
     ent_wallet_address := example_wallet;
     ent_shared_dataset_id := "ds-0";
     ent_tx_hash := "0xsecond";
     ent_facilitator_response := ArgNull;
     ent_valid_until := 1699995000000;
     ent_created_at := 1699990000000 |}.

Definition foreign_entitlement : Entitlement :=
  {| ent_id := "ent-3";
     ent_wallet_address := "0xbbbbbbbbbbbbbbbbbbbbbbbbbbbbbbbbbbbbbbbb";
     ent_shared_dataset_id := "ds-1";
     ent_tx_hash := "0xthird";
     ent_facilitator_response := ArgNull;
     ent_valid_until := 1700009000000;
     ent_created_at := 1699999000000 |}.

Definition renewed_store : Store :=
  {| shared_datasets := [example_dataset];
     entitlements := [standing_entitlement; lapsed_entitlement; foreign_entitlement];
     store_clock := 1700000000600;
     store_serial := 3 |}.



Definition example_body : SettlePaymentRequest :=
  {| body_walletAddress := example_wallet;
     body_requirements := requirements_arg example_requirements;
     body_permit := permit_arg example_permit;
     body_dev_bypass := None |}.

(** The same request with the recipient sent as an array of one
    address. *)
Definition array_recipient_body : SettlePaymentRequest :=
  {| body_walletAddress := example_wallet;
     body_requirements :=
       with_field (requirements_arg example_requirements) "recipient"
         (VArray [VString "0xcccccccccccccccccccccccccccccccccccccccc"]);
     body_permit := permit_arg example_permit;
     body_dev_bypass := None |}.

Definition example_clock : RouteClock :=
  {| validated_at_ms := 1700000000000; dataset_read_at := 1700000000500 |}.


Definition example_reply : ReplyContext :=
  {| request_id := "req-1"; replied_at := 1700000000700 |}.

(** The time a run spends waiting, in milliseconds. *)
Definition total_wait (t : list Event) : Z :=
  fold_right Z.add 0 (sleeps t).

(** An environment in which only a bypass secret is set. *)
Definition secret_only_env : Env :=
  fun key => if (key =? "DEV_BYPASS_SECRET")%string then Some "let-me-in" else None.

(** HTTP 503 at the first attempt, a receipt at the second. *)
Definition recovering_facilitator : Facilitator :=
  fun _ attempt =>
    if (attempt <=? 1)%nat
    then Responds (error_body "Service Unavailable" 503)
    else Responds receipt.

(** HTTP 400 with a body that names no retryable condition at the first
    attempt, a receipt at the second. *)
Definition refusing_once_facilitator : Facilitator :=
  fun _ attempt =>
    if (attempt <=? 1)%nat
    then Responds (error_body "insufficient funds" 400)
    else Responds receipt.

(* ===================================================================== *)
(** * Part III: lemmas and theorems                                       *)
(* ===================================================================== *)

(** ** Lemmas on strings and regular expressions *)

Lemma is_hex_digit_chars (c : ascii) :
  is_hex_digit c = true <->
  In c (list_ascii_of_string "0123456789abcdefABCDEF").
Proof.
  assert (E : is_hex_digit c =
              existsb (Ascii.eqb c) (list_ascii_of_string "0123456789abcdefABCDEF")).
  { destruct c as [[] [] [] [] [] [] [] []]; vm_compute; reflexivity. }
  rewrite E, existsb_exists. split.
  - intros (x & Hin & Heq). apply Ascii.eqb_eq in Heq. now subst.
  - intros Hin. exists c. split; [assumption | apply Ascii.eqb_refl].
Qed.

Lemma hex_run_spec (n : nat) (s : string) :
  hex_run n s = true <-> String.length s = n /\ all_hex s.
Proof.
  revert s. induction n as [| n IH]; intros [| c rest]; simpl.
  - split; [intros _; split; [reflexivity | constructor] | reflexivity].
  - split; [discriminate | intros [H _]; discriminate].
  - split; [discriminate | intros [H _]; discriminate].
  - rewrite andb_true_iff, IH, is_hex_digit_chars. unfold all_hex. simpl. split.
    + intros (Hc & Hlen & Hall). split; [now f_equal | now constructor].
    + intros (Hlen & Hall). inversion Hall; subst. injection Hlen as Hlen. tauto.
Qed.

Lemma test_0x_hex_unfold (n : nat) (s : string) :
  test_0x_hex n s =
  match s with
  | String a (String b rest) => Ascii.eqb a "0" && Ascii.eqb b "x" && hex_run n rest
  | _ => false
  end.
Proof.
  unfold test_0x_hex. destruct s as [| a s']; [reflexivity |].
  destruct (Ascii.eqb_spec a "0") as [-> | Ha].
  - destruct s' as [| b rest]; [reflexivity |].
    destruct (Ascii.eqb_spec b "x") as [-> | Hb]; [reflexivity |].
    destruct b as [[] [] [] [] [] [] [] []]; try reflexivity. now elim Hb.
  - destruct a as [[] [] [] [] [] [] [] []];
      try (destruct s'; reflexivity). now elim Ha.
Qed.

Lemma test_0x_hex_spec (n : nat) (s : string) :
  test_0x_hex n s = true <-> is_0x_hex n s.
Proof.
  rewrite test_0x_hex_unfold. unfold is_0x_hex. split.
  - destruct s as [| a [| b rest]]; try discriminate.
    rewrite !andb_true_iff. intros [[Ha Hb] H].
    apply Ascii.eqb_eq in Ha, Hb. subst. apply hex_run_spec in H.
    exists rest. tauto.
  - intros (h & -> & Hlen & Hall). simpl. apply hex_run_spec. tauto.
Qed.

Lemma test_0x_hex_length (n : nat) (s : string) :
  test_0x_hex n s = true -> String.length s = (n + 2)%nat.
Proof.
  intros H. apply test_0x_hex_spec in H. destruct H as (h & -> & Hlen & _).
  simpl. lia.
Qed.

(** [includes] finds exactly the substrings. *)
Lemma prefix_spec (p s : string) :
  String.prefix p s = true <-> exists rest, s = p ++ rest.
Proof.
  revert p. induction s as [| b s IH]; intros [| a p]; simpl.
  - split; [intros _; now exists "" | reflexivity].
  - split; [discriminate | intros (rest & H); discriminate H].
  - split; [intros _; now exists (String b s) | reflexivity].
  - destruct (ascii_dec a b) as [-> | Hne].
    + rewrite IH. split.
      * intros (rest & ->). now exists rest.
      * intros (rest & [= ->]). now exists rest.
    + split; [discriminate | intros (rest & [= H _]); now elim Hne].
Qed.

Lemma includes_spec (hay needle : string) :
  includes hay needle = true <->
  exists before after, hay = before ++ needle ++ after.
Proof.
  induction hay as [| c hay IH]; cbn [includes].
  - rewrite orb_false_r, prefix_spec. split.
    + intros (rest & H). now exists "", rest.
    + intros (before & after & H). destruct before as [| b before].
      * now exists after.
      * discriminate H.
  - rewrite orb_true_iff, IH, prefix_spec. split.
    + intros [(rest & H) | (before & after & H)].
      * now exists "", rest.
      * exists (String c before), after. simpl. now f_equal.
    + intros (before & after & H). destruct before as [| b before].
      * left. now exists after.
      * right. injection H as _ H. now exists before, after.
Qed.

Lemma truthy_str (s : string) : truthy (JStr s) = true <-> s <> "".
Proof.
  simpl. rewrite negb_true_iff. split.
  - intros H ->. discriminate.
  - intros H. now apply String.eqb_neq.
Qed.

Lemma truthy_num (n : Z) : truthy (JNum n) = true <-> n <> 0.
Proof. simpl. rewrite negb_true_iff. apply Z.eqb_neq. Qed.

(** ** utils/validation.ts *)

Lemma truthy_value_string (s : string) : truthy_value (VString s) = true <-> s <> "".
Proof.
  simpl. rewrite negb_true_iff. split.
  - intros H ->. discriminate.
  - intros H. now apply String.eqb_neq.
Qed.

(** Past the guard of the first line the argument is an array or an
    object, and reading a property of it does not throw. *)
Lemma property_object (v : Value) (name : string) :
  truthy_value v = true ->
  typeof_object_value v = true ->
  property v name = Returned (field_value v name).
Proof. destruct v; try discriminate; reflexivity. Qed.

Lemma require_value_fields_object (v : Value) (fields : list string) :
  truthy_value v = true ->
  typeof_object_value v = true ->
  require_value_fields v fields
  = Returned (if forallb (fun f => truthy_value (field_value v f)) fields
              then None else Some false).
Proof.
  intros Ht Ho. induction fields as [| f rest IH]; [reflexivity |].
  cbn [require_value_fields forallb]. rewrite (property_object v f Ht Ho).
  cbn [obind]. destruct (truthy_value (field_value v f)); [exact IH | reflexivity].
Qed.

Lemma unix_seconds_unique (now_ms s : Z) :
  unix_time_at now_ms s -> unix_seconds now_ms = s.
Proof.
  intros H. unfold unix_time_at in H. unfold unix_seconds. symmetry.
  apply (Z.div_unique now_ms 1000 s (now_ms - 1000 * s)); lia.
Qed.

Section ValidationProperties.

Variable read_numeral : string -> Number.
Variable Lib : Type.
Variable isAddress : Value -> Checked Lib bool.

Lemma validatePermit_not_object (now_ms : Z) (permit : Value) (lib : Lib) :
  truthy_value permit = false \/ typeof_object_value permit = false ->
  validatePermit read_numeral isAddress now_ms permit lib = (Returned false, lib).
Proof.
  intros H. unfold validatePermit.
  destruct H as [-> | ->]; [reflexivity | now rewrite orb_true_r].
Qed.

Lemma validateRequirements_not_object (requirements : Value) (lib : Lib) :
  truthy_value requirements = false \/ typeof_object_value requirements = false ->
  validateRequirements isAddress requirements lib = (Returned false, lib).
Proof.
  intros H. unfold validateRequirements.
  destruct H as [-> | ->]; [reflexivity | now rewrite orb_true_r].
Qed.

(** The checks of [validatePermit] on an object, in their order. *)
Lemma validatePermit_object (now_ms : Z) (permit : Value) (lib : Lib) :
  truthy_value permit = true ->
  typeof_object_value permit = true ->
  validatePermit read_numeral isAddress now_ms permit lib
  = if forallb (fun f => truthy_value (field_value permit f)) permit_requiredFields
    then
      match isAddress (field_value permit "owner") lib with
      | (Returned true, lib1) =>
          match isAddress (field_value permit "spender") lib1 with
          | (Returned true, lib2) =>
              (match test_value 130 (field_value permit "sig") with
               | Returned true =>
                   match test_value 64 (field_value permit "nonce") with
                   | Returned true =>
                       match value_le read_numeral (field_value permit "deadline")
                               (unix_seconds now_ms) with
                       | Returned late => Returned (negb late)
                       | Thrown message => Thrown message
                       end
                   | other => other
                   end
               | other => other
               end, lib2)
          | other => other
          end
      | other => other
      end
    else (Returned false, lib).
Proof.
  intros Ht Ho. unfold validatePermit, and_then, checked, validateWalletAddress.
  rewrite Ht, Ho. cbn [negb orb].
  rewrite (require_value_fields_object permit _ Ht Ho).
  destruct (forallb _ permit_requiredFields); [| reflexivity].
  rewrite !(property_object permit _ Ht Ho).
  destruct (isAddress (field_value permit "owner") lib) as [[[|] | m] lib1];
    try reflexivity.
  cbn [negb].
  destruct (isAddress (field_value permit "spender") lib1) as [[[|] | m] lib2];
    try reflexivity.
  cbn [negb].
  destruct (test_value 130 (field_value permit "sig")) as [[|] | m]; try reflexivity.
  cbn [negb].
  destruct (test_value 64 (field_value permit "nonce")) as [[|] | m]; try reflexivity.
  cbn [negb].
  destruct (value_le read_numeral (field_value permit "deadline") (unix_seconds now_ms))
    as [[|] | m]; reflexivity.
Qed.

(** The checks of [validateRequirements] on an object, in their order. *)
Lemma validateRequirements_object (requirements : Value) (lib : Lib) :
  truthy_value requirements = true ->
  typeof_object_value requirements = true ->
  validateRequirements isAddress requirements lib
  = if forallb (fun f => truthy_value (field_value requirements f))
               requirements_requiredFields
    then
      if match field_value requirements "network" with
         | VString n => (n =? "arbitrum")%string
         | _ => false
         end
      then
        match isAddress (field_value requirements "recipient") lib with
        | (Returned true, lib1) => isAddress (field_value requirements "token") lib1
        | other => other
        end
      else (Returned false, lib)
    else (Returned false, lib).
Proof.
  intros Ht Ho. unfold validateRequirements, and_then, checked, validateWalletAddress.
  rewrite Ht, Ho. cbn [negb orb].
  rewrite (require_value_fields_object requirements _ Ht Ho).
  destruct (forallb _ requirements_requiredFields); [| reflexivity].
  rewrite !(property_object requirements _ Ht Ho).
  destruct (match field_value requirements "network" with
            | VString n => (n =? "arbitrum")%string
            | _ => false
            end); [| reflexivity].
  cbn [negb].
  destruct (isAddress (field_value requirements "recipient") lib) as [[[|] | m] lib1];
    try reflexivity.
  cbn [negb].
  destruct (isAddress (field_value requirements "token") lib1) as [[[|] | m] lib2];
    reflexivity.
Qed.

(** On requirements of the declared type. *)
Lemma validateRequirements_typed (r : PaymentRequirements) (lib : Lib) :
  validateRequirements isAddress (requirements_arg r) lib
  = if negb (req_network r =? "")%string && negb (req_token r =? "")%string
       && negb (req_recipient r =? "")%string && negb (req_amount r =? "")%string
       && negb (req_nonce r =? "")%string && negb (req_deadline r =? 0)
    then
      if (req_network r =? "arbitrum")%string
      then
        match isAddress (VString (req_recipient r)) lib with
        | (Returned true, lib1) => isAddress (VString (req_token r)) lib1
        | other => other
        end
      else (Returned false, lib)
    else (Returned false, lib).
Proof.
  rewrite validateRequirements_object by reflexivity.
  change (forallb (fun f => truthy_value (field_value (requirements_arg r) f))
                  requirements_requiredFields)
    with (negb (req_network r =? "")%string
          && (negb (req_token r =? "")%string
              && (negb (req_recipient r =? "")%string
                  && (negb (req_amount r =? "")%string
                      && (negb (req_nonce r =? "")%string
                          && (negb (req_deadline r =? 0) && true)))))).
  change (field_value (requirements_arg r) "network") with (VString (req_network r)).
  change (field_value (requirements_arg r) "recipient")
    with (VString (req_recipient r)).
  change (field_value (requirements_arg r) "token") with (VString (req_token r)).
  rewrite andb_true_r, !andb_assoc. reflexivity.
Qed.

End ValidationProperties.

(** C5 (the code departs from the specification).  [validatePermit]
    never looks at the type of a field.  Its last test returns [false]
    when [permit.deadline <= now] holds and accepts the permit otherwise:
    a deadline that is no number and does not read as one compares as
    [NaN], the comparison is false, and the permit is accepted, where a
    deadline strictly later than the current time is asked for.  So it is
    with the deadline ['never'], and with an empty object for a deadline,
    every other field being well formed. *)
Theorem validatePermit_accepts_deadline_that_is_no_number :
  (forall (read_numeral : string -> Number) (Lib : Type)
          (isAddress : Value -> Checked Lib bool)
          (now_ms : Z) (permit : Value) (lib lib1 lib2 : Lib),
      truthy_value permit = true ->
      typeof_object_value permit = true ->
      forallb (fun f => truthy_value (field_value permit f)) permit_requiredFields
      = true ->
      isAddress (field_value permit "owner") lib = (Returned true, lib1) ->
      isAddress (field_value permit "spender") lib1 = (Returned true, lib2) ->
      test_value 130 (field_value permit "sig") = Returned true ->
      test_value 64 (field_value permit "nonce") = Returned true ->
      unconvertible (field_value permit "deadline") = false ->
      to_number read_numeral (field_value permit "deadline") = NaN ->
      validatePermit read_numeral isAddress now_ms permit lib = (Returned true, lib2))
  /\ (forall read_numeral : string -> Number,
         answer (validatePermit read_numeral address_check 1700000000000
                   (with_field (permit_arg example_permit) "deadline" (VString "never"))
                   [])
         = Returned true)
  /\ (forall read_numeral : string -> Number,
         answer (validatePermit read_numeral address_check 1700000000000
                   (with_field (permit_arg example_permit) "deadline" (VObject []))
                   [])
         = Returned true).
Proof.
  split; [| split].
  - intros read_numeral Lib isAddress now_ms permit lib lib1 lib2
           Ht Ho Hfields Howner Hspender Hsig Hnonce Hconv Hnan.
    rewrite (validatePermit_object read_numeral Lib isAddress now_ms permit lib Ht Ho).
    rewrite Hfields, Howner, Hspender, Hsig, Hnonce.
    unfold value_le. rewrite Hconv, Hnan. reflexivity.
  - intros read_numeral. reflexivity.
  - intros read_numeral. reflexivity.
Qed.

(** C6 (the code departs from the specification).  [validateRequirements]
    hands [requirements.recipient] and [requirements.token] to the address
    check as they are, with nothing around the call: what the check
    throws, the validator throws.  With the recipient sent as an array of
    one address, the check of the viem library throws a [TypeError], and
    so does the validator, where [false] and no error is asked for; once
    the library has answered for that address as a string, the same
    requirements are accepted. *)
Theorem validateRequirements_raises_with_the_address_check :
  (forall (Lib : Type) (isAddress : Value -> Checked Lib bool)
          (requirements : Value) (lib lib1 : Lib) (message : string),
      truthy_value requirements = true ->
      typeof_object_value requirements = true ->
      forallb (fun f => truthy_value (field_value requirements f))
              requirements_requiredFields = true ->
      field_value requirements "network" = VString "arbitrum" ->
      isAddress (field_value requirements "recipient") lib = (Thrown message, lib1) ->
      validateRequirements isAddress requirements lib = (Thrown message, lib1))
  /\ answer (validateRequirements address_check
               (with_field (requirements_arg example_requirements) "recipient"
                  (VArray [VString "0xcccccccccccccccccccccccccccccccccccccccc"]))
               [])
     = Thrown "TypeError: address.toLowerCase is not a function"
  /\ answer (validateRequirements address_check
               (with_field (requirements_arg example_requirements) "recipient"
                  (VArray [VString "0xcccccccccccccccccccccccccccccccccccccccc"]))
               ["0xcccccccccccccccccccccccccccccccccccccccc"])
     = Returned true.
Proof.
  split; [| split].
  - intros Lib isAddress requirements lib lib1 message Ht Ho Hfields Hnet Hthrows.
    rewrite (validateRequirements_object Lib isAddress requirements lib Ht Ho).
    rewrite Hfields, Hnet, Hthrows. reflexivity.
  - reflexivity.
  - reflexivity.
Qed.

(** ** services/payment.ts: the bypass guard *)

Lemma bypass_condition (cfg : Config) (devBypass : option string) :
  negb (NODE_ENV cfg =? "production")%string
  && truthy (of_str devBypass)
  && match devBypass with
     | Some token => (token =? DEV_BYPASS_SECRET cfg)%string
     | None => false
     end = true
  <-> bypass_guard cfg devBypass.
Proof.
  unfold bypass_guard. rewrite !andb_true_iff, negb_true_iff, String.eqb_neq.
  destruct devBypass as [token |]; cbn [of_str].
  - rewrite truthy_str, String.eqb_eq. split.
    + intros [[H1 H2] H3]. split; [assumption | now exists token].
    + intros [H1 (t & [= <-] & H2 & H3)]. tauto.
  - split.
    + intros [[_ H] _]. discriminate.
    + intros [_ (t & H & _)]. discriminate.
Qed.

Lemma configured_condition (a b : string) :
  negb (truthy (JStr a)) || negb (truthy (JStr b)) = false <-> a <> "" /\ b <> "".
Proof.
  rewrite orb_false_iff, !negb_false_iff, !truthy_str. tauto.
Qed.

Lemma bypass_guard_dec (cfg : Config) (devBypass : option string) :
  {bypass_guard cfg devBypass} + {~ bypass_guard cfg devBypass}.
Proof.
  destruct (negb (NODE_ENV cfg =? "production")%string
            && truthy (of_str devBypass)
            && match devBypass with
               | Some token => (token =? DEV_BYPASS_SECRET cfg)%string
               | None => false
               end) eqn:E.
  - left. now apply bypass_condition.
  - right. intros H. apply bypass_condition in H. congruence.
Qed.

Lemma settle_configured_dec (cfg : Config) :
  {settle_configured cfg} + {~ settle_configured cfg}.
Proof.
  destruct (negb (truthy (JStr (FACILITATOR_API_URL cfg)))
            || negb (truthy (JStr (FACILITATOR_API_KEY cfg)))) eqn:E.
  - right. intros H. apply configured_condition in H. congruence.
  - left. now apply configured_condition.
Qed.

Lemma quote_configured_dec (cfg : Config) :
  {quote_configured cfg} + {~ quote_configured cfg}.
Proof.
  destruct (negb (truthy (JStr (FACILITATOR_API_URL cfg)))
            || negb (truthy (JStr (MERCHANT_ADDRESS cfg)))) eqn:E.
  - right. intros H. apply configured_condition in H. congruence.
  - left. now apply configured_condition.
Qed.

(** ** services/payment.ts: answers that settle *)

Lemma extract_txHash_readable (data : JsArg SettleData) :
  data <> ArgNull ->
  data <> ArgUndefined ->
  extract_txHash data = Returned (tx_reference data).
Proof.
  intros Hnull Hundef. destruct data as [| | t | d]; try congruence.
  - reflexivity.
  - unfold extract_txHash, tx_reference, populated, or_else. cbn [get obind].
    destruct (data_txHash d) as [h |].
    + destruct (truthy (JStr h)); [reflexivity |].
      destruct (data_transactionHash d) as [h' |]; [| reflexivity].
      destruct (truthy (JStr h')); reflexivity.
    + destruct (data_transactionHash d) as [h' |]; [| reflexivity].
      destruct (truthy (JStr h')); reflexivity.
Qed.

Lemma extract_txHash_unreadable (data : JsArg SettleData) :
  data = ArgNull \/ data = ArgUndefined ->
  exists message, extract_txHash data = Thrown message.
Proof. intros [-> | ->]; eexists; reflexivity. Qed.

(** A success status with a body that parses to something other than
    [null] settles. *)
Lemma settles_readable (response : HttpResponse SettleData) (data : JsArg SettleData) :
  ok response = true ->
  json response = Returned data ->
  data <> ArgNull ->
  data <> ArgUndefined ->
  settles (Responds response)
  = Some {| success := true;
            txHash := tx_reference data;
            facilitatorResponse := data |}.
Proof.
  intros Hok Hjson Hnull Hundef. cbn [settles].
  now rewrite Hok, Hjson, (extract_txHash_readable data Hnull Hundef).
Qed.

(** Nothing else does. *)
Lemma no_settlement_settles (a : FetchOutcome SettleData) :
  no_settlement a <-> settles a = None.
Proof.
  destruct a as [message | response]; cbn [no_settlement settles].
  - tauto.
  - destruct (ok response).
    + destruct (json response) as [data | message].
      * destruct data as [| | t | d].
        -- split; [reflexivity | intros _; now do 3 right].
        -- split; [reflexivity | intros _; right; right; now left].
        -- split; [| discriminate].
           intros [H | [(m & H) | [H | H]]]; discriminate H.
        -- rewrite (extract_txHash_readable (ArgObject d)) by discriminate.
           split; [| discriminate].
           intros [H | [(m & H) | [H | H]]]; discriminate H.
      * split; [reflexivity | intros _; right; left; now exists message].
    + split; [reflexivity | intros _; now left].
Qed.

Lemma no_settlement_succeeds (a : FetchOutcome SettleData) :
  no_settlement a -> succeeds a = false.
Proof. intros H. apply no_settlement_settles in H. unfold succeeds. now rewrite H. Qed.


(** ** services/payment.ts: one iteration of the retry loop *)

(** Runs the plumbing of [Eff] and nothing else. *)
Ltac eff_reduce :=
  cbn [bind try_catch emit ret throw log sleep app negb fst snd events result].

Section RetryLoop.

Variable cfg : Config.
Variable request : SettleRequest.
Variable facilitator : Facilitator.

Let call : Event := settle_call cfg request.

(** An answer that settles ends the iteration, and the function, at
    once. *)
Lemma settle_iteration_success (attempt : nat) (lastError : option string)
    (value : SettleReturn) :
  settles (facilitator request attempt) = Some value ->
  settle_iteration cfg request facilitator attempt lastError
  = ([call], Returned (Some value, lastError)).
Proof.
  intros Hs. unfold settle_iteration, settle_try, await_fetch, await.
  destruct (facilitator request attempt) as [message | response];
    cbn [settles] in Hs; [discriminate Hs |].
  eff_reduce. destruct (ok response); [| discriminate Hs].
  destruct (json response) as [data | message]; [| discriminate Hs].
  eff_reduce. destruct (extract_txHash data) as [hash | message];
    [| discriminate Hs].
  injection Hs as <-. reflexivity.
Qed.

(** Any other answer on the last attempt throws out of the loop. *)
Lemma settle_iteration_last (lastError : option string) :
  settles (facilitator request maxRetries) = None ->
  exists message,
    settle_iteration cfg request facilitator maxRetries lastError
    = ([call], Thrown message).
Proof.
  intros Hs. unfold settle_iteration, settle_try, await_fetch, await.
  destruct (facilitator request maxRetries) as [message | response];
    cbn [settles] in Hs; eff_reduce.
  - rewrite (Nat.eqb_refl maxRetries). eff_reduce. eexists. reflexivity.
  - destruct (ok response).
    + destruct (json response) as [data | message]; eff_reduce.
      * destruct (extract_txHash data) as [hash | message];
          [discriminate Hs |].
        eff_reduce. rewrite (Nat.eqb_refl maxRetries). eff_reduce.
        eexists. reflexivity.
      * rewrite (Nat.eqb_refl maxRetries). eff_reduce. eexists. reflexivity.
    + destruct (text response) as [errorText | message]; eff_reduce;
        rewrite ?(Nat.eqb_refl maxRetries), ?orb_true_r; eff_reduce;
        rewrite ?(Nat.eqb_refl maxRetries); eff_reduce;
        eexists; reflexivity.
Qed.

(** Any other answer before the last attempt ends in exactly one sleep
    of [retryDelay attempt], whether the [try] block waited (a
    retryable answer) or the [catch] block did (a rejected call, a body
    that could not be read, or the error the [try] block threw for a
    terminal answer). *)
Lemma settle_iteration_retry (attempt : nat) (lastError : option string) :
  settles (facilitator request attempt) = None ->
  attempt <> maxRetries ->
  exists logs lastError',
    settle_iteration cfg request facilitator attempt lastError
    = ((call :: logs ++ [ESleep (retryDelay attempt)])%list,
       Returned (None, lastError'))
    /\ (logs = [] \/ exists line, logs = [ELog ("Retryable error, waiting " ++ line)]).
Proof.
  intros Hs Hnot. apply Nat.eqb_neq in Hnot.
  unfold settle_iteration, settle_try, await_fetch, await.
  destruct (facilitator request attempt) as [message | response];
    cbn [settles] in Hs; eff_reduce.
  - rewrite Hnot. eff_reduce.
    exists [], (Some message). split; [reflexivity | now left].
  - destruct (ok response).
    + destruct (json response) as [data | message]; eff_reduce.
      * destruct (extract_txHash data) as [hash | message];
          [discriminate Hs |].
        eff_reduce. rewrite Hnot. eff_reduce.
        eexists [], _. split; [reflexivity | now left].
      * rewrite Hnot. eff_reduce. eexists [], _. split; [reflexivity | now left].
    + destruct (text response) as [errorText | message]; eff_reduce.
      * rewrite Hnot, orb_false_r.
        destruct ((500 <=? status response)
                  || (includes errorText "nonce uniqueness"
                      || includes errorText "checking nonce")
                  || (includes errorText "database"
                      || includes errorText "Internal error")); eff_reduce.
        -- eexists [_], lastError. split; [reflexivity |].
           right. eexists. reflexivity.
        -- eexists [], _. split; [reflexivity | now left].
      * rewrite Hnot. eff_reduce. eexists [], _. split; [reflexivity | now left].
Qed.

End RetryLoop.

(** ** services/payment.ts: the retry loop *)

Lemma calls_needed_bounds (answers : nat -> FetchOutcome SettleData)
    (remaining attempt : nat) :
  (1 <= remaining -> 1 <= calls_needed answers remaining attempt <= remaining)%nat.
Proof.
  revert attempt. induction remaining as [| rest IH]; intros attempt H; [lia |].
  simpl. destruct (succeeds (answers attempt)); [lia |].
  destruct rest as [| rest']; [simpl; lia |].
  specialize (IH (S attempt)). lia.
Qed.


(** Without a success answer every remaining attempt is made. *)
Lemma calls_needed_no_success (answers : nat -> FetchOutcome SettleData)
    (remaining attempt n : nat) :
  (n <= remaining)%nat ->
  (forall m, (attempt <= m < attempt + n)%nat -> succeeds (answers m) = false) ->
  (n <= calls_needed answers remaining attempt)%nat.
Proof.
  revert attempt n. induction remaining as [| rest IH]; intros attempt n Hn Hfail;
    [lia |].
  destruct n as [| n']; [lia |].
  simpl. rewrite (Hfail attempt) by lia.
  specialize (IH (S attempt) n'). apply le_n_S, IH; [lia |].
  intros m Hm. apply Hfail. lia.
Qed.

Lemma without_logs_app (t u : list Event) :
  without_logs (t ++ u) = (without_logs t ++ without_logs u)%list.
Proof. apply filter_app. Qed.

Lemma settle_calls_without_logs (t : list Event) :
  settle_calls (without_logs t) = settle_calls t.
Proof.
  unfold settle_calls, without_logs.
  induction t as [| [line | u b | u k b | ms] t IH]; simpl; auto.
Qed.

Lemma sleeps_without_logs (t : list Event) :
  sleeps (without_logs t) = sleeps t.
Proof.
  unfold without_logs.
  induction t as [| [line | u b | u k b | ms] t IH]; simpl; auto. now f_equal.
Qed.

Lemma settle_calls_schedule (cfg : Config) (request : SettleRequest) (attempt k : nat) :
  settle_calls (schedule (settle_call cfg request) attempt k) = k.
Proof.
  revert attempt. induction k as [| k IH]; intros attempt; [reflexivity |].
  destruct k as [| k']; [reflexivity |].
  specialize (IH (S attempt)). unfold settle_calls in *.
  change (S (List.length (filter is_settle_call
                            (schedule (settle_call cfg request) (S attempt) (S k'))))
          = S (S k')).
  now rewrite IH.
Qed.

Lemma sleeps_schedule (cfg : Config) (request : SettleRequest) (attempt k : nat) :
  sleeps (schedule (settle_call cfg request) attempt k)
  = List.map retryDelay (seq attempt (k - 1)).
Proof.
  revert attempt. induction k as [| k IH]; intros attempt; [reflexivity |].
  destruct k as [| k']; [reflexivity |].
  specialize (IH (S attempt)).
  change (retryDelay attempt
            :: sleeps (schedule (settle_call cfg request) (S attempt) (S k'))
          = List.map retryDelay (seq attempt (S (S k') - 1))).
  rewrite IH. replace (S (S k') - 1)%nat with (S k') by lia.
  replace (S k' - 1)%nat with k' by lia. reflexivity.
Qed.

Section RetryLoopShape.

Variable cfg : Config.
Variable request : SettleRequest.
Variable facilitator : Facilitator.

Let call : Event := settle_call cfg request.

(** The loop calls the facilitator until the first success answer or
    the last attempt, sleeping [retryDelay n] after every call [n] but
    the last one it makes; it returns on a success answer and throws
    otherwise. *)
Lemma settle_loop_shape (remaining attempt : nat) (lastError : option string) :
  (attempt + remaining = S maxRetries)%nat ->
  (1 <= remaining)%nat ->
  let run := settle_loop cfg request facilitator remaining attempt lastError in
  let k := calls_needed (facilitator request) remaining attempt in
  without_logs (events run) = schedule call attempt k
  /\ Forall (live_event cfg request) (events run)
  /\ match settles (facilitator request (attempt + k - 1)%nat) with
     | Some value => result run = Returned value
     | None => exists message, result run = Thrown message
     end.
Proof.
  revert attempt lastError.
  induction remaining as [| rest IH]; intros attempt lastError Hsum Hpos; [lia |].
  cbn [settle_loop calls_needed]. unfold succeeds.
  destruct (settles (facilitator request attempt)) as [value |] eqn:Hs.
  - (* the answer settles *)
    rewrite (settle_iteration_success cfg request facilitator attempt lastError
               value Hs).
    eff_reduce. replace (attempt + 1 - 1)%nat with attempt by lia.
    rewrite Hs. repeat split.
    constructor; [now left | constructor].
  - destruct rest as [| rest'].
    + (* last attempt *)
      assert (attempt = maxRetries) as -> by lia.
      destruct (settle_iteration_last cfg request facilitator lastError Hs)
        as (message & ->).
      eff_reduce. cbn [calls_needed].
      replace (maxRetries + 1 - 1)%nat with maxRetries by lia. rewrite Hs.
      repeat split.
      * constructor; [now left | constructor].
      * now exists message.
    + (* retry *)
      assert (Hne : attempt <> maxRetries) by lia.
      destruct (settle_iteration_retry cfg request facilitator attempt lastError Hs Hne)
        as (logs & lastError' & -> & Hlogs).
      cbn [bind].
      specialize (IH (S attempt) lastError' ltac:(lia) ltac:(lia)).
      cbv zeta in IH. destruct IH as (IHt & IHe & IHr).
      pose proof (calls_needed_bounds (facilitator request) (S rest') (S attempt)
                    ltac:(lia)) as Hk.
      set (k' := calls_needed (facilitator request) (S rest') (S attempt)) in *.
      destruct (settle_loop cfg request facilitator (S rest') (S attempt) lastError')
        as [t r] eqn:Hloop.
      eff_reduce. cbn [events result fst snd] in IHt, IHe, IHr.
      replace (attempt + S k' - 1)%nat with (S attempt + k' - 1)%nat by lia.
      repeat split.
      * rewrite <- app_assoc.
        change (without_logs (call :: (logs ++ [ESleep (retryDelay attempt)] ++ t))
                = schedule call attempt (S k')).
        destruct k' as [| k'']; [lia |].
        change (schedule call attempt (S (S k'')))
          with (call :: ESleep (retryDelay attempt)
                     :: schedule call (S attempt) (S k'')).
        rewrite <- IHt.
        destruct Hlogs as [-> | (line & ->)]; reflexivity.
      * constructor; [now left |].
        apply Forall_app. split; [| exact IHe].
        apply Forall_app. split.
        -- destruct Hlogs as [-> | (line & ->)]; constructor; [| constructor].
           right. right. now exists line.
        -- constructor; [| constructor]. right. left. now eexists.
      * exact IHr.
Qed.

End RetryLoopShape.

(** ** services/payment.ts: [settlePayment] *)

Lemma settlePayment_bypass (cfg : Config) (facilitator : Facilitator)
    (requirements : PaymentRequirements) (permit : Permit) (devBypass : option string) :
  bypass_guard cfg devBypass ->
  settlePayment cfg facilitator requirements permit devBypass
  = ([ELog "Using dev bypass mode for settlement"],
     Returned {| success := true; txHash := "dev-bypass"; facilitatorResponse := ArgNull |}).
Proof.
  intros H. apply bypass_condition in H. unfold settlePayment. now rewrite H.
Qed.

Lemma settlePayment_not_configured (cfg : Config) (facilitator : Facilitator)
    (requirements : PaymentRequirements) (permit : Permit) (devBypass : option string) :
  ~ bypass_guard cfg devBypass ->
  ~ settle_configured cfg ->
  settlePayment cfg facilitator requirements permit devBypass
  = ([], Thrown "Facilitator configuration not available").
Proof.
  intros Hb Hc. unfold settlePayment.
  rewrite <- bypass_condition in Hb. apply not_true_is_false in Hb. rewrite Hb.
  unfold settle_configured in Hc. rewrite <- configured_condition in Hc.
  apply not_false_is_true in Hc. now rewrite Hc.
Qed.

Lemma settlePayment_live (cfg : Config) (facilitator : Facilitator)
    (requirements : PaymentRequirements) (permit : Permit) (devBypass : option string) :
  ~ bypass_guard cfg devBypass ->
  settle_configured cfg ->
  settlePayment cfg facilitator requirements permit devBypass
  = settle_loop cfg (build_facilitatorRequest cfg requirements permit)
                facilitator maxRetries 1 None.
Proof.
  intros Hb Hc. unfold settlePayment.
  rewrite <- bypass_condition in Hb. apply not_true_is_false in Hb. rewrite Hb.
  apply configured_condition in Hc. now rewrite Hc.
Qed.

(** The whole live path: calls until the first answer that settles or
    the fourth attempt, one backoff sleep between consecutive calls. *)
Lemma settlePayment_shape (cfg : Config) (facilitator : Facilitator)
    (requirements : PaymentRequirements) (permit : Permit) (devBypass : option string) :
  ~ bypass_guard cfg devBypass ->
  settle_configured cfg ->
  let run := settlePayment cfg facilitator requirements permit devBypass in
  let request := build_facilitatorRequest cfg requirements permit in
  let k := calls_needed (facilitator request) maxRetries 1 in
  (1 <= k <= 4)%nat
  /\ without_logs (events run) = schedule (settle_call cfg request) 1 k
  /\ Forall (live_event cfg request) (events run)
  /\ settle_calls (events run) = k
  /\ sleeps (events run) = List.map retryDelay (seq 1 (k - 1))
  /\ match settles (facilitator request k) with
     | Some value => result run = Returned value
     | None => exists message, result run = Thrown message
     end.
Proof.
  intros Hb Hc. cbv zeta.
  rewrite (settlePayment_live cfg facilitator requirements permit devBypass Hb Hc).
  set (request := build_facilitatorRequest cfg requirements permit).
  destruct (settle_loop_shape cfg request facilitator maxRetries 1 None
              eq_refl ltac:(unfold maxRetries; lia)) as (Ht & He & Hr).
  set (k := calls_needed (facilitator request) maxRetries 1) in *.
  assert (Hk : (1 <= k <= 4)%nat)
    by (apply (calls_needed_bounds (facilitator request) maxRetries 1);
        unfold maxRetries; lia).
  replace (1 + k - 1)%nat with k in Hr by lia.
  repeat split; try assumption; try lia.
  - now rewrite <- settle_calls_without_logs, Ht, settle_calls_schedule.
  - now rewrite <- sleeps_without_logs, Ht, sleeps_schedule.
Qed.

(** The loop reads the request only to send it: against answers that do
    not depend on the body, two requests give the same run up to the body
    sent. *)
Lemma settle_loop_rebody (cfg : Config) (request request' : SettleRequest)
    (answers : nat -> FetchOutcome SettleData)
    (remaining attempt : nat) (lastError : option string) :
  settle_loop cfg request' (fun _ => answers) remaining attempt lastError
  = (List.map (rebody request')
       (events (settle_loop cfg request (fun _ => answers) remaining attempt lastError)),
     result (settle_loop cfg request (fun _ => answers) remaining attempt lastError)).
Proof.
  revert attempt lastError. induction remaining as [| rest IH]; intros attempt lastError.
  - reflexivity.
  - cbn [settle_loop]. unfold settle_iteration, settle_try, await_fetch, await.
    destruct (answers attempt) as [message | response]; eff_reduce.
    + destruct (attempt =? maxRetries)%nat; eff_reduce; [reflexivity |].
      rewrite IH.
      destruct (settle_loop cfg request (fun _ => answers) rest (S attempt) (Some message))
        as [t r].
      reflexivity.
    + destruct (ok response).
      * destruct (json response) as [data | message]; eff_reduce.
        -- destruct (extract_txHash data) as [hash | message]; eff_reduce;
             [reflexivity |].
           destruct (attempt =? maxRetries)%nat; eff_reduce; [reflexivity |].
           rewrite IH.
           destruct (settle_loop cfg request (fun _ => answers) rest (S attempt) (Some _))
             as [t r].
           reflexivity.
        -- destruct (attempt =? maxRetries)%nat; eff_reduce; [reflexivity |].
           rewrite IH.
           destruct (settle_loop cfg request (fun _ => answers) rest (S attempt) (Some _))
             as [t r].
           reflexivity.
      * destruct (text response) as [errorText | message]; eff_reduce.
        -- destruct (negb _ || (attempt =? maxRetries)%nat) eqn:E; eff_reduce.
           ++ destruct (attempt =? maxRetries)%nat; eff_reduce; [reflexivity |].
              rewrite IH.
              destruct (settle_loop cfg request (fun _ => answers) rest (S attempt)
                          (Some _)) as [t r].
              reflexivity.
           ++ rewrite IH.
              destruct (settle_loop cfg request (fun _ => answers) rest (S attempt)
                          lastError) as [t r].
              reflexivity.
        -- destruct (attempt =? maxRetries)%nat; eff_reduce; [reflexivity |].
           rewrite IH.
           destruct (settle_loop cfg request (fun _ => answers) rest (S attempt) (Some _))
             as [t r].
           reflexivity.
Qed.

Lemma calls_needed_after_failures (answers : nat -> FetchOutcome SettleData)
    (remaining attempt n : nat) :
  (n < remaining)%nat ->
  (forall m, (attempt <= m < attempt + n)%nat -> succeeds (answers m) = false) ->
  (n < calls_needed answers remaining attempt)%nat.
Proof.
  revert attempt n. induction remaining as [| rest IH]; intros attempt n Hn Hfail;
    [lia |].
  destruct n as [| n'].
  - pose proof (calls_needed_bounds answers (S rest) attempt). lia.
  - simpl. rewrite (Hfail attempt) by lia.
    apply -> Nat.succ_lt_mono. apply IH; [lia |].
    intros m Hm. apply Hfail. lia.
Qed.



(** A success status over a body that is not JSON, which the
    facilitator's interface does not have: reading the body throws inside
    the [try] block, and the attempt is retried like any other error. *)
Example settlePayment_unreadable_success_body :
  let run := settlePayment example_cfg flaky_then_empty_facilitator
               example_requirements example_permit None in
  settle_calls (events run) = 4%nat
  /\ result run
     = Thrown "Payment settlement failed after 4 attempts: Unexpected end of JSON input".
Proof. cbv zeta. repeat split; vm_compute; reflexivity. Qed.

(** C1 (the code departs from the specification).  Against a facilitator that
    always answers HTTP 400 with a body naming no retryable condition,
    [settlePayment] does not stop at the first call: the error thrown in
    the [try] block for the terminal answer is caught by the same
    iteration's [catch] block, which sleeps and lets the loop go on.  The
    settlement fails only after 4 calls and delays of 1000, 2000 and
    4000 ms. *)
Theorem settlePayment_terminal_answer_retried :
  let run := settlePayment example_cfg refusing_facilitator
               example_requirements example_permit None in
  let request := build_facilitatorRequest example_cfg example_requirements
                   example_permit in
  terminal_answer (refusing_facilitator request 1%nat)
  /\ settle_calls (events run) = 4%nat
  /\ sleeps (events run) = [1000; 2000; 4000]
  /\ result run
     = Thrown "Payment settlement failed after 4 attempts: Payment settlement failed: insufficient funds".
Proof.
  cbv zeta. split; [| split; [| split]].
  - eexists. eexists. split; [reflexivity |]. repeat split; reflexivity.
  - vm_compute. reflexivity.
  - vm_compute. reflexivity.
  - vm_compute. reflexivity.
Qed.

(** The same on every live settlement: a terminal answer to the first
    call is followed by a sleep of 1000 ms and a second call. *)
Lemma settlePayment_terminal_first_answer (cfg : Config) (facilitator : Facilitator)
    (requirements : PaymentRequirements) (permit : Permit) (devBypass : option string) :
  ~ bypass_guard cfg devBypass ->
  settle_configured cfg ->
  terminal_answer (facilitator (build_facilitatorRequest cfg requirements permit) 1%nat) ->
  let run := settlePayment cfg facilitator requirements permit devBypass in
  (2 <= settle_calls (events run))%nat
  /\ exists later, sleeps (events run) = 1000 :: later.
Proof.
  intros Hb Hc (response & body & Hans & Hok & _) run.
  destruct (settlePayment_shape cfg facilitator requirements permit devBypass Hb Hc)
    as (_ & _ & _ & Hcalls & Hsleeps & _).
  fold run in Hcalls, Hsleeps.
  set (request := build_facilitatorRequest cfg requirements permit) in *.
  assert (Hk : (1 < calls_needed (facilitator request) maxRetries 1)%nat).
  { apply calls_needed_after_failures; [unfold maxRetries; lia |].
    intros m Hm. replace m with 1%nat by lia.
    apply no_settlement_succeeds. rewrite Hans. now left. }
  rewrite Hcalls, Hsleeps. split; [lia |].
  destruct (calls_needed (facilitator request) maxRetries 1) as [| [| k]]; try lia.
  eexists. reflexivity.
Qed.

(** ** services/payment.ts: [startPayment] *)

Lemma startPayment_bypass (cfg : Config) (w : StartWorld) (walletAddress : string)
    (devBypass : option string) :
  bypass_guard cfg devBypass ->
  startPayment cfg w walletAddress devBypass
  = ([ELog "Using dev bypass mode"], Returned (createDevBypassResponse w)).
Proof.
  intros H. apply bypass_condition in H. unfold startPayment. now rewrite H.
Qed.

Lemma startPayment_not_configured (cfg : Config) (w : StartWorld) (walletAddress : string)
    (devBypass : option string) :
  ~ bypass_guard cfg devBypass ->
  ~ quote_configured cfg ->
  startPayment cfg w walletAddress devBypass
  = ([], Thrown "Facilitator configuration not available").
Proof.
  intros Hb Hc. unfold startPayment.
  rewrite <- bypass_condition in Hb. apply not_true_is_false in Hb. rewrite Hb.
  unfold quote_configured in Hc. rewrite <- configured_condition in Hc.
  apply not_false_is_true in Hc. now rewrite Hc.
Qed.

Lemma startPayment_live_events (cfg : Config) (w : StartWorld) (walletAddress : string)
    (devBypass : option string) :
  ~ bypass_guard cfg devBypass ->
  quote_configured cfg ->
  events (startPayment cfg w walletAddress devBypass)
  = [EQuote (FACILITATOR_API_URL cfg ++ "/requirements") (quote_request cfg)].
Proof.
  intros Hb Hc. unfold startPayment.
  rewrite <- bypass_condition in Hb. apply not_true_is_false in Hb. rewrite Hb.
  apply configured_condition in Hc. rewrite Hc.
  fold (quote_request cfg). unfold await_fetch, await.
  destruct (quote w (quote_request cfg)) as [message | response]; eff_reduce;
    [reflexivity |].
  destruct (negb (ok response) && negb (status response =? 402)); eff_reduce.
  - destruct (text response) as [errorText | message]; reflexivity.
  - destruct (json response) as [facilitatorData | message]; eff_reduce;
      [| reflexivity].
    destruct (get facilitatorData accepts) as [[[| acceptsItem rest] |] | message];
      eff_reduce; try reflexivity.
    destruct (negb (acc_network acceptsItem =? "arbitrum")%string); reflexivity.
Qed.

(** The requirements returned on the live path when the first accepted
    offer names no deadline. *)
Lemma startPayment_default_deadline (cfg : Config) (w : StartWorld)
    (walletAddress : string) (devBypass : option string)
    (response : HttpResponse QuoteData) (quoted : QuoteData)
    (offer : AcceptsItem) (others : list AcceptsItem) :
  ~ bypass_guard cfg devBypass ->
  quote_configured cfg ->
  quote w (quote_request cfg) = Responds response ->
  ok response = true \/ status response = 402 ->
  json response = Returned (ArgObject quoted) ->
  accepts quoted = Some (offer :: others) ->
  acc_network offer = "arbitrum" ->
  (acc_extra offer = None
   \/ exists extra, acc_extra offer = Some extra /\ extra_deadline extra = None) ->
  exists requirements,
    result (startPayment cfg w walletAddress devBypass) = Returned requirements
    /\ req_deadline requirements = now_ms w + 3600000.
Proof.
  intros Hb Hc Hans Hok Hjson Hacc Hnet Hextra. unfold startPayment.
  rewrite <- bypass_condition in Hb. apply not_true_is_false in Hb. rewrite Hb.
  apply configured_condition in Hc. rewrite Hc.
  fold (quote_request cfg). unfold await_fetch, await. rewrite Hans. eff_reduce.
  assert (Hpass : negb (ok response) && negb (status response =? 402) = false).
  { destruct Hok as [-> | ->]; [reflexivity | apply andb_false_r]. }
  rewrite Hpass, Hjson. eff_reduce. cbn [get]. rewrite Hacc. eff_reduce.
  rewrite Hnet. cbn [String.eqb Ascii.eqb Bool.eqb negb andb]. eff_reduce.
  eexists. split; [reflexivity |]. cbn [req_deadline].
  destruct Hextra as [-> | (extra & -> & ->)]; reflexivity.
Qed.

(** C7 (the code departs from the specification).  On the live path, when the
    accepted offer names no deadline, the deadline returned is the clock
    reading in milliseconds plus 3600000, not the Unix time in seconds
    plus 3600 that the bypass path returns and that [validatePermit]
    compares deadlines with.  At 1700000000000 ms the requirements carry
    1700003600000 where one hour from now, in seconds, is 1700003600. *)
Theorem startPayment_default_deadline_in_milliseconds :
  let run := startPayment example_cfg quoting_world example_wallet None in
  exists requirements,
    result run = Returned requirements
    /\ req_deadline requirements = 1700003600000
    /\ unix_seconds (now_ms quoting_world) + 3600 = 1700003600
    /\ req_deadline (createDevBypassResponse quoting_world) = 1700003600.
Proof.
  cbv zeta. eexists. split; [vm_compute; reflexivity |].
  repeat split; vm_compute; reflexivity.
Qed.

(** C4.  The total of the live quote is exact integer arithmetic on
    smallest-unit amounts: [merchantAmount + serviceFee + gasFee] with
    [serviceFee = merchantAmount * feeBasisPoints / 10000], the division
    leaving no remainder.  With 900000 and 50 basis points the service fee
    is 4500, the gas fee 100000 and the total 1004500, which is the
    amount, as a decimal string, of every quote request [startPayment]
    sends; on the live path it sends exactly one. *)
Theorem live_quote_total_amount :
  forall (cfg : Config) (w : StartWorld) (walletAddress : string)
         (devBypass : option string),
    merchantAmount = 900000
    /\ feeBasisPoints = 50
    /\ serviceFee = Z.quot (merchantAmount * feeBasisPoints) 10000
    /\ serviceFee * 10000 = merchantAmount * feeBasisPoints
    /\ serviceFee = 4500
    /\ gasFee = 100000
    /\ totalAmount = merchantAmount + serviceFee + gasFee
    /\ totalAmount = 1004500
    /\ (forall url body,
          In (EQuote url body) (events (startPayment cfg w walletAddress devBypass)) ->
          qr_amount body = Z_to_string (merchantAmount + serviceFee + gasFee)
          /\ qr_amount body = "1004500")
    /\ (~ bypass_guard cfg devBypass ->
        quote_configured cfg ->
        exists body,
          events (startPayment cfg w walletAddress devBypass)
          = [EQuote (FACILITATOR_API_URL cfg ++ "/requirements") body]
          /\ qr_amount body = "1004500").
Proof.
  intros cfg w walletAddress devBypass.
  do 8 (split; [reflexivity |]). split.
  - intros url body Hin.
    destruct (bypass_guard_dec cfg devBypass) as [Hb | Hb].
    + rewrite (startPayment_bypass cfg w walletAddress devBypass Hb) in Hin.
      destruct Hin as [Hin | []]. discriminate Hin.
    + destruct (quote_configured_dec cfg) as [Hc | Hc].
      * rewrite (startPayment_live_events cfg w walletAddress devBypass Hb Hc) in Hin.
        destruct Hin as [[= _ <-] | []]. split; reflexivity.
      * rewrite (startPayment_not_configured cfg w walletAddress devBypass Hb Hc) in Hin.
        destruct Hin.
  - intros Hb Hc. exists (quote_request cfg). split; [| reflexivity].
    now apply startPayment_live_events.
Qed.

(** ** The three ways through [startPayment] and [settlePayment] *)

(** Off the bypass branch, neither function writes the bypass line. *)
Lemma startPayment_live_not_bypassed (cfg : Config) (w : StartWorld)
    (walletAddress : string) (devBypass : option string) :
  ~ bypass_guard cfg devBypass ->
  ~ start_bypassed (events (startPayment cfg w walletAddress devBypass)).
Proof.
  intros Hb Hin. unfold start_bypassed in Hin.
  destruct (quote_configured_dec cfg) as [Hc | Hc].
  - rewrite (startPayment_live_events cfg w walletAddress devBypass Hb Hc) in Hin.
    destruct Hin as [Hin | []]. discriminate Hin.
  - rewrite (startPayment_not_configured cfg w walletAddress devBypass Hb Hc) in Hin.
    destruct Hin.
Qed.

Lemma settlePayment_live_events (cfg : Config) (facilitator : Facilitator)
    (requirements : PaymentRequirements) (permit : Permit) (devBypass : option string) :
  ~ bypass_guard cfg devBypass ->
  Forall (live_event cfg (build_facilitatorRequest cfg requirements permit))
         (events (settlePayment cfg facilitator requirements permit devBypass)).
Proof.
  intros Hb. destruct (settle_configured_dec cfg) as [Hc | Hc].
  - now destruct (settlePayment_shape cfg facilitator requirements permit devBypass
                    Hb Hc) as (_ & _ & He & _).
  - rewrite (settlePayment_not_configured cfg facilitator requirements permit devBypass
               Hb Hc).
    constructor.
Qed.

Lemma settlePayment_live_not_bypassed (cfg : Config) (facilitator : Facilitator)
    (requirements : PaymentRequirements) (permit : Permit) (devBypass : option string) :
  ~ bypass_guard cfg devBypass ->
  ~ settle_bypassed (events (settlePayment cfg facilitator requirements permit devBypass)).
Proof.
  intros Hb Hin. unfold settle_bypassed in Hin.
  pose proof (settlePayment_live_events cfg facilitator requirements permit devBypass Hb)
    as He.
  rewrite Forall_forall in He. specialize (He _ Hin).
  destruct He as [He | [(ms & He) | (line & He)]]; discriminate He.
Qed.

(** C3.  The development-bypass branch of [startPayment] and of
    [settlePayment] is taken exactly when the environment is not
    ['production'] and the caller's token is present, not empty and equal
    to the configured secret; in production it is never taken, whatever
    the token. *)
Theorem dev_bypass_guarded :
  forall (cfg : Config) (w : StartWorld) (walletAddress : string)
         (facilitator : Facilitator) (requirements : PaymentRequirements)
         (permit : Permit) (devBypass : option string),
    let started := events (startPayment cfg w walletAddress devBypass) in
    let settling := events (settlePayment cfg facilitator requirements permit devBypass) in
    (start_bypassed started <->
       NODE_ENV cfg <> "production"
       /\ exists token,
            devBypass = Some token /\ token <> "" /\ token = DEV_BYPASS_SECRET cfg)
    /\ (settle_bypassed settling <->
          NODE_ENV cfg <> "production"
          /\ exists token,
               devBypass = Some token /\ token <> "" /\ token = DEV_BYPASS_SECRET cfg)
    /\ (NODE_ENV cfg = "production" ->
        ~ start_bypassed started /\ ~ settle_bypassed settling).
Proof.
  intros cfg w walletAddress facilitator requirements permit devBypass started settling.
  fold (bypass_guard cfg devBypass).
  assert (Hstart : start_bypassed started <-> bypass_guard cfg devBypass).
  { split.
    - intros Hin. destruct (bypass_guard_dec cfg devBypass) as [Hg | Hg]; [exact Hg |].
      now elim (startPayment_live_not_bypassed cfg w walletAddress devBypass Hg).
    - intros Hg. unfold started.
      rewrite (startPayment_bypass cfg w walletAddress devBypass Hg). now left. }
  assert (Hsettle : settle_bypassed settling <-> bypass_guard cfg devBypass).
  { split.
    - intros Hin. destruct (bypass_guard_dec cfg devBypass) as [Hg | Hg]; [exact Hg |].
      now elim (settlePayment_live_not_bypassed cfg facilitator requirements permit
                  devBypass Hg).
    - intros Hg. unfold settling.
      rewrite (settlePayment_bypass cfg facilitator requirements permit devBypass Hg).
      now left. }
  split; [exact Hstart |]. split; [exact Hsettle |].
  intros Hprod. split.
  - intros Hin. apply Hstart in Hin. destruct Hin as [Hne _]. now elim Hne.
  - intros Hin. apply Hsettle in Hin. destruct Hin as [Hne _]. now elim Hne.
Qed.

(** C10.  [settlePayment] sends the permit and the requirements on as
    they are and compares nothing between them: the requirements' amount
    and deadline and the permit's value, deadline and nonce sit unchanged
    in the request, every call made carries that request, and against
    answers that do not depend on the request body the result is the same
    for any two pairs of requirements and permit, matched or mismatched;
    in particular a success answer to the first call settles such a
    pair. *)
Theorem settlePayment_forwards_without_comparing :
  forall (cfg : Config) (requirements : PaymentRequirements) (permit : Permit),
    let request := build_facilitatorRequest cfg requirements permit in
    (sr_amount request = req_amount requirements
     /\ st_amount (sr_paymentRequirements request) = req_amount requirements
     /\ permit_value (sr_permit request) = permit_value permit
     /\ pl_value (pp_payload (sr_paymentPayload request)) = permit_value permit)
    /\ (sr_deadline request = req_deadline requirements
        /\ permit_deadline (sr_permit request) = permit_deadline permit
        /\ pl_validBefore (pp_payload (sr_paymentPayload request)) = permit_deadline permit)
    /\ (sr_nonce request = permit_nonce permit
        /\ permit_nonce (sr_permit request) = permit_nonce permit
        /\ pl_nonce (pp_payload (sr_paymentPayload request)) = permit_nonce permit)
    /\ (forall (facilitator : Facilitator) (devBypass : option string) (e : Event),
          In e (events (settlePayment cfg facilitator requirements permit devBypass)) ->
          is_settle_call e = true ->
          e = settle_call cfg request)
    /\ (forall (answers : nat -> FetchOutcome SettleData) (devBypass : option string)
               (requirements' : PaymentRequirements) (permit' : Permit),
          result (settlePayment cfg (fun _ => answers) requirements permit devBypass)
          = result (settlePayment cfg (fun _ => answers) requirements' permit' devBypass))
    /\ (forall (facilitator : Facilitator) (devBypass : option string)
               (response : HttpResponse SettleData) (data : JsArg SettleData),
          ~ bypass_guard cfg devBypass ->
          settle_configured cfg ->
          facilitator request 1%nat = Responds response ->
          ok response = true ->
          json response = Returned data ->
          data <> ArgNull ->
          data <> ArgUndefined ->
          result (settlePayment cfg facilitator requirements permit devBypass)
          = Returned {| success := true;
                        txHash := tx_reference data;
                        facilitatorResponse := data |}).
Proof.
  intros cfg requirements permit request.
  split; [repeat split |]. split; [repeat split |]. split; [repeat split |].
  split; [| split].
  - intros facilitator devBypass e Hin Hcall.
    destruct (bypass_guard_dec cfg devBypass) as [Hg | Hg].
    + rewrite (settlePayment_bypass cfg facilitator requirements permit devBypass Hg)
        in Hin.
      destruct Hin as [<- | []]. discriminate Hcall.
    + pose proof (settlePayment_live_events cfg facilitator requirements permit
                    devBypass Hg) as He.
      rewrite Forall_forall in He. specialize (He _ Hin).
      destruct He as [He | [(ms & ->) | (line & ->)]];
        [exact He | discriminate Hcall | discriminate Hcall].
  - intros answers devBypass requirements' permit'.
    destruct (bypass_guard_dec cfg devBypass) as [Hg | Hg].
    + now rewrite !settlePayment_bypass.
    + destruct (settle_configured_dec cfg) as [Hc | Hc].
      * rewrite !settlePayment_live by assumption.
        now rewrite (settle_loop_rebody cfg request
                       (build_facilitatorRequest cfg requirements' permit')).
      * now rewrite !settlePayment_not_configured.
  - intros facilitator devBypass response data Hg Hc Hans Hok Hjson Hnull Hundef.
    pose proof (settles_readable response data Hok Hjson Hnull Hundef) as Hs.
    rewrite <- Hans in Hs.
    rewrite (settlePayment_live cfg facilitator requirements permit devBypass Hg Hc).
    fold request. cbn [settle_loop maxRetries].
    rewrite (settle_iteration_success cfg request facilitator 1 None _ Hs).
    reflexivity.
Qed.

(** ** services/supabase.ts: the queries, in memory *)

Lemma insert_desc_In (d x : SharedDataset) (rows : list SharedDataset) :
  In x (insert_desc d rows) <-> x = d \/ In x rows.
Proof.
  induction rows as [| y rest IH]; simpl.
  - intuition.
  - destruct (ds_created_at y <=? ds_created_at d); simpl; rewrite ?IH; intuition.
Qed.

Lemma order_desc_In (x : SharedDataset) (rows : list SharedDataset) :
  In x (order_desc rows) <-> In x rows.
Proof.
  induction rows as [| y rest IH]; simpl; [tauto |].
  rewrite insert_desc_In, IH. intuition.
Qed.

Lemma insert_desc_sorted (d : SharedDataset) (rows : list SharedDataset) :
  StronglySorted newer_or_same rows ->
  StronglySorted newer_or_same (insert_desc d rows).
Proof.
  induction 1 as [| y rest Hsorted IH Hy]; simpl.
  - repeat constructor.
  - destruct (ds_created_at y <=? ds_created_at d) eqn:E.
    + apply Z.leb_le in E. constructor; [now constructor |].
      constructor; [exact E |].
      rewrite Forall_forall in *. intros x Hx. specialize (Hy x Hx).
      unfold newer_or_same in *. lia.
    + apply Z.leb_gt in E. constructor; [exact IH |].
      rewrite Forall_forall in *. intros x Hx. apply insert_desc_In in Hx.
      destruct Hx as [-> | Hx]; [unfold newer_or_same; lia | now apply Hy].
Qed.

Lemma order_desc_sorted (rows : list SharedDataset) :
  StronglySorted newer_or_same (order_desc rows).
Proof.
  induction rows as [| y rest IH]; simpl; [constructor | now apply insert_desc_sorted].
Qed.

(** The first row of the ordered result is a row, and none is newer. *)
Lemma order_desc_head (rows : list SharedDataset) (first : SharedDataset)
    (others : list SharedDataset) :
  order_desc rows = first :: others ->
  In first rows
  /\ forall x, In x rows -> ds_created_at x <= ds_created_at first.
Proof.
  intros E. pose proof (order_desc_sorted rows) as Hs. rewrite E in Hs.
  apply StronglySorted_inv in Hs. destruct Hs as [_ Hall].
  split.
  - apply order_desc_In. rewrite E. now left.
  - intros x Hx. apply order_desc_In in Hx. rewrite E in Hx.
    destruct Hx as [<- | Hx]; [lia |].
    rewrite Forall_forall in Hall. exact (Hall x Hx).
Qed.

Lemma order_desc_nil (rows : list SharedDataset) :
  order_desc rows = [] -> rows = [].
Proof.
  destruct rows as [| y rest]; [reflexivity |]. intros E.
  assert (H : In y (order_desc (y :: rest))) by (apply order_desc_In; now left).
  rewrite E in H. destruct H.
Qed.

(** The two reads of [getLatestSharedDataset] and the read of
    [grantDatasetAccess]. *)
Lemma run_select_active (now : Z) (rows : list SharedDataset) :
  run_select {| sel_where := [Gt_expires_at now];
                sel_order_created_at_desc := true;
                sel_limit := Some 1%nat |} rows
  = firstn 1 (order_desc (filter (fun d => now <? ds_expires_at d) rows)).
Proof.
  unfold run_select. cbn [sel_where sel_order_created_at_desc sel_limit].
  do 2 f_equal. apply filter_ext. intros d. cbn. apply andb_true_r.
Qed.

Lemma run_select_latest (rows : list SharedDataset) :
  run_select {| sel_where := [];
                sel_order_created_at_desc := true;
                sel_limit := Some 1%nat |} rows
  = firstn 1 (order_desc rows).
Proof.
  unfold run_select. cbn [sel_where sel_order_created_at_desc sel_limit forallb].
  do 2 f_equal. induction rows as [| y rest IH]; simpl; [reflexivity | now f_equal].
Qed.

Lemma run_select_by_id (id : string) (rows : list SharedDataset) :
  run_select {| sel_where := [Eq_id id];
                sel_order_created_at_desc := false;
                sel_limit := Some 1%nat |} rows
  = match find (fun d => (ds_id d =? id)%string) rows with
    | Some d => [d]
    | None => []
    end.
Proof.
  unfold run_select. cbn [sel_where sel_order_created_at_desc sel_limit forallb
                          filter_holds].
  induction rows as [| y rest IH]; [reflexivity |].
  cbn [filter find]. rewrite andb_true_r.
  destruct (ds_id y =? id)%string; [reflexivity | exact IH].
Qed.

(** C8.  Against the store, [getLatestSharedDataset] returns a dataset
    whose expiry is still in the future and than which no unexpired
    dataset was created later, when there is an unexpired one; when every
    stored dataset has expired it returns a stored dataset than which
    none was created later, instead of failing; and on an empty store it
    fails with the no-data error. *)
Theorem getLatestSharedDataset_policy :
  forall (now : Z) (db : Store),
    let rows := shared_datasets db in
    let latest := getLatestSharedDataset store_client now db in
    ((exists d, In d rows /\ now < ds_expires_at d) ->
     exists d,
       latest = Returned d
       /\ In d rows
       /\ now < ds_expires_at d
       /\ forall x, In x rows -> now < ds_expires_at x ->
                    ds_created_at x <= ds_created_at d)
    /\ (rows <> [] ->
        (forall x, In x rows -> ds_expires_at x <= now) ->
        exists d,
          latest = Returned d
          /\ In d rows
          /\ forall x, In x rows -> ds_created_at x <= ds_created_at d)
    /\ (rows = [] ->
        latest = Thrown "No shared dataset available. Pipeline may not have run yet.").
Proof.
  intros now db rows latest.
  assert (Hlatest :
            latest
            = match order_desc (filter (fun d => now <? ds_expires_at d) rows) with
              | first :: _ => Returned first
              | [] =>
                  match order_desc rows with
                  | first :: _ => Returned first
                  | [] => Thrown "No shared dataset available. Pipeline may not have run yet."
                  end
              end).
  { unfold latest, getLatestSharedDataset, store_client.
    cbn [select_shared_datasets pg_error pg_data].
    rewrite run_select_active, run_select_latest. fold rows.
    destruct (order_desc (filter (fun d => now <? ds_expires_at d) rows)) as [| a l];
      [| reflexivity].
    destruct (order_desc rows) as [| b l']; reflexivity. }
  rewrite Hlatest. clear Hlatest latest. split; [| split].
  - (* an unexpired dataset exists *)
    intros (d & Hd & Hfresh).
    destruct (order_desc (filter (fun d => now <? ds_expires_at d) rows))
      as [| first others] eqn:E.
    + apply order_desc_nil in E.
      assert (Hin : In d (filter (fun d => now <? ds_expires_at d) rows))
        by (apply filter_In; split; [exact Hd | now apply Z.ltb_lt]).
      rewrite E in Hin. destruct Hin.
    + apply order_desc_head in E. destruct E as [Hin Hmax].
      apply filter_In in Hin. destruct Hin as [Hin Hlive]. apply Z.ltb_lt in Hlive.
      exists first. repeat split; try assumption.
      intros x Hx Hxfresh. apply Hmax. apply filter_In.
      split; [exact Hx | now apply Z.ltb_lt].
  - (* only expired datasets *)
    intros Hne Hexpired.
    assert (E0 : filter (fun d => now <? ds_expires_at d) rows = []).
    { induction rows as [| y rest IH]; [reflexivity |]. simpl.
      assert (Hy : (now <? ds_expires_at y) = false)
        by (apply Z.ltb_ge, Hexpired; now left).
      rewrite Hy. destruct rest as [| z rest'].
      - reflexivity.
      - apply IH; [discriminate |]. intros x Hx. apply Hexpired. now right. }
    rewrite E0. cbn [order_desc fold_right].
    destruct (order_desc rows) as [| first others] eqn:E.
    + apply order_desc_nil in E. now elim Hne.
    + apply order_desc_head in E. destruct E as [Hin Hmax].
      exists first. repeat split; assumption.
  - (* empty store *)
    intros ->. reflexivity.
Qed.

(** A store whose two datasets have both expired: the newer one is
    served. *)
Lemma getLatestSharedDataset_policy_witness :
  let older := mkSharedDataset "ds-1" [] 1000 2000 in
  let newer := mkSharedDataset "ds-2" [] 3000 4000 in
  let db := mkStore [older; newer] [] 5000 0 in
  exists d,
    getLatestSharedDataset store_client 5000 db = Returned d
    /\ In d (shared_datasets db)
    /\ forall x, In x (shared_datasets db) -> ds_created_at x <= ds_created_at d.
Proof.
  intros older newer db.
  destruct (getLatestSharedDataset_policy 5000 db) as (_ & Hexpired & _).
  apply Hexpired.
  - discriminate.
  - intros x [<- | [<- | []]]; simpl; lia.
Defined.

(** Whatever the client, when the dataset cannot be resolved (the read
    fails, or finds no row) the grant fails before anything is written. *)
Lemma grantDatasetAccess_unresolved {DB : Type} (supabase : SupabaseClient DB)
    (walletAddress sharedDatasetId txHash : string)
    (facilitatorResponse : JsArg SettleData) (db : DB) :
  let found :=
    select_shared_datasets supabase
      {| sel_where := [Eq_id sharedDatasetId];
         sel_order_created_at_desc := false;
         sel_limit := Some 1%nat |} db in
  pg_error found <> None \/ pg_data found = None \/ pg_data found = Some [] ->
  grantDatasetAccess supabase walletAddress sharedDatasetId txHash facilitatorResponse db
  = (Thrown "Failed to get shared dataset expiration", db).
Proof.
  intros found H. unfold grantDatasetAccess. fold found.
  destruct (pg_error found) as [message |]; [reflexivity |].
  destruct H as [H | [-> | ->]]; [now elim H | reflexivity | reflexivity].
Qed.

(** C9.  Against the store, [grantDatasetAccess] fails with the
    dataset-unavailable error, writing nothing, when no dataset has the
    given id; otherwise it adds exactly one entitlement, the one it
    returns, for the given wallet, dataset and transaction, whose
    [valid_until] is the [expires_at] the dataset has at that moment.
    The value is copied: when the dataset's expiry is moved afterwards the
    entitlement stored is the same. *)
Theorem grantDatasetAccess_copies_expiry :
  forall (db : Store) (walletAddress sharedDatasetId txHash : string)
         (facilitatorResponse : JsArg SettleData),
    let granted :=
      grantDatasetAccess store_client walletAddress sharedDatasetId txHash
                         facilitatorResponse db in
    ((forall d, In d (shared_datasets db) -> ds_id d <> sharedDatasetId) ->
     granted = (Thrown "Failed to get shared dataset expiration", db))
    /\ (forall d,
          find (fun x => (ds_id x =? sharedDatasetId)%string) (shared_datasets db)
          = Some d ->
          exists entitlement db',
            granted = (Returned entitlement, db')
            /\ entitlements db' = (entitlements db ++ [entitlement])%list
            /\ shared_datasets db' = shared_datasets db
            /\ ent_valid_until entitlement = ds_expires_at d
            /\ ent_wallet_address entitlement = walletAddress
            /\ ent_shared_dataset_id entitlement = sharedDatasetId
            /\ ent_tx_hash entitlement = txHash
            /\ ent_facilitator_response entitlement = facilitatorResponse
            /\ forall t,
                 entitlements (reschedule sharedDatasetId t db')
                 = (entitlements db ++ [entitlement])%list).
Proof.
  intros db walletAddress sharedDatasetId txHash facilitatorResponse granted.
  split.
  - intros Hnone. apply grantDatasetAccess_unresolved. right. right.
    cbn [store_client select_shared_datasets pg_data]. f_equal.
    rewrite run_select_by_id.
    destruct (find _ (shared_datasets db)) as [d |] eqn:E; [| reflexivity].
    apply find_some in E. destruct E as [Hin Heq]. apply String.eqb_eq in Heq.
    now elim (Hnone d Hin).
  - intros d Hfind. unfold granted, grantDatasetAccess.
    cbn [store_client select_shared_datasets insert_entitlement pg_error pg_data].
    rewrite run_select_by_id, Hfind. cbn [store_insert].
    eexists. eexists. split; [reflexivity |]. repeat split.
Qed.

(** A grant on a store that holds the dataset. *)
Lemma grantDatasetAccess_copies_expiry_witness :
  let dataset := mkSharedDataset "ds-2" ["event-1"] 3000 4000 in
  let db := mkStore [mkSharedDataset "ds-1" [] 1000 2000; dataset] [] 3500 7 in
  exists entitlement db',
    grantDatasetAccess store_client example_wallet "ds-2" "0xfeed" ArgNull db
    = (Returned entitlement, db')
    /\ entitlements db' = [entitlement]
    /\ ent_valid_until entitlement = 4000.
Proof.
  intros dataset db.
  destruct (grantDatasetAccess_copies_expiry db example_wallet "ds-2" "0xfeed" ArgNull)
    as [_ Hgrant].
  destruct (Hgrant dataset eq_refl)
    as (entitlement & db' & Hres & Hrows & _ & Huntil & _).
  exists entitlement, db'. split; [exact Hres |]. split; [exact Hrows | exact Huntil].
Defined.

(** ** Scenarios, by evaluation *)

(** The example permit is accepted while its deadline is ahead. *)
Example validatePermit_accepts_example :
  answer (validatePermit decimal_numeral address_check 1700000000000
            (permit_arg example_permit) [])
  = Returned true.
Proof. vm_compute. reflexivity. Qed.

(** A deadline equal to the current second is too late. *)
Example validatePermit_rejects_deadline_now :
  answer (validatePermit decimal_numeral address_check 1700000000999
            (permit_arg (with_deadline 1700000000 example_permit)) [])
  = Returned false.
Proof. vm_compute. reflexivity. Qed.

(** Signatures of 131 and of 133 characters are rejected. *)
Example validatePermit_rejects_short_sig :
  let sig := String.substring 0 131 (permit_sig example_permit) in
  String.length sig = 131%nat
  /\ answer (validatePermit decimal_numeral address_check 1700000000000
               (permit_arg (with_sig sig example_permit)) [])
     = Returned false.
Proof. split; vm_compute; reflexivity. Qed.

Example validatePermit_rejects_long_sig :
  let sig := (permit_sig example_permit ++ "0")%string in
  String.length sig = 133%nat
  /\ answer (validatePermit decimal_numeral address_check 1700000000000
               (permit_arg (with_sig sig example_permit)) [])
     = Returned false.
Proof. split; vm_compute; reflexivity. Qed.

(** [null], [undefined], primitives and arrays are rejected without an
    error. *)
Example validators_on_non_objects :
  answer (validatePermit decimal_numeral address_check 0 VNull []) = Returned false
  /\ answer (validatePermit decimal_numeral address_check 0 VUndefined [])
     = Returned false
  /\ answer (validatePermit decimal_numeral address_check 0 (VString "permit") [])
     = Returned false
  /\ answer (validatePermit decimal_numeral address_check 0 (VArray [VBool true]) [])
     = Returned false
  /\ answer (validateRequirements address_check VNull []) = Returned false
  /\ answer (validateRequirements address_check VUndefined []) = Returned false
  /\ answer (validateRequirements address_check (VNumber (Integer 7)) [])
     = Returned false.
Proof. repeat split. Qed.

(** A signature sent as an array of one string passes the pattern, and
    a deadline sent as the string of a number is compared as that
    number. *)
Example validatePermit_on_other_types :
  answer (validatePermit decimal_numeral address_check 1700000000000
            (with_field (permit_arg example_permit) "sig"
               (VArray [VString (permit_sig example_permit)])) [])
  = Returned true
  /\ answer (validatePermit decimal_numeral address_check 1700000000000
               (with_field (permit_arg example_permit) "deadline"
                  (VString "1600000000")) [])
     = Returned false
  /\ answer (validatePermit decimal_numeral address_check 1700000000000
               (with_field (permit_arg example_permit) "sig"
                  (VObject [("toString", VNull)])) [])
     = Thrown "TypeError: Cannot convert object to primitive value".
Proof. repeat split; vm_compute; reflexivity. Qed.

(** The example requirements are accepted, whatever the time: their
    validator reads no clock. *)
Example validateRequirements_accepts_example :
  answer (validateRequirements address_check (requirements_arg example_requirements) [])
  = Returned true.
Proof. vm_compute. reflexivity. Qed.

(** A permit for 1 unit against requirements for 1004500 units: both
    pass validation, the request carries both values, and the settlement
    succeeds. *)
Example mismatched_pair_settles :
  let permit := with_value "1" example_permit in
  let request := build_facilitatorRequest example_cfg example_requirements permit in
  answer (validatePermit decimal_numeral address_check 1700000000000
            (permit_arg permit) [])
  = Returned true
  /\ answer (validateRequirements address_check
               (requirements_arg example_requirements) [])
     = Returned true
  /\ sr_amount request = "1004500"
  /\ pl_value (pp_payload (sr_paymentPayload request)) = "1"
  /\ result (settlePayment example_cfg settling_facilitator
                example_requirements permit None)
     = Returned {| success := true; txHash := "0xfeed";
                   facilitatorResponse := settled_data |}.
Proof. repeat split; vm_compute; reflexivity. Qed.

(** The signature of the example permit splits into [r], [s] and [v]. *)
Example signature_components :
  let payload := pp_payload (sr_paymentPayload
                   (build_facilitatorRequest example_cfg example_requirements
                      example_permit)) in
  pl_r payload = "0x1a1a1a1a1a1a1a1a1a1a1a1a1a1a1a1a1a1a1a1a1a1a1a1a1a1a1a1a1a1a1a1a"
  /\ pl_s payload = "0x2b2b2b2b2b2b2b2b2b2b2b2b2b2b2b2b2b2b2b2b2b2b2b2b2b2b2b2b2b2b2b2b"
  /\ pl_v payload = Some 28.
Proof. repeat split; vm_compute; reflexivity. Qed.

(** With the matching token outside production both functions take the
    bypass and touch no network; the same token in production does not
    open it. *)
Example bypass_in_development :
  let dev := mkConfig "development" "" "" "" "let-me-in" in
  events (settlePayment dev refusing_facilitator example_requirements example_permit
            (Some "let-me-in"))
  = [ELog "Using dev bypass mode for settlement"]
  /\ result (settlePayment dev refusing_facilitator example_requirements example_permit
               (Some "let-me-in"))
     = Returned {| success := true; txHash := "dev-bypass";
                   facilitatorResponse := ArgNull |}
  /\ events (startPayment dev quoting_world example_wallet (Some "let-me-in"))
     = [ELog "Using dev bypass mode"]
  /\ settle_calls (events (settlePayment example_cfg settling_facilitator
                             example_requirements example_permit (Some "let-me-in")))
     = 1%nat.
Proof. repeat split; vm_compute; reflexivity. Qed.

(** An empty secret cannot be matched by an empty token. *)
Example empty_token_does_not_bypass :
  let dev := mkConfig "development" "" "" "" "" in
  result (settlePayment dev settling_facilitator example_requirements example_permit
            (Some ""))
  = Thrown "Facilitator configuration not available".
Proof. vm_compute. reflexivity. Qed.

(** Of three datasets, two of them still valid at 2500, the newer valid
    one is served, not the newest; an empty store has none to serve. *)
Example getLatestSharedDataset_prefers_unexpired :
  let stale := mkSharedDataset "ds-3" [] 3000 2400 in
  let fresh := mkSharedDataset "ds-2" [] 2000 4000 in
  let older := mkSharedDataset "ds-1" [] 1000 9000 in
  getLatestSharedDataset store_client 2500 (mkStore [older; stale; fresh] [] 2500 0)
  = Returned fresh
  /\ getLatestSharedDataset store_client 9500 (mkStore [older; stale; fresh] [] 9500 0)
     = Returned stale
  /\ getLatestSharedDataset store_client 2500 (mkStore [] [] 2500 0)
     = Thrown "No shared dataset available. Pipeline may not have run yet.".
Proof. repeat split. Qed.

(** A grant for a dataset the store does not hold writes nothing. *)
Example grantDatasetAccess_unknown_dataset :
  let db := mkStore [mkSharedDataset "ds-1" [] 1000 2000] [] 1500 0 in
  grantDatasetAccess store_client example_wallet "ds-9" "0xfeed" ArgNull db
  = (Thrown "Failed to get shared dataset expiration", db).
Proof. reflexivity. Qed.

(** Settlement, then grant: the entitlement expires with the dataset
    served, and moving the dataset's expiry afterwards does not move it. *)
Example settle_then_grant :
  let dataset := mkSharedDataset "ds-1" ["event-1"] 1000 5000 in
  let db := mkStore [dataset] [] 1500 0 in
  let paid := result (settlePayment example_cfg settling_facilitator
                        example_requirements example_permit None) in
  let granted := grantDatasetAccess store_client example_wallet "ds-1" "0xfeed"
                   settled_data db in
  paid = Returned {| success := true; txHash := "0xfeed";
                     facilitatorResponse := settled_data |}
  /\ getLatestSharedDataset store_client 1500 db = Returned dataset
  /\ List.map ent_valid_until (entitlements (snd granted)) = [5000]
  /\ List.map ent_valid_until (entitlements (reschedule "ds-1" 9000 (snd granted)))
     = [5000]
  /\ List.map ds_expires_at (shared_datasets (reschedule "ds-1" 9000 (snd granted)))
     = [9000].
Proof. repeat split; vm_compute; reflexivity. Qed.

(* ===================================================================== *)
(** * Part IV: further properties of the code                             *)
(* ===================================================================== *)

(** ** services/payment.ts: [generateNonce] *)

Lemma hex_char_is_hex_digit (d : N) :
  (d < 16)%N -> is_hex_digit (hex_char d) = true.
Proof.
  intros H.
  assert (Hall : forallb (fun n => is_hex_digit (hex_char (N.of_nat n))) (seq 0 16) = true)
    by (vm_compute; reflexivity).
  rewrite forallb_forall in Hall. specialize (Hall (N.to_nat d)).
  rewrite Nnat.N2Nat.id in Hall. apply Hall. apply in_seq. lia.
Qed.

Lemma hex2_hex_run (b : N) : hex_run 2 (hex2 b) = true.
Proof.
  unfold hex2. cbn [hex_run].
  rewrite !hex_char_is_hex_digit; [reflexivity | |];
    apply N.mod_lt; discriminate.
Qed.

Lemma hex_run_app (n m : nat) (a b : string) :
  hex_run n a = true -> hex_run m b = true -> hex_run (n + m) (a ++ b) = true.
Proof.
  revert a. induction n as [| n IH]; intros [| c a] Ha Hb; simpl in *;
    try discriminate; [exact Hb |].
  apply andb_prop in Ha as [Hc Ha]. rewrite Hc. now apply IH.
Qed.

Lemma concat_empty_cons (h : string) (t : list string) :
  String.concat "" (h :: t) = h ++ String.concat "" t.
Proof.
  destruct t as [| x t]; simpl; [| reflexivity].
  induction h as [| c h IH]; simpl; [reflexivity | now f_equal].
Qed.

Lemma hex_run_concat_hex2 (bytes : list N) :
  hex_run (2 * List.length bytes) (String.concat "" (List.map hex2 bytes)) = true.
Proof.
  induction bytes as [| b rest IH]; [reflexivity |].
  cbn [List.map]. rewrite concat_empty_cons.
  replace (2 * List.length (b :: rest))%nat with (2 + 2 * List.length rest)%nat
    by (simpl; lia).
  apply hex_run_app; [apply hex2_hex_run | exact IH].
Qed.

Lemma generateNonce_passes_test (w : StartWorld) :
  test_0x_hex 64 (generateNonce w) = true.
Proof.
  unfold generateNonce.
  set (bytes := List.map (fun i => (random_byte w i mod 256)%N) (seq 0 32)).
  change (hex_run 64 (String.concat "" (List.map hex2 bytes)) = true).
  assert (Hlen : List.length bytes = 32%nat)
    by (unfold bytes; now rewrite length_map, length_seq).
  pose proof (hex_run_concat_hex2 bytes) as Hrun. now rewrite Hlen in Hrun.
Qed.

Lemma generateNonce_well_formed (w : StartWorld) : is_0x_hex 64 (generateNonce w).
Proof. apply test_0x_hex_spec, generateNonce_passes_test. Qed.

(** X1.  Whatever the random source gives, [generateNonce] returns [0x]
    followed by exactly 64 hexadecimal characters, 66 characters in all:
    a nonce of the format [validatePermit] asks of a permit. *)
Theorem generateNonce_format :
  forall w : StartWorld,
    test_0x_hex 64 (generateNonce w) = true
    /\ is_0x_hex 64 (generateNonce w)
    /\ String.length (generateNonce w) = 66%nat.
Proof.
  intros w. pose proof (generateNonce_passes_test w) as H.
  split; [exact H |]. split.
  - apply generateNonce_well_formed.
  - now apply test_0x_hex_length in H.
Qed.

(** ** services/payment.ts: [startPayment], further *)

(** The live path with a quote that carries offers: the first offer
    decides. *)
Lemma startPayment_first_offer (cfg : Config) (w : StartWorld)
    (walletAddress : string) (devBypass : option string)
    (response : HttpResponse QuoteData) (quoted : QuoteData)
    (offer : AcceptsItem) (others : list AcceptsItem) :
  ~ bypass_guard cfg devBypass ->
  quote_configured cfg ->
  quote w (quote_request cfg) = Responds response ->
  ok response = true \/ status response = 402 ->
  json response = Returned (ArgObject quoted) ->
  accepts quoted = Some (offer :: others) ->
  result (startPayment cfg w walletAddress devBypass)
  = if (acc_network offer =? "arbitrum")%string
    then Returned
           {| req_network := acc_network offer;
              req_token := acc_asset offer;
              req_recipient := acc_payTo offer;
              req_amount := acc_maxAmountRequired offer;
              req_nonce :=
                or_else (match acc_extra offer with
                         | Some extra => extra_nonce extra
                         | None => None
                         end) "";
              req_deadline :=
                match (match acc_extra offer with
                       | Some extra => extra_deadline extra
                       | None => None
                       end) with
                | Some d => if truthy (JNum d) then d else now_ms w + 3600000
                | None => now_ms w + 3600000
                end |}
    else Thrown "Only Arbitrum network is supported".
Proof.
  intros Hb Hc Hans Hok Hjson Hacc. unfold startPayment.
  rewrite <- bypass_condition in Hb. apply not_true_is_false in Hb. rewrite Hb.
  apply configured_condition in Hc. rewrite Hc.
  fold (quote_request cfg). unfold await_fetch, await. rewrite Hans. eff_reduce.
  assert (Hpass : negb (ok response) && negb (status response =? 402) = false).
  { destruct Hok as [-> | ->]; [reflexivity | apply andb_false_r]. }
  rewrite Hpass, Hjson. eff_reduce. cbn [get]. rewrite Hacc. eff_reduce.
  destruct (acc_network offer =? "arbitrum")%string; reflexivity.
Qed.

(** X2.  Whatever the path, requirements that [startPayment] returns name
    the network [arbitrum]: the bypass path writes it, the live path
    returns the first offer's network only after comparing it. *)
Theorem startPayment_returns_arbitrum :
  forall (cfg : Config) (w : StartWorld) (walletAddress : string)
         (devBypass : option string) (requirements : PaymentRequirements),
    result (startPayment cfg w walletAddress devBypass) = Returned requirements ->
    req_network requirements = "arbitrum".
Proof.
  intros cfg w walletAddress devBypass requirements.
  destruct (bypass_guard_dec cfg devBypass) as [Hb | Hb].
  - rewrite (startPayment_bypass cfg w walletAddress devBypass Hb).
    cbn [result snd]. intros H. injection H as <-. reflexivity.
  - destruct (quote_configured_dec cfg) as [Hc | Hc].
    + unfold startPayment.
      rewrite <- bypass_condition in Hb. apply not_true_is_false in Hb. rewrite Hb.
      apply configured_condition in Hc. rewrite Hc.
      unfold await_fetch, await.
      destruct (quote w _) as [message | response]; eff_reduce; [discriminate |].
      destruct (negb (ok response) && negb (status response =? 402)); eff_reduce.
      * destruct (text response); discriminate.
      * destruct (json response) as [facilitatorData | message]; eff_reduce;
          [| discriminate].
        destruct (get facilitatorData accepts) as [[[| acceptsItem rest] |] | message];
          eff_reduce; try discriminate.
        destruct (acc_network acceptsItem =? "arbitrum")%string eqn:Hnet;
          eff_reduce; [| discriminate].
        intros H. injection H as <-. cbn [req_network].
        now apply String.eqb_eq.
    + rewrite (startPayment_not_configured cfg w walletAddress devBypass Hb Hc).
      discriminate.
Qed.

Lemma startPayment_returns_arbitrum_witness :
  exists requirements,
    result (startPayment example_cfg quoting_world example_wallet None)
    = Returned requirements
    /\ req_network requirements = "arbitrum".
Proof.
  eexists. split; [reflexivity |].
  apply (startPayment_returns_arbitrum example_cfg quoting_world example_wallet None).
  reflexivity.
Defined.

(** X3.  Of the offers in a quote, [startPayment] reads the first and no
    other: two quotes that agree on their first offer give the same
    outcome, whatever follows it.  A first offer on another network is an
    error even when an Arbitrum offer follows; a first offer on Arbitrum is
    returned with the facilitator's token, recipient and amount as they
    are.  A response with status 402 is read like a success response. *)
Theorem startPayment_reads_first_offer :
  forall (cfg : Config) (w w' : StartWorld) (walletAddress : string)
         (devBypass : option string)
         (response response' : HttpResponse QuoteData) (quoted quoted' : QuoteData)
         (offer : AcceptsItem) (others others' : list AcceptsItem),
    ~ bypass_guard cfg devBypass ->
    quote_configured cfg ->
    now_ms w = now_ms w' ->
    quote w (quote_request cfg) = Responds response ->
    quote w' (quote_request cfg) = Responds response' ->
    ok response = true \/ status response = 402 ->
    ok response' = true \/ status response' = 402 ->
    json response = Returned (ArgObject quoted) ->
    json response' = Returned (ArgObject quoted') ->
    accepts quoted = Some (offer :: others) ->
    accepts quoted' = Some (offer :: others') ->
    let run := startPayment cfg w walletAddress devBypass in
    let run' := startPayment cfg w' walletAddress devBypass in
    result run = result run'
    /\ events run = events run'
    /\ (acc_network offer <> "arbitrum" ->
        result run = Thrown "Only Arbitrum network is supported")
    /\ (acc_network offer = "arbitrum" ->
        exists requirements,
          result run = Returned requirements
          /\ req_token requirements = acc_asset offer
          /\ req_recipient requirements = acc_payTo offer
          /\ req_amount requirements = acc_maxAmountRequired offer).
Proof.
  intros cfg w w' walletAddress devBypass response response' quoted quoted'
         offer others others' Hb Hc Hnow Hq Hq' Hok Hok' Hj Hj' Ha Ha' run run'.
  subst run run'.
  rewrite (startPayment_first_offer cfg w walletAddress devBypass response quoted
             offer others Hb Hc Hq Hok Hj Ha).
  rewrite (startPayment_first_offer cfg w' walletAddress devBypass response' quoted'
             offer others' Hb Hc Hq' Hok' Hj' Ha').
  rewrite !(startPayment_live_events cfg _ walletAddress devBypass Hb Hc).
  rewrite Hnow. split; [reflexivity |]. split; [reflexivity |]. split.
  - intros Hnet. apply String.eqb_neq in Hnet. now rewrite Hnet.
  - intros Hnet. apply String.eqb_eq in Hnet. rewrite Hnet.
    eexists. split; [reflexivity |]. repeat split.
Qed.

Lemma startPayment_reads_first_offer_witness :
  let run := startPayment example_cfg
               (offering_world 1700000000000 402 [base_offer; arbitrum_offer])
               example_wallet None in
  let run' := startPayment example_cfg
                (offering_world 1700000000000 200 [base_offer])
                example_wallet None in
  result run = result run'
  /\ events run = events run'
  /\ (acc_network base_offer <> "arbitrum" ->
      result run = Thrown "Only Arbitrum network is supported")
  /\ (acc_network base_offer = "arbitrum" ->
      exists requirements,
        result run = Returned requirements
        /\ req_token requirements = acc_asset base_offer
        /\ req_recipient requirements = acc_payTo base_offer
        /\ req_amount requirements = acc_maxAmountRequired base_offer).
Proof.
  apply (startPayment_reads_first_offer example_cfg
           (offering_world 1700000000000 402 [base_offer; arbitrum_offer])
           (offering_world 1700000000000 200 [base_offer])
           example_wallet None
           (mkHttpResponse 402 (Returned "quote")
              (Returned (ArgObject {| accepts := Some [base_offer; arbitrum_offer] |})))
           (mkHttpResponse 200 (Returned "quote")
              (Returned (ArgObject {| accepts := Some [base_offer] |})))
           {| accepts := Some [base_offer; arbitrum_offer] |}
           {| accepts := Some [base_offer] |}
           base_offer [arbitrum_offer] []).
  - intros (Hprod & _). now apply Hprod.
  - split; discriminate.
  - reflexivity.
  - reflexivity.
  - reflexivity.
  - right. reflexivity.
  - left. reflexivity.
  - reflexivity.
  - reflexivity.
  - reflexivity.
  - reflexivity.
Defined.

(** X4.  When the first offer of a quote names no nonce, or an empty one,
    the live path still returns requirements, with the empty string for a
    nonce; [validateRequirements] refuses them, whatever the address
    check: the settle route cannot be passed with what the start service
    returned. *)
Theorem startPayment_missing_nonce_unusable :
  forall (cfg : Config) (w : StartWorld) (walletAddress : string)
         (devBypass : option string)
         (response : HttpResponse QuoteData) (quoted : QuoteData)
         (offer : AcceptsItem) (others : list AcceptsItem),
    ~ bypass_guard cfg devBypass ->
    quote_configured cfg ->
    quote w (quote_request cfg) = Responds response ->
    ok response = true \/ status response = 402 ->
    json response = Returned (ArgObject quoted) ->
    accepts quoted = Some (offer :: others) ->
    acc_network offer = "arbitrum" ->
    nonceless offer ->
    exists requirements,
      result (startPayment cfg w walletAddress devBypass) = Returned requirements
      /\ req_nonce requirements = ""
      /\ forall (Lib : Type) (isAddress : Value -> Checked Lib bool) (lib : Lib),
           validateRequirements isAddress (requirements_arg requirements) lib
           = (Returned false, lib).
Proof.
  intros cfg w walletAddress devBypass response quoted offer others
         Hb Hc Hq Hok Hj Ha Hnet Hnonce.
  rewrite (startPayment_first_offer cfg w walletAddress devBypass response quoted
             offer others Hb Hc Hq Hok Hj Ha).
  apply String.eqb_eq in Hnet. rewrite Hnet.
  eexists. split; [reflexivity |].
  assert (Hempty : or_else (match acc_extra offer with
                            | Some extra => extra_nonce extra
                            | None => None
                            end) "" = "").
  { destruct Hnonce as [-> | (extra & -> & [-> | ->])]; reflexivity. }
  cbn [req_nonce]. split; [exact Hempty |].
  intros Lib isAddress lib.
  rewrite validateRequirements_typed. cbn [req_nonce]. rewrite Hempty.
  cbn [String.eqb negb]. now rewrite andb_false_r.
Qed.

Lemma startPayment_missing_nonce_unusable_witness :
  exists requirements,
    result (startPayment example_cfg
              (offering_world 1700000000000 402 [nonceless_offer])
              example_wallet None)
    = Returned requirements
    /\ req_nonce requirements = ""
    /\ forall (Lib : Type) (isAddress : Value -> Checked Lib bool) (lib : Lib),
         validateRequirements isAddress (requirements_arg requirements) lib
         = (Returned false, lib).
Proof.
  apply (startPayment_missing_nonce_unusable example_cfg
           (offering_world 1700000000000 402 [nonceless_offer])
           example_wallet None
           (mkHttpResponse 402 (Returned "quote")
              (Returned (ArgObject {| accepts := Some [nonceless_offer] |})))
           {| accepts := Some [nonceless_offer] |}
           nonceless_offer []).
  - intros (Hprod & _). now apply Hprod.
  - split; discriminate.
  - reflexivity.
  - right. reflexivity.
  - reflexivity.
  - reflexivity.
  - reflexivity.
  - left. reflexivity.
Defined.


Lemma address_check_string (s : string) (cache : Cache) :
  answer (address_check (VString s) cache) = Returned (test_0x_hex 40 s).
Proof.
  unfold address_check, answer. cbn [unconvertible address_text].
  destruct (existsb (String.eqb s) cache); [reflexivity |].
  destruct (test_0x_hex 40 s); reflexivity.
Qed.


(** ** services/payment.ts: when the facilitator is called *)

Lemma facilitator_calls_schedule (cfg : Config) (request : SettleRequest)
    (t : list Event) :
  Forall (live_event cfg request) t ->
  facilitator_calls t = settle_calls t.
Proof.
  unfold facilitator_calls, settle_calls.
  induction 1 as [| e t He _ IH]; [reflexivity |].
  destruct He as [-> | [(ms & ->) | (line & ->)]]; cbn; now rewrite ?IH.
Qed.

(** X6.  [startPayment] and [settlePayment] make a request to the
    facilitator exactly when the bypass is not taken and the
    configuration they need is present: on the bypass path and on a
    missing configuration nothing leaves the process, and the bypass is
    looked at first, so with it a missing configuration goes unnoticed.
    The live path of [startPayment] makes one request; the live path of
    [settlePayment] makes between one and four, all to the settle
    endpoint. *)
Theorem facilitator_called_only_on_live_path :
  forall (cfg : Config) (w : StartWorld) (walletAddress : string)
         (facilitator : Facilitator)
         (requirements : PaymentRequirements) (permit : Permit)
         (devBypass : option string),
    let start := startPayment cfg w walletAddress devBypass in
    let settle := settlePayment cfg facilitator requirements permit devBypass in
    (facilitator_calls (events start) = 0%nat
     <-> bypass_guard cfg devBypass \/ ~ quote_configured cfg)
    /\ (facilitator_calls (events settle) = 0%nat
        <-> bypass_guard cfg devBypass \/ ~ settle_configured cfg)
    /\ (facilitator_calls (events start) <= 1)%nat
    /\ (facilitator_calls (events settle) <= 4)%nat
    /\ facilitator_calls (events settle) = settle_calls (events settle).
Proof.
  intros cfg w walletAddress facilitator requirements permit devBypass start settle.
  subst start settle.
  destruct (bypass_guard_dec cfg devBypass) as [Hb | Hb].
  - rewrite (startPayment_bypass cfg w walletAddress devBypass Hb),
            (settlePayment_bypass cfg facilitator requirements permit devBypass Hb).
    cbn. repeat split; auto; lia.
  - assert (Hstart :
      (facilitator_calls (events (startPayment cfg w walletAddress devBypass)) = 0%nat
       <-> bypass_guard cfg devBypass \/ ~ quote_configured cfg)
      /\ (facilitator_calls (events (startPayment cfg w walletAddress devBypass)) <= 1)%nat).
    { destruct (quote_configured_dec cfg) as [Hc | Hc].
      - rewrite (startPayment_live_events cfg w walletAddress devBypass Hb Hc).
        cbn. split; [| lia]. split; [discriminate | tauto].
      - rewrite (startPayment_not_configured cfg w walletAddress devBypass Hb Hc).
        cbn. split; [| lia]. split; [tauto | reflexivity]. }
    destruct Hstart as (Hstart & Hone). split; [exact Hstart |].
    destruct (settle_configured_dec cfg) as [Hc | Hc].
    + pose proof (settlePayment_shape cfg facilitator requirements permit devBypass
                    Hb Hc) as Hshape.
      cbv zeta in Hshape. destruct Hshape as (Hk & _ & Hlive & Hcalls & _).
      rewrite (facilitator_calls_schedule cfg _ _ Hlive), Hcalls.
      repeat split; try tauto; try lia.
    + rewrite (settlePayment_not_configured cfg facilitator requirements permit
                 devBypass Hb Hc).
      cbn. repeat split; try tauto; lia.
Qed.

(** ** services/payment.ts: how [settlePayment] ends *)

Lemma attempts_prefix (message : string) :
  "Payment settlement failed after " ++ Z_to_string (Z.of_nat maxRetries)
    ++ " attempts: " ++ message
  = "Payment settlement failed after 4 attempts: " ++ message.
Proof. reflexivity. Qed.

Section RetryLoopEnd.

Variable cfg : Config.
Variable request : SettleRequest.
Variable facilitator : Facilitator.

(** The last attempt, when it does not settle, throws the error of that
    attempt behind the count of attempts. *)
Lemma settle_iteration_last_detail (lastError : option string) :
  settles (facilitator request maxRetries) = None ->
  result (settle_iteration cfg request facilitator maxRetries lastError)
  = Thrown ("Payment settlement failed after 4 attempts: "
            ++ failure_detail (facilitator request maxRetries)).
Proof.
  intros Hs. rewrite <- attempts_prefix.
  unfold settle_iteration, settle_try, await_fetch, await, failure_detail.
  destruct (facilitator request maxRetries) as [message | response];
    cbn [settles] in Hs; eff_reduce.
  - rewrite (Nat.eqb_refl maxRetries). reflexivity.
  - destruct (ok response).
    + destruct (json response) as [data | message]; eff_reduce.
      * destruct (extract_txHash data) as [hash | message];
          [discriminate Hs |].
        eff_reduce. rewrite (Nat.eqb_refl maxRetries). reflexivity.
      * rewrite (Nat.eqb_refl maxRetries). reflexivity.
    + destruct (text response) as [errorText | message]; eff_reduce;
        rewrite ?(Nat.eqb_refl maxRetries), ?orb_true_r; eff_reduce;
        rewrite ?(Nat.eqb_refl maxRetries); reflexivity.
Qed.

(** When no attempt settles, the loop throws the last attempt's error. *)
Lemma settle_loop_exhausted (remaining attempt : nat) (lastError : option string) :
  (attempt + remaining = S maxRetries)%nat ->
  (1 <= remaining)%nat ->
  (forall n, (attempt <= n <= maxRetries)%nat ->
             settles (facilitator request n) = None) ->
  result (settle_loop cfg request facilitator remaining attempt lastError)
  = Thrown ("Payment settlement failed after 4 attempts: "
            ++ failure_detail (facilitator request maxRetries)).
Proof.
  revert attempt lastError.
  induction remaining as [| rest IH]; intros attempt lastError Hsum Hpos Hnone; [lia |].
  cbn [settle_loop].
  assert (Hs : settles (facilitator request attempt) = None) by (apply Hnone; lia).
  destruct rest as [| rest'].
  - assert (attempt = maxRetries) as -> by lia.
    pose proof (settle_iteration_last_detail lastError Hs) as Hlast.
    destruct (settle_iteration cfg request facilitator maxRetries lastError)
      as [t r]. cbn [result snd] in Hlast. subst r. reflexivity.
  - assert (Hne : attempt <> maxRetries) by lia.
    destruct (settle_iteration_retry cfg request facilitator attempt lastError Hs Hne)
      as (logs & lastError' & -> & _).
    cbn [bind].
    specialize (IH (S attempt) lastError' ltac:(lia) ltac:(lia)).
    rewrite <- IH by (intros n Hn; apply Hnone; lia).
    destruct (settle_loop cfg request facilitator (S rest') (S attempt) lastError')
      as [t r]. reflexivity.
Qed.

(** The loop throws only when no attempt settled. *)
Lemma settle_loop_thrown (remaining attempt : nat) (lastError : option string)
    (message : string) :
  (attempt + remaining = S maxRetries)%nat ->
  (1 <= remaining)%nat ->
  result (settle_loop cfg request facilitator remaining attempt lastError)
  = Thrown message ->
  forall n, (attempt <= n <= maxRetries)%nat ->
            settles (facilitator request n) = None.
Proof.
  revert attempt lastError.
  induction remaining as [| rest IH]; intros attempt lastError Hsum Hpos Hthrown n Hn;
    [lia |].
  cbn [settle_loop] in Hthrown.
  destruct (settles (facilitator request attempt)) as [value |] eqn:Hs.
  - rewrite (settle_iteration_success cfg request facilitator attempt lastError
               value Hs) in Hthrown.
    discriminate Hthrown.
  - destruct rest as [| rest'].
    + assert (n = attempt) as -> by lia. exact Hs.
    + assert (Hne : attempt <> maxRetries) by lia.
      destruct (settle_iteration_retry cfg request facilitator attempt lastError Hs Hne)
        as (logs & lastError' & Hiter & _).
      rewrite Hiter in Hthrown. cbn [bind] in Hthrown.
      destruct (Nat.eq_dec n attempt) as [-> | Hother]; [exact Hs |].
      apply (IH (S attempt) lastError'); try lia.
      destruct (settle_loop cfg request facilitator (S rest') (S attempt) lastError')
        as [t r]. exact Hthrown.
Qed.

End RetryLoopEnd.

(** A transaction reference that was read is not empty, and comes from
    a body that is neither [null] nor [undefined]. *)
Lemma extract_txHash_populated (data : JsArg SettleData) (hash : string) :
  extract_txHash data = Returned hash ->
  hash <> "" /\ data <> ArgNull /\ data <> ArgUndefined.
Proof.
  intros H. destruct data as [| | t | d]; try discriminate H.
  - injection H as <-. repeat split; discriminate.
  - split; [| split; discriminate].
    unfold extract_txHash, populated, or_else in H. cbn [get obind] in H.
    assert (Hor : forall (x : option string) (h : string),
               match x with
               | Some s => if truthy (JStr s) then s else "unknown"
               | None => "unknown"
               end = h -> h <> "").
    { intros [s |] h <-; [| discriminate].
      destruct (truthy (JStr s)) eqn:Hs; [now apply truthy_str | discriminate]. }
    destruct (data_txHash d) as [h |].
    + destruct (truthy (JStr h)) eqn:Hh.
      * injection H as <-. now apply truthy_str.
      * destruct (data_transactionHash d) as [h' |].
        -- destruct (truthy (JStr h')) eqn:Hh'.
           ++ injection H as <-. now apply truthy_str.
           ++ injection H as H. now apply Hor in H.
        -- injection H as H. now apply Hor in H.
    + destruct (data_transactionHash d) as [h' |].
      * destruct (truthy (JStr h')) eqn:Hh'.
        -- injection H as <-. now apply truthy_str.
        -- injection H as H. now apply Hor in H.
      * injection H as H. now apply Hor in H.
Qed.

Lemma all_attempts_made (cfg : Config) (facilitator : Facilitator)
    (request : SettleRequest) :
  (forall n, (1 <= n <= maxRetries)%nat -> settles (facilitator request n) = None) ->
  calls_needed (facilitator request) maxRetries 1 = 4%nat.
Proof.
  intros Hnone.
  pose proof (calls_needed_bounds (facilitator request) maxRetries 1 ltac:(unfold maxRetries; lia))
    as Hk.
  pose proof (calls_needed_no_success (facilitator request) maxRetries 1 4
                ltac:(unfold maxRetries; lia)) as Hall.
  unfold maxRetries in *.
  assert (4 <= calls_needed (facilitator request) 4 1)%nat; [| lia].
  apply Hall. intros m Hm. unfold succeeds. rewrite Hnone; [reflexivity | lia].
Qed.

(** X7.  On the live path [settlePayment] throws exactly when none of
    the four attempts settles, and then always after four calls and waits
    of 1000, 2000 and 4000 ms; the error counts the attempts and carries
    what the fourth attempt left behind, nothing of the earlier ones.
    The fallback [throw] after the loop is never reached. *)
Theorem settlePayment_fails_only_exhausted :
  forall (cfg : Config) (facilitator : Facilitator)
         (requirements : PaymentRequirements) (permit : Permit)
         (devBypass : option string),
    ~ bypass_guard cfg devBypass ->
    settle_configured cfg ->
    let run := settlePayment cfg facilitator requirements permit devBypass in
    let request := build_facilitatorRequest cfg requirements permit in
    (forall message,
        result run = Thrown message
        <-> (forall n, (1 <= n <= 4)%nat -> settles (facilitator request n) = None)
            /\ message = "Payment settlement failed after 4 attempts: "
                         ++ failure_detail (facilitator request 4%nat))
    /\ ((exists message, result run = Thrown message) ->
        settle_calls (events run) = 4%nat
        /\ sleeps (events run) = [1000; 2000; 4000]).
Proof.
  intros cfg facilitator requirements permit devBypass Hb Hc run request.
  assert (Hrun : run = settle_loop cfg request facilitator maxRetries 1 None)
    by (apply settlePayment_live; assumption).
  assert (Hiff : forall message,
             result run = Thrown message
             <-> (forall n, (1 <= n <= 4)%nat -> settles (facilitator request n) = None)
                 /\ message = "Payment settlement failed after 4 attempts: "
                              ++ failure_detail (facilitator request 4%nat)).
  { intros message. rewrite Hrun. split.
    - intros Hthrown.
      pose proof (settle_loop_thrown cfg request facilitator maxRetries 1 None message
                    eq_refl ltac:(unfold maxRetries; lia) Hthrown) as Hnone.
      split; [exact Hnone |].
      rewrite (settle_loop_exhausted cfg request facilitator maxRetries 1 None
                 eq_refl ltac:(unfold maxRetries; lia) Hnone) in Hthrown.
      injection Hthrown as <-. reflexivity.
    - intros (Hnone & ->).
      apply (settle_loop_exhausted cfg request facilitator maxRetries 1 None
               eq_refl ltac:(unfold maxRetries; lia) Hnone). }
  split; [exact Hiff |].
  intros (message & Hthrown). apply Hiff in Hthrown as (Hnone & _).
  pose proof (settlePayment_shape cfg facilitator requirements permit devBypass Hb Hc)
    as Hshape.
  cbv zeta in Hshape. fold run request in Hshape.
  destruct Hshape as (_ & _ & _ & Hcalls & Hsleeps & _).
  rewrite (all_attempts_made cfg facilitator request Hnone) in Hcalls, Hsleeps.
  split; [exact Hcalls | exact Hsleeps].
Qed.

Lemma settlePayment_fails_only_exhausted_witness :
  let run := settlePayment example_cfg refusing_facilitator example_requirements
               example_permit None in
  let request := build_facilitatorRequest example_cfg example_requirements
                   example_permit in
  (forall message,
      result run = Thrown message
      <-> (forall n, (1 <= n <= 4)%nat -> settles (refusing_facilitator request n) = None)
          /\ message = "Payment settlement failed after 4 attempts: "
                       ++ failure_detail (refusing_facilitator request 4%nat))
  /\ ((exists message, result run = Thrown message) ->
      settle_calls (events run) = 4%nat
      /\ sleeps (events run) = [1000; 2000; 4000]).
Proof.
  apply (settlePayment_fails_only_exhausted example_cfg refusing_facilitator
           example_requirements example_permit None).
  - intros (Hprod & _). now apply Hprod.
  - split; discriminate.
Defined.

(** X8.  What [settlePayment] returns is always marked successful and
    always carries a transaction reference that is not empty; the
    facilitator's response in it is [null] exactly on the bypass path,
    where the reference is [dev-bypass]. *)
Theorem settlePayment_returns_receipt :
  forall (cfg : Config) (facilitator : Facilitator)
         (requirements : PaymentRequirements) (permit : Permit)
         (devBypass : option string) (value : SettleReturn),
    result (settlePayment cfg facilitator requirements permit devBypass)
    = Returned value ->
    success value = true
    /\ txHash value <> ""
    /\ (facilitatorResponse value = ArgNull <-> bypass_guard cfg devBypass)
    /\ (bypass_guard cfg devBypass -> txHash value = "dev-bypass").
Proof.
  intros cfg facilitator requirements permit devBypass value.
  destruct (bypass_guard_dec cfg devBypass) as [Hb | Hb].
  - rewrite (settlePayment_bypass cfg facilitator requirements permit devBypass Hb).
    cbn [result snd]. intros H. injection H as <-.
    cbn [success txHash facilitatorResponse].
    split; [reflexivity |]. split; [discriminate |]. split; [tauto | reflexivity].
  - destruct (settle_configured_dec cfg) as [Hc | Hc].
    + pose proof (settlePayment_shape cfg facilitator requirements permit devBypass
                    Hb Hc) as Hshape.
      cbv zeta in Hshape. destruct Hshape as (_ & _ & _ & _ & _ & Hend).
      intros Hret. rewrite Hret in Hend.
      destruct (settles _) as [value' |] eqn:Hs;
        [| destruct Hend as (m & Hm); discriminate Hm].
      injection Hend as <-.
      destruct (facilitator _ _) as [message | response];
        cbn [settles] in Hs; [discriminate Hs |].
      destruct (ok response); [| discriminate Hs].
      destruct (json response) as [data | message]; [| discriminate Hs].
      destruct (extract_txHash data) as [hash |] eqn:Hhash; [| discriminate Hs].
      injection Hs as <-. cbn [success txHash facilitatorResponse].
      apply extract_txHash_populated in Hhash as (Hne & Hnull & _).
      split; [reflexivity |]. split; [exact Hne |]. tauto.
    + rewrite (settlePayment_not_configured cfg facilitator requirements permit
                 devBypass Hb Hc).
      discriminate.
Qed.

Lemma settlePayment_returns_receipt_witness :
  exists value,
    result (settlePayment example_cfg flaky_facilitator example_requirements
              example_permit None) = Returned value
    /\ success value = true
    /\ txHash value <> ""
    /\ (facilitatorResponse value = ArgNull <-> bypass_guard example_cfg None)
    /\ (bypass_guard example_cfg None -> txHash value = "dev-bypass").
Proof.
  eexists. split; [vm_compute; reflexivity |].
  apply (settlePayment_returns_receipt example_cfg flaky_facilitator
           example_requirements example_permit None).
  vm_compute. reflexivity.
Defined.

(** ** services/payment.ts: the signature's components *)

Lemma substring_0_0 (s : string) : substring 0 0 s = "".
Proof. now destruct s. Qed.

Lemma substring_full (s : string) : substring 0 (String.length s) s = s.
Proof. induction s as [| c s IH]; [reflexivity |]. simpl. now rewrite IH. Qed.

Lemma substring_split (a m : nat) (s : string) :
  substring 0 (a + m) s = substring 0 a s ++ substring a m s.
Proof.
  revert s. induction a as [| a IH]; intros s.
  - now rewrite substring_0_0.
  - destruct s as [| c s]; [reflexivity |]. simpl. now rewrite IH.
Qed.

Lemma substring_split_at (a m m' : nat) (s : string) :
  substring a (m + m') s = substring a m s ++ substring (a + m) m' s.
Proof.
  revert s. induction a as [| a IH]; intros s.
  - apply substring_split.
  - destruct s as [| c s]; [reflexivity |]. simpl. apply IH.
Qed.

Lemma hex_run_substring (a m n : nat) (s : string) :
  hex_run n s = true ->
  (a + m <= n)%nat ->
  hex_run m (substring a m s) = true.
Proof.
  revert m n s. induction a as [| a IHa].
  - induction m as [| m IHm]; intros n s Hrun Hle.
    + now rewrite substring_0_0.
    + destruct n as [| n]; [lia |].
      destruct s as [| c s]; [discriminate Hrun |].
      simpl in Hrun. apply andb_prop in Hrun as [Hc Hrun].
      simpl. rewrite Hc. apply (IHm n); [exact Hrun | lia].
  - intros m n s Hrun Hle.
    destruct n as [| n]; [lia |].
    destruct s as [| c s]; [discriminate Hrun |].
    simpl in Hrun. apply andb_prop in Hrun as [_ Hrun].
    simpl. apply (IHa m n); [exact Hrun | lia].
Qed.

(** [parseInt(t, 16)] of two hexadecimal digits is a byte. *)
Lemma parseInt16_byte (t : string) :
  hex_run 2 t = true ->
  exists v, parseInt16 t = Some v /\ 0 <= v < 256.
Proof.
  destruct t as [| a [| b [| c t]]]; try discriminate.
  - simpl. rewrite andb_false_r. discriminate.
  - simpl. rewrite andb_true_r. intros H. apply andb_prop in H as [Ha Hb].
    apply is_hex_digit_chars in Ha, Hb. simpl in Ha, Hb.
    repeat (destruct Ha as [<- | Ha]; [| ]);
      try contradiction;
      repeat (destruct Hb as [<- | Hb]; [| ]);
      try contradiction;
      (eexists; split; [vm_compute; reflexivity | lia]).
  - simpl. intros H. apply andb_prop in H as [_ H]. apply andb_prop in H as [_ H].
    discriminate H.
Qed.

(** A body object that reads as a permit of the declared type is an
    object whose [sig] is a string. *)
Lemma as_permit_object (permit : Value) (typed : Permit) :
  as_permit permit = Some typed ->
  truthy_value permit = true
  /\ typeof_object_value permit = true
  /\ field_value permit "sig" = VString (permit_sig typed).
Proof.
  intros H. unfold as_permit in H.
  destruct permit as [| | b | n | text | items | fields];
    try discriminate H.
  split; [reflexivity |]. split; [reflexivity |].
  unfold field_value.
  destruct (property (VObject fields) "owner") as [[| | | | owner | |] |];
    try discriminate H.
  destruct (property (VObject fields) "spender") as [[| | | | spender | |] |];
    try discriminate H.
  destruct (property (VObject fields) "value") as [[| | | | value | |] |];
    try discriminate H.
  destruct (property (VObject fields) "deadline") as [[| | | [| | deadline |] | | |] |];
    try discriminate H.
  destruct (property (VObject fields) "nonce") as [[| | | | nonce | |] |];
    try discriminate H.
  destruct (property (VObject fields) "sig") as [[| | | | sig | |] |];
    try discriminate H.
  injection H as <-. reflexivity.
Qed.

(** X9.  For a permit whose fields have the types [settlePayment]
    declares, [sig] a string among them, and which [validatePermit]
    accepts, the components that [settlePayment] cuts out of the
    signature are well formed: [r] and
    [s] are [0x] and 64 hexadecimal characters each, [v] is a number read
    from the last two characters, between 0 and 255 (no other check is
    made on it), and the three pieces put together again are the
    signature.  (The validator also accepts a [sig] sent as an array of
    one such string, of which this says nothing.) *)
Theorem signature_components_of_valid_permit :
  forall (read_numeral : string -> Number) (Lib : Type)
         (isAddress : Value -> Checked Lib bool) (now_ms : Z) (cfg : Config)
         (requirements : PaymentRequirements) (permit : Value) (typed : Permit)
         (lib : Lib),
    answer (validatePermit read_numeral isAddress now_ms permit lib) = Returned true ->
    as_permit permit = Some typed ->
    let payload :=
      pp_payload (sr_paymentPayload (build_facilitatorRequest cfg requirements typed)) in
    test_0x_hex 64 (pl_r payload) = true
    /\ test_0x_hex 64 (pl_s payload) = true
    /\ exists v tail,
         pl_v payload = Some v
         /\ 0 <= v < 256
         /\ parseInt16 tail = Some v
         /\ String.length tail = 2%nat
         /\ permit_sig typed
            = pl_r payload ++ substring 2 64 (pl_s payload) ++ tail.
Proof.
  intros read_numeral Lib isAddress now_ms cfg requirements permit typed lib
         Hvalid Htyped payload.
  destruct (as_permit_object permit typed Htyped) as (Ht & Ho & Hfield).
  assert (Hsig : test_0x_hex 130 (permit_sig typed) = true).
  { unfold answer in Hvalid.
    rewrite (validatePermit_object read_numeral Lib isAddress now_ms permit lib Ht Ho)
      in Hvalid.
    destruct (forallb _ permit_requiredFields); [| discriminate Hvalid].
    destruct (isAddress (field_value permit "owner") lib) as [[[|] | m] lib1];
      try discriminate Hvalid.
    destruct (isAddress (field_value permit "spender") lib1) as [[[|] | m] lib2];
      try discriminate Hvalid.
    rewrite Hfield in Hvalid. unfold test_value in Hvalid.
    cbn [unconvertible matches_0x_hex fst] in Hvalid.
    destruct (test_0x_hex 130 (permit_sig typed)); [reflexivity | discriminate Hvalid]. }
  subst payload.
  cbn [build_facilitatorRequest sr_paymentPayload pp_payload pl_r pl_s pl_v].
  destruct (permit_sig typed) as [| c0 [| c1 h]] eqn:Esig;
    rewrite test_0x_hex_unfold in Hsig; try discriminate Hsig.
  apply andb_prop in Hsig as [Hsig Hrun].
  apply andb_prop in Hsig as [H0 Hx].
  apply Ascii.eqb_eq in H0, Hx. subst c0 c1.
  unfold slice.
  change (substring 0 (66 - 0) (String "0" (String "x" h)))
    with (String "0" (String "x" (substring 0 64 h))).
  change (substring 66 (130 - 66) (String "0" (String "x" h)))
    with (substring 64 64 h).
  change (substring 130 (132 - 130) (String "0" (String "x" h)))
    with (substring 128 2 h).
  split; [| split].
  - change (hex_run 64 (substring 0 64 h) = true).
    apply (hex_run_substring 0 64 130); [exact Hrun | lia].
  - change (hex_run 64 (substring 64 64 h) = true).
    apply (hex_run_substring 64 64 130); [exact Hrun | lia].
  - pose proof (hex_run_substring 128 2 130 h Hrun ltac:(lia)) as Htail.
    destruct (parseInt16_byte _ Htail) as (v & Hv & Hrange).
    exists v, (substring 128 2 h).
    split; [exact Hv |]. split; [exact Hrange |]. split; [exact Hv |]. split.
    + apply hex_run_spec in Htail. tauto.
    + change (substring 2 64 ("0x" ++ substring 64 64 h))
        with (substring 0 64 (substring 64 64 h)).
      pose proof (hex_run_substring 64 64 130 h Hrun ltac:(lia)) as Hs.
      apply hex_run_spec in Hs as [Hlen _].
      pose proof (substring_full (substring 64 64 h)) as Hmid.
      rewrite Hlen in Hmid. rewrite Hmid.
      change (String "0" (String "x" (substring 0 64 h))
              ++ substring 64 64 h ++ substring 128 2 h)
        with (String "0" (String "x"
                (substring 0 64 h ++ substring 64 64 h ++ substring 128 2 h))).
      do 2 f_equal.
      apply hex_run_spec in Hrun as [Hlen130 _].
      pose proof (substring_full h) as Hfull. rewrite Hlen130 in Hfull.
      rewrite <- Hfull at 1.
      change 130%nat with (64 + (64 + 2))%nat.
      rewrite substring_split. f_equal.
      apply (substring_split_at 64 64 2).
Qed.

Lemma signature_components_of_valid_permit_witness :
  let payload :=
    pp_payload (sr_paymentPayload
      (build_facilitatorRequest example_cfg example_requirements example_permit)) in
  test_0x_hex 64 (pl_r payload) = true
  /\ test_0x_hex 64 (pl_s payload) = true
  /\ exists v tail,
       pl_v payload = Some v
       /\ 0 <= v < 256
       /\ parseInt16 tail = Some v
       /\ String.length tail = 2%nat
       /\ permit_sig example_permit
          = pl_r payload ++ substring 2 64 (pl_s payload) ++ tail.
Proof.
  apply (signature_components_of_valid_permit decimal_numeral Cache address_check
           1700000000000 example_cfg example_requirements
           (permit_arg example_permit) example_permit []).
  - vm_compute. reflexivity.
  - reflexivity.
Defined.

(** ** services/supabase.ts: [getPaymentStatus] *)

(** The newest of a wallet's entitlements comes first. *)
Lemma order_entitlements_desc_head (rows : list Entitlement) :
  match order_entitlements_desc rows with
  | [] => rows = []
  | first :: _ =>
      In first rows
      /\ forall x, In x rows -> ent_created_at x <= ent_created_at first
  end.
Proof.
  induction rows as [| e rows IH]; [reflexivity |].
  cbn [order_entitlements_desc fold_right].
  fold (order_entitlements_desc rows).
  destruct (order_entitlements_desc rows) as [| first rest].
  - subst rows. cbn. split; [now left |]. intros x [<- | []]. lia.
  - destruct IH as (Hin & Hmax). cbn [insert_entitlement_desc].
    destruct (ent_created_at first <=? ent_created_at e) eqn:Hle.
    + apply Z.leb_le in Hle. split; [now left |].
      intros x [<- | Hx]; [lia |]. specialize (Hmax x Hx). lia.
    + apply Z.leb_gt in Hle. split; [now right |].
      intros x [<- | Hx]; [lia |]. now apply Hmax.
Qed.

(** A row newer than all the others is the first, wherever it was
    written. *)
Lemma order_entitlements_desc_newest (rows : list Entitlement) (e : Entitlement) :
  (forall x, In x rows -> ent_created_at x < ent_created_at e) ->
  order_entitlements_desc (rows ++ [e]) = e :: order_entitlements_desc rows.
Proof.
  induction rows as [| x rows IH]; intros Holder; [reflexivity |].
  cbn [app order_entitlements_desc fold_right].
  fold (order_entitlements_desc (rows ++ [e])). fold (order_entitlements_desc rows).
  rewrite IH by (intros y Hy; apply Holder; now right).
  cbn [insert_entitlement_desc].
  assert (Hx : ent_created_at x < ent_created_at e) by (apply Holder; now left).
  apply Z.leb_gt in Hx. now rewrite Hx.
Qed.

(** X10.  Against the store, [getPaymentStatus] answers with an empty
    status (no dataset, no entitlement, no expiry, and the time of the
    read) exactly for a wallet that has no entitlement under exactly that
    spelling of its address; it is an answer, not an error. *)
Theorem getPaymentStatus_unknown_wallet :
  forall (walletAddress : string) (now : Z) (db : Store),
    (forall e, In e (entitlements db) -> ent_wallet_address e <> walletAddress)
    <-> getPaymentStatus store_latest_entitlement walletAddress now db
        = Returned {| ps_dataset := None;
                      ps_entitlement := None;
                      ps_now := now;
                      ps_valid_until := None |}.
Proof.
  intros walletAddress now db.
  unfold getPaymentStatus, store_latest_entitlement.
  pose proof (order_entitlements_desc_head
                (filter (fun e => (ent_wallet_address e =? walletAddress)%string)
                        (entitlements db))) as Hhead.
  destruct (order_entitlements_desc _) as [| newest rest].
  - cbn. split; [reflexivity |]. intros _ e He Hw.
    assert (Hin : In e (filter (fun e => (ent_wallet_address e =? walletAddress)%string)
                               (entitlements db))).
    { apply filter_In. split; [exact He | now apply String.eqb_eq]. }
    rewrite Hhead in Hin. exact Hin.
  - cbn. split; [| discriminate].
    intros Hnone. destruct Hhead as (Hin & _).
    apply filter_In in Hin as (Hin & Hw). apply String.eqb_eq in Hw.
    now apply Hnone in Hin.
Qed.

(** X11.  For a wallet with entitlements [getPaymentStatus] reports the
    one created last, and only that one: its validity is the comparison
    of the time of the read with the expiry stored in the entitlement,
    and the dataset shown is the one the entitlement names, if the store
    still has it.  An older entitlement that is still valid is not
    looked at. *)
Theorem getPaymentStatus_reports_newest :
  forall (walletAddress : string) (now : Z) (db : Store) (owned : Entitlement),
    In owned (entitlements db) ->
    ent_wallet_address owned = walletAddress ->
    exists newest,
      In newest (entitlements db)
      /\ ent_wallet_address newest = walletAddress
      /\ (forall x, In x (entitlements db) -> ent_wallet_address x = walletAddress ->
                    ent_created_at x <= ent_created_at newest)
      /\ getPaymentStatus store_latest_entitlement walletAddress now db
         = Returned
             {| ps_dataset :=
                  match find (fun d => (ds_id d =? ent_shared_dataset_id newest)%string)
                             (shared_datasets db) with
                  | Some d => Some {| sd_items := ds_items d;
                                      sd_next_available_at := ds_expires_at d |}
                  | None => None
                  end;
                ps_entitlement :=
                  Some {| se_id := ent_id newest;
                          se_tx_hash := ent_tx_hash newest;
                          se_valid_until := ent_valid_until newest;
                          se_created_at := ent_created_at newest;
                          se_is_valid := now <? ent_valid_until newest |};
                ps_now := now;
                ps_valid_until := Some (ent_valid_until newest) |}.
Proof.
  intros walletAddress now db owned Hin Hw.
  unfold getPaymentStatus, store_latest_entitlement.
  pose proof (order_entitlements_desc_head
                (filter (fun e => (ent_wallet_address e =? walletAddress)%string)
                        (entitlements db))) as Hhead.
  assert (Howned : In owned (filter (fun e => (ent_wallet_address e =? walletAddress)%string)
                                    (entitlements db))).
  { apply filter_In. split; [exact Hin | now apply String.eqb_eq]. }
  destruct (order_entitlements_desc _) as [| newest rest].
  - rewrite Hhead in Howned. destruct Howned.
  - destruct Hhead as (Hnewest & Hmax).
    apply filter_In in Hnewest as (Hnewest & Hwn). apply String.eqb_eq in Hwn.
    exists newest. split; [exact Hnewest |]. split; [exact Hwn |]. split.
    + intros x Hx Hwx. apply Hmax. apply filter_In.
      split; [exact Hx | now apply String.eqb_eq].
    + cbn. reflexivity.
Qed.

Lemma getPaymentStatus_reports_newest_witness :
  (exists newest,
      In newest (entitlements renewed_store)
      /\ ent_wallet_address newest = example_wallet
      /\ (forall x, In x (entitlements renewed_store) ->
                    ent_wallet_address x = example_wallet ->
                    ent_created_at x <= ent_created_at newest)
      /\ getPaymentStatus store_latest_entitlement example_wallet 1700000000000
           renewed_store
         = Returned
             {| ps_dataset :=
                  match find (fun d => (ds_id d =? ent_shared_dataset_id newest)%string)
                             (shared_datasets renewed_store) with
                  | Some d => Some {| sd_items := ds_items d;
                                      sd_next_available_at := ds_expires_at d |}
                  | None => None
                  end;
                ps_entitlement :=
                  Some {| se_id := ent_id newest;
                          se_tx_hash := ent_tx_hash newest;
                          se_valid_until := ent_valid_until newest;
                          se_created_at := ent_created_at newest;
                          se_is_valid := 1700000000000 <? ent_valid_until newest |};
                ps_now := 1700000000000;
                ps_valid_until := Some (ent_valid_until newest) |})
  /\ getPaymentStatus store_latest_entitlement example_wallet 1700000000000
       renewed_store
     = Returned
         {| ps_dataset := None;
            ps_entitlement :=
              Some {| se_id := "ent-2";
                      se_tx_hash := "0xsecond";
                      se_valid_until := 1699995000000;
                      se_created_at := 1699990000000;
                      se_is_valid := false |};
            ps_now := 1700000000000;
            ps_valid_until := Some 1699995000000 |}
  /\ (1700000000000 <? ent_valid_until standing_entitlement) = true.
Proof.
  split; [| split; reflexivity].
  apply (getPaymentStatus_reports_newest example_wallet 1700000000000 renewed_store
           standing_entitlement).
  - left. reflexivity.
  - reflexivity.
Defined.

(** ** services/supabase.ts: the store between the calls *)





Lemma grantDatasetAccess_store (walletAddress sharedDatasetId txHash : string)
    (facilitatorResponse : JsArg SettleData) (db : Store) :
  grantDatasetAccess store_client walletAddress sharedDatasetId txHash
    facilitatorResponse db
  = match find (fun d => (ds_id d =? sharedDatasetId)%string) (shared_datasets db) with
    | Some sharedDataset =>
        let stored :=
          store_insert {| row_wallet_address := walletAddress;
                          row_shared_dataset_id := sharedDatasetId;
                          row_tx_hash := txHash;
                          row_facilitator_response := facilitatorResponse;
                          row_valid_until := ds_expires_at sharedDataset |} db in
        (Returned (fst stored), snd stored)
    | None => (Thrown "Failed to get shared dataset expiration", db)
    end.
Proof.
  unfold grantDatasetAccess, store_client.
  cbn [select_shared_datasets pg_error pg_data insert_entitlement].
  rewrite run_select_by_id.
  destruct (find _ (shared_datasets db)) as [sharedDataset |]; reflexivity.
Qed.


(** After an insert for a wallet whose other entitlements are older,
    the wallet's newest entitlement is the inserted one. *)
Lemma store_latest_entitlement_inserted (row : EntitlementRow) (db : Store) :
  entitlements_older (row_wallet_address row) db ->
  store_latest_entitlement (row_wallet_address row) (snd (store_insert row db))
  = {| single_data :=
         Some {| je_entitlement := fst (store_insert row db);
                 je_shared_dataset :=
                   find (fun d => (ds_id d =? row_shared_dataset_id row)%string)
                        (shared_datasets db) |};
       single_error := None |}.
Proof.
  intros Holder. unfold store_latest_entitlement, store_insert.
  cbn [snd fst entitlements shared_datasets].
  rewrite filter_app. cbn [filter ent_wallet_address].
  rewrite String.eqb_refl.
  rewrite order_entitlements_desc_newest; [reflexivity |].
  intros x Hx. apply filter_In in Hx as (Hx & Hw). apply String.eqb_eq in Hw.
  cbn [ent_created_at]. now apply Holder.
Qed.

(** X12.  Grant, then status: after [grantDatasetAccess] has returned an
    entitlement for a wallet whose earlier entitlements are older than
    the insert, [getPaymentStatus] for that wallet reports this
    entitlement with the transaction reference given, the expiry of the
    dataset granted, and that dataset's items; it is valid exactly until
    the dataset's expiry has come. *)
Theorem grant_then_status :
  forall (walletAddress sharedDatasetId txHash : string)
         (facilitatorResponse : JsArg SettleData) (db db' : Store)
         (entitlement : Entitlement) (now : Z),
    grantDatasetAccess store_client walletAddress sharedDatasetId txHash
      facilitatorResponse db = (Returned entitlement, db') ->
    entitlements_older walletAddress db ->
    exists dataset,
      In dataset (shared_datasets db)
      /\ ds_id dataset = sharedDatasetId
      /\ getPaymentStatus store_latest_entitlement walletAddress now db'
         = Returned
             {| ps_dataset :=
                  Some {| sd_items := ds_items dataset;
                          sd_next_available_at := ds_expires_at dataset |};
                ps_entitlement :=
                  Some {| se_id := ent_id entitlement;
                          se_tx_hash := txHash;
                          se_valid_until := ds_expires_at dataset;
                          se_created_at := store_clock db;
                          se_is_valid := now <? ds_expires_at dataset |};
                ps_now := now;
                ps_valid_until := Some (ds_expires_at dataset) |}.
Proof.
  intros walletAddress sharedDatasetId txHash facilitatorResponse db db'
         entitlement now Hgrant Holder.
  rewrite grantDatasetAccess_store in Hgrant.
  destruct (find _ (shared_datasets db)) as [dataset |] eqn:Hfind;
    [| discriminate Hgrant].
  cbv zeta in Hgrant.
  remember (store_insert
              {| row_wallet_address := walletAddress;
                 row_shared_dataset_id := sharedDatasetId;
                 row_tx_hash := txHash;
                 row_facilitator_response := facilitatorResponse;
                 row_valid_until := ds_expires_at dataset |} db) as stored eqn:Hstored.
  injection Hgrant as <- <-.
  exists dataset.
  pose proof (find_some _ _ Hfind) as (Hin & Hid). apply String.eqb_eq in Hid.
  split; [exact Hin |]. split; [exact Hid |].
  unfold getPaymentStatus.
  pose proof (store_latest_entitlement_inserted
                {| row_wallet_address := walletAddress;
                   row_shared_dataset_id := sharedDatasetId;
                   row_tx_hash := txHash;
                   row_facilitator_response := facilitatorResponse;
                   row_valid_until := ds_expires_at dataset |} db Holder) as Hlatest.
  cbn [row_wallet_address row_shared_dataset_id] in Hlatest.
  rewrite <- Hstored in Hlatest. rewrite Hlatest, Hfind, Hstored. reflexivity.
Qed.

Lemma grant_then_status_witness :
  exists dataset,
    In dataset (shared_datasets example_store)
    /\ ds_id dataset = "ds-1"
    /\ getPaymentStatus store_latest_entitlement example_wallet 1700000001000
         (snd (grantDatasetAccess store_client example_wallet "ds-1" "0xfeed"
                 settled_data example_store))
       = Returned
           {| ps_dataset :=
                Some {| sd_items := ds_items dataset;
                        sd_next_available_at := ds_expires_at dataset |};
              ps_entitlement :=
                Some {| se_id := "ent-1";
                        se_tx_hash := "0xfeed";
                        se_valid_until := ds_expires_at dataset;
                        se_created_at := store_clock example_store;
                        se_is_valid := 1700000001000 <? ds_expires_at dataset |};
              ps_now := 1700000001000;
              ps_valid_until := Some (ds_expires_at dataset) |}.
Proof.
  apply (grant_then_status example_wallet "ds-1" "0xfeed" settled_data example_store
           (snd (grantDatasetAccess store_client example_wallet "ds-1" "0xfeed"
                   settled_data example_store))
           (fst (store_insert
                   {| row_wallet_address := example_wallet;
                      row_shared_dataset_id := "ds-1";
                      row_tx_hash := "0xfeed";
                      row_facilitator_response := settled_data;
                      row_valid_until := 1700003000000 |} example_store))
           1700000001000).
  - reflexivity.
  - intros x [<- | []] _. cbn. lia.
Defined.

(** ** routes/payment.ts: [POST /payment/settle] *)

Lemma settlePayment_success_flag (cfg : Config) (facilitator : Facilitator)
    (requirements : PaymentRequirements) (permit : Permit)
    (devBypass : option string) (value : SettleReturn) :
  result (settlePayment cfg facilitator requirements permit devBypass) = Returned value ->
  success value = true.
Proof.
  destruct (bypass_guard_dec cfg devBypass) as [Hb | Hb].
  - rewrite (settlePayment_bypass cfg facilitator requirements permit devBypass Hb).
    intros H. injection H as <-. reflexivity.
  - destruct (settle_configured_dec cfg) as [Hc | Hc].
    + pose proof (settlePayment_shape cfg facilitator requirements permit devBypass
                    Hb Hc) as Hshape.
      cbv zeta in Hshape. destruct Hshape as (_ & _ & _ & _ & _ & Hend).
      intros Hret. rewrite Hret in Hend.
      destruct (settles _) as [value' |] eqn:Hs;
        [| destruct Hend as (m & Hm); discriminate Hm].
      injection Hend as <-.
      destruct (facilitator _ _) as [message | response];
        cbn [settles] in Hs; [discriminate Hs |].
      destruct (ok response); [| discriminate Hs].
      destruct (json response) as [data | message]; [| discriminate Hs].
      destruct (extract_txHash data) as [hash |]; [| discriminate Hs].
      injection Hs as <-. reflexivity.
    + rewrite (settlePayment_not_configured cfg facilitator requirements permit
                 devBypass Hb Hc).
      discriminate.
Qed.

Section SettleRouteProperties.

Variable read_numeral : string -> Number.
Variable Lib : Type.
Variable isAddress : Value -> Checked Lib bool.
Variable cfg : Config.
Variable facilitator : Facilitator.
Variable settle_untyped :
  Value -> Value -> option string -> Eff (string * JsArg SettleData).
Variable DB : Type.
Variable supabase : SupabaseClient DB.

(** Whatever [settlePayment] returns carries [success: true]. *)
Lemma settle_with_success_flag (requirements permit : Value)
    (devBypass : option string) (value : SettleReturn) :
  result (settle_with cfg facilitator settle_untyped requirements permit devBypass)
  = Returned value ->
  success value = true.
Proof.
  unfold settle_with.
  destruct (as_requirements requirements) as [typed_requirements |];
    [destruct (as_permit permit) as [typed_permit |] |].
  - apply settlePayment_success_flag.
  - destruct (settle_untyped requirements permit devBypass)
      as [trace [[hash response] | message]]; cbn [result snd].
    + intros H. injection H as <-. reflexivity.
    + discriminate.
  - destruct (settle_untyped requirements permit devBypass)
      as [trace [[hash response] | message]]; cbn [result snd].
    + intros H. injection H as <-. reflexivity.
    + discriminate.
Qed.


(** The handler after its three checks. *)
Lemma settle_route_accepted (clock : RouteClock) (reply : ReplyContext)
    (body : SettlePaymentRequest) (lib : Lib) (db : DB) :
  body_accepted read_numeral isAddress clock body lib ->
  settle_route read_numeral isAddress cfg facilitator settle_untyped supabase
    clock reply body lib db
  = let run := settle_with cfg facilitator settle_untyped (body_requirements body)
                 (body_permit body) (body_dev_bypass body) in
    match result run with
    | Thrown message => settle_route_catch reply (events run) message db
    | Returned settlementResult =>
        match getLatestSharedDataset supabase (dataset_read_at clock) db with
        | Thrown message => settle_route_catch reply (events run) message db
        | Returned sharedDataset =>
            let granted :=
              grantDatasetAccess supabase (body_walletAddress body)
                (ds_id sharedDataset) (txHash settlementResult)
                (facilitatorResponse settlementResult) db in
            match fst granted with
            | Thrown message =>
                settle_route_catch reply (events run) message (snd granted)
            | Returned entitlement =>
                {| handled_reply :=
                     successResponse reply
                       {| out_dataset :=
                            {| out_items := ds_items sharedDataset;
                               out_next_available_at := ds_expires_at sharedDataset |};
                          out_entitlement :=
                            {| out_id := ent_id entitlement;
                               out_tx_hash := ent_tx_hash entitlement;
                               out_valid_until := ent_valid_until entitlement;
                               out_created_at := ent_created_at entitlement |} |}
                       200;
                   handled_wire := settle_sent;
                   handled_events := events run;
                   handled_logged := None;
                   handled_db := snd granted |}
            end
        end
    end.
Proof.
  intros (lib1 & lib2 & lib3 & Hw & Hr & Hp). unfold settle_route.
  cbv zeta. unfold validateWalletAddress. rewrite Hw, Hr, Hp.
  pose proof (settle_with_success_flag (body_requirements body) (body_permit body)
                (body_dev_bypass body)) as Hflag.
  destruct (settle_with cfg facilitator settle_untyped (body_requirements body)
              (body_permit body) (body_dev_bypass body)) as [trace settlement].
  cbn [result events fst snd] in *.
  destruct settlement as [settlementResult | message]; [| reflexivity].
  rewrite (Hflag settlementResult eq_refl). cbn [negb].
  destruct (getLatestSharedDataset supabase (dataset_read_at clock) db)
    as [sharedDataset | message]; [| reflexivity].
  destruct (grantDatasetAccess supabase (body_walletAddress body) (ds_id sharedDataset)
              (txHash settlementResult) (facilitatorResponse settlementResult) db)
    as [granted db'].
  cbn [fst snd]. destruct granted; reflexivity.
Qed.

End SettleRouteProperties.
Arguments settle_route_accepted read_numeral {Lib} isAddress cfg facilitator
  settle_untyped {DB} supabase clock reply body lib db.

(** X13.  A request that does not pass the three checks at the head of
    the settle handler (the wallet, then the requirements, then the
    permit) is answered with status 400, the facilitator is not called
    and the database is not touched.  When the first check that does not
    answer [true] answers [false], the reply carries the code of that
    check, an expired permit counting as an invalid signature, and
    nothing is logged.  When it throws, as the address check does on a
    recipient sent as an array, the reply is [PAYMENT_FAILED] with the
    error's message as details, and the error is logged.  The 400 reply
    reaches the client as it was handed over. *)
Theorem settle_route_refuses_invalid_input :
  forall (read_numeral : string -> Number) (Lib : Type)
         (isAddress : Value -> Checked Lib bool)
         (cfg : Config) (facilitator : Facilitator)
         (settle_untyped : Value -> Value -> option string
                           -> Eff (string * JsArg SettleData))
         (DB : Type) (supabase : SupabaseClient DB)
         (clock : RouteClock) (reply : ReplyContext)
         (body : SettlePaymentRequest) (lib : Lib) (db : DB),
    ~ body_accepted read_numeral isAddress clock body lib ->
    let handled :=
      settle_route read_numeral isAddress cfg facilitator settle_untyped supabase
        clock reply body lib db in
    handled_events handled = []
    /\ handled_db handled = db
    /\ handled_wire handled = AsHanded
    /\ exists code message details,
         replied_error (handled_reply handled) 400 code message details
         /\ handled_logged handled = details
         /\ (code, message, details)
            = match isAddress (VString (body_walletAddress body)) lib with
              | (Thrown thrown, _) =>
                  (PAYMENT_FAILED, "Failed to settle payment", Some thrown)
              | (Returned false, _) =>
                  (INVALID_WALLET, "Invalid wallet address format", None)
              | (Returned true, lib1) =>
                  match validateRequirements isAddress (body_requirements body)
                          lib1 with
                  | (Thrown thrown, _) =>
                      (PAYMENT_FAILED, "Failed to settle payment", Some thrown)
                  | (Returned false, _) =>
                      (INVALID_REQUEST, "Invalid payment requirements", None)
                  | (Returned true, lib2) =>
                      match validatePermit read_numeral isAddress
                              (validated_at_ms clock) (body_permit body) lib2 with
                      | (Thrown thrown, _) =>
                          (PAYMENT_FAILED, "Failed to settle payment", Some thrown)
                      | _ => (INVALID_SIGNATURE, "Invalid permit signature", None)
                      end
                  end
              end.
Proof.
  intros read_numeral Lib isAddress cfg facilitator settle_untyped DB supabase
         clock reply body lib db Hnot handled.
  subst handled. unfold body_accepted in Hnot. unfold settle_route.
  cbv zeta. unfold validateWalletAddress.
  destruct (isAddress (VString (body_walletAddress body)) lib)
    as [[[|] | thrown] lib1] eqn:Hw.
  - destruct (validateRequirements isAddress (body_requirements body) lib1)
      as [[[|] | thrown] lib2] eqn:Hr.
    + destruct (validatePermit read_numeral isAddress (validated_at_ms clock)
                  (body_permit body) lib2) as [[[|] | thrown] lib3] eqn:Hp.
      * exfalso. apply Hnot. exists lib1, lib2, lib3. repeat split; assumption.
      * repeat split. do 3 eexists.
        split; [repeat split | split; reflexivity].
      * repeat split. do 3 eexists.
        split; [repeat split | split; reflexivity].
    + repeat split. do 3 eexists. split; [repeat split | split; reflexivity].
    + repeat split. do 3 eexists. split; [repeat split | split; reflexivity].
  - repeat split. do 3 eexists. split; [repeat split | split; reflexivity].
  - repeat split. do 3 eexists. split; [repeat split | split; reflexivity].
Qed.

Lemma settle_route_refuses_invalid_input_witness :
  let handled :=
    settle_route decimal_numeral address_check example_cfg settling_facilitator
      no_untyped_settlement store_client example_clock example_reply
      array_recipient_body [] example_store in
  handled_events handled = []
  /\ handled_db handled = example_store
  /\ handled_wire handled = AsHanded
  /\ exists code message details,
       replied_error (handled_reply handled) 400 code message details
       /\ handled_logged handled = details
       /\ (code, message, details)
          = (PAYMENT_FAILED, "Failed to settle payment",
             Some "TypeError: address.toLowerCase is not a function").
Proof.
  apply (settle_route_refuses_invalid_input decimal_numeral Cache address_check
           example_cfg settling_facilitator no_untyped_settlement Store store_client
           example_clock example_reply array_recipient_body [] example_store).
  intros (lib1 & lib2 & lib3 & Hw & Hr & _).
  vm_compute in Hw. injection Hw as <-.
  vm_compute in Hr. discriminate Hr.
Defined.









(** X17.  Every reply of the settle handler is either a success with
    status 200 or an error with status 400 and one of four pairs of code
    and message; the handler's own test of the settlement's [success]
    flag cannot fail, so the message [Payment settlement failed] is never
    sent, and an error of the database or of the facilitator is answered
    with 400 as well. *)
Theorem settle_route_replies :
  forall (read_numeral : string -> Number) (Lib : Type)
         (isAddress : Value -> Checked Lib bool)
         (cfg : Config) (facilitator : Facilitator)
         (settle_untyped : Value -> Value -> option string
                           -> Eff (string * JsArg SettleData))
         (DB : Type) (supabase : SupabaseClient DB)
         (clock : RouteClock) (reply : ReplyContext)
         (body : SettlePaymentRequest) (lib : Lib) (db : DB),
    let handled :=
      settle_route read_numeral isAddress cfg facilitator settle_untyped supabase
        clock reply body lib db in
    let sent := reply_body (handled_reply handled) in
    (reply_code (handled_reply handled) = 200
     /\ api_success sent = true
     /\ api_error sent = None
     /\ exists data, api_data sent = Some data)
    \/ (reply_code (handled_reply handled) = 400
        /\ api_success sent = false
        /\ api_data sent = None
        /\ exists code message details,
             api_error sent
             = Some {| err_code := code; err_message := message;
                       err_details := details |}
             /\ In (code, message)
                   [(INVALID_WALLET, "Invalid wallet address format");
                    (INVALID_REQUEST, "Invalid payment requirements");
                    (INVALID_SIGNATURE, "Invalid permit signature");
                    (PAYMENT_FAILED, "Failed to settle payment")]
             /\ (code = PAYMENT_FAILED <-> handled_logged handled <> None)).
Proof.
  intros read_numeral Lib isAddress cfg facilitator settle_untyped DB supabase
         clock reply body lib db handled sent.
  subst sent handled.
  assert (Hcatch : forall trace message db',
             let handled := @settle_route_catch DB reply trace message db' in
             reply_code (handled_reply handled) = 400
             /\ api_success (reply_body (handled_reply handled)) = false
             /\ api_data (reply_body (handled_reply handled)) = None
             /\ exists code message details,
                  api_error (reply_body (handled_reply handled))
                  = Some {| err_code := code; err_message := message;
                            err_details := details |}
                  /\ In (code, message)
                        [(INVALID_WALLET, "Invalid wallet address format");
                         (INVALID_REQUEST, "Invalid payment requirements");
                         (INVALID_SIGNATURE, "Invalid permit signature");
                         (PAYMENT_FAILED, "Failed to settle payment")]
                  /\ (code = PAYMENT_FAILED <-> handled_logged handled <> None)).
  { intros trace message db'. cbn. repeat split.
    do 3 eexists. split; [reflexivity |]. split; [do 3 right; now left |].
    split; [discriminate | reflexivity]. }
  destruct (isAddress (VString (body_walletAddress body)) lib)
    as [[[|] | thrown] lib1] eqn:Hw.
  - destruct (validateRequirements isAddress (body_requirements body) lib1)
      as [[[|] | thrown] lib2] eqn:Hr.
    + destruct (validatePermit read_numeral isAddress (validated_at_ms clock)
                  (body_permit body) lib2) as [[[|] | thrown] lib3] eqn:Hp.
      * rewrite (settle_route_accepted read_numeral isAddress cfg facilitator
                   settle_untyped supabase clock reply body lib db).
        2: { exists lib1, lib2, lib3. repeat split; assumption. }
        cbv zeta.
        destruct (result (settle_with cfg facilitator settle_untyped
                            (body_requirements body) (body_permit body)
                            (body_dev_bypass body)))
          as [settlementResult | message]; [| right; apply Hcatch].
        destruct (getLatestSharedDataset supabase (dataset_read_at clock) db)
          as [sharedDataset | message]; [| right; apply Hcatch].
        destruct (fst (grantDatasetAccess supabase (body_walletAddress body)
                         (ds_id sharedDataset) (txHash settlementResult)
                         (facilitatorResponse settlementResult) db))
          as [entitlement | message]; [| right; apply Hcatch].
        left. cbn. repeat split. eexists. reflexivity.
      * right. unfold settle_route, validateWalletAddress. cbv zeta.
        rewrite Hw, Hr, Hp. cbn. repeat split.
        do 3 eexists. split; [reflexivity |]. split; [do 2 right; now left |].
        split; [discriminate | intros H; now contradiction H].
      * right. unfold settle_route, validateWalletAddress. cbv zeta.
        rewrite Hw, Hr, Hp. apply Hcatch.
    + right. unfold settle_route, validateWalletAddress. cbv zeta.
      rewrite Hw, Hr. cbn. repeat split.
      do 3 eexists. split; [reflexivity |]. split; [right; now left |].
      split; [discriminate | intros H; now contradiction H].
    + right. unfold settle_route, validateWalletAddress. cbv zeta.
      rewrite Hw, Hr. apply Hcatch.
  - right. unfold settle_route, validateWalletAddress. cbv zeta.
    rewrite Hw. cbn. repeat split.
    do 3 eexists. split; [reflexivity |]. split; [now left |].
    split; [discriminate | intros H; now contradiction H].
  - right. unfold settle_route, validateWalletAddress. cbv zeta.
    rewrite Hw. apply Hcatch.
Qed.

(** ** routes/payment.ts: [POST /payment/start] *)

(** X18.  The start handler asks the facilitator nothing for a wallet
    address that the address check refuses; otherwise it answers 200 with
    what [startPayment] returned, or 400 [PAYMENT_FAILED] with the message
    of what [startPayment] threw as the details, so that a missing
    facilitator configuration is reported to the caller in those
    words.  At most one request goes to the facilitator. *)
Theorem start_route_replies :
  forall (Lib : Type) (isAddress : Value -> Checked Lib bool)
         (cfg : Config) (w : StartWorld)
         (reply : ReplyContext) (walletAddress : string) (dev_bypass : option string)
         (lib : Lib),
    let handled := start_route isAddress cfg w reply walletAddress dev_bypass lib in
    let run := startPayment cfg w walletAddress dev_bypass in
    (answer (isAddress (VString walletAddress) lib) = Returned false ->
     replied_error (handled_reply handled) 400 INVALID_WALLET
       "Invalid wallet address format" None
     /\ handled_events handled = []
     /\ handled_logged handled = None)
    /\ (answer (isAddress (VString walletAddress) lib) = Returned true ->
        handled_events handled = events run
        /\ match result run with
           | Returned requirements =>
               handled_reply handled = successResponse reply requirements 200
               /\ handled_logged handled = None
           | Thrown message =>
               replied_error (handled_reply handled) 400 PAYMENT_FAILED
                 "Failed to start payment flow" (Some message)
               /\ handled_logged handled = Some message
           end)
    /\ (answer (isAddress (VString walletAddress) lib) = Returned true ->
        ~ bypass_guard cfg dev_bypass ->
        ~ quote_configured cfg ->
        replied_error (handled_reply handled) 400 PAYMENT_FAILED
          "Failed to start payment flow"
          (Some "Facilitator configuration not available")
        /\ handled_events handled = [])
    /\ (facilitator_calls (handled_events handled) <= 1)%nat.
Proof.
  intros Lib isAddress cfg w reply walletAddress dev_bypass lib handled run.
  subst handled run. unfold start_route, validateWalletAddress, answer.
  assert (Hone : (facilitator_calls (events (startPayment cfg w walletAddress dev_bypass))
                  <= 1)%nat).
  { destruct (bypass_guard_dec cfg dev_bypass) as [Hb | Hb].
    - rewrite (startPayment_bypass cfg w walletAddress dev_bypass Hb). cbn. lia.
    - destruct (quote_configured_dec cfg) as [Hc | Hc].
      + rewrite (startPayment_live_events cfg w walletAddress dev_bypass Hb Hc).
        cbn. lia.
      + rewrite (startPayment_not_configured cfg w walletAddress dev_bypass Hb Hc).
        cbn. lia. }
  destruct (isAddress (VString walletAddress) lib) as [[[|] | thrown] lib1];
    cbn [fst].
  - split; [discriminate |]. split; [| split].
    + intros _.
      destruct (startPayment cfg w walletAddress dev_bypass) as [trace started].
      cbn [events result fst snd]. split; [now destruct started |].
      destruct started; repeat split.
    + intros _ Hb Hc.
      rewrite (startPayment_not_configured cfg w walletAddress dev_bypass Hb Hc).
      repeat split.
    + destruct (startPayment cfg w walletAddress dev_bypass) as [trace started].
      cbn [events fst] in Hone. now destruct started.
  - split; [intros _; repeat split |]. split; [discriminate |].
    split; [discriminate |]. cbn. lia.
  - split; [discriminate |]. split; [discriminate |].
    split; [discriminate |]. cbn. lia.
Qed.

(** ** config.ts *)

Lemma truthy_empty : truthy (JStr "") = false.
Proof. reflexivity. Qed.

Lemma truthy_nonempty (c : ascii) (s : string) : truthy (JStr (String c s)) = true.
Proof. reflexivity. Qed.

(** X19.  [validateConfig] throws exactly when the Supabase URL or the
    service role key is missing, and names in its message the missing
    ones in that order; a missing payment configuration is never an
    error: it is a warning, and only in production.  So a production
    server starts without a facilitator. *)
Theorem validateConfig_required :
  forall c : AppConfig,
    (snd (validateConfig c) = Returned tt
     <-> SUPABASE_URL c <> "" /\ SUPABASE_SERVICE_ROLE_KEY c <> "")
    /\ (SUPABASE_URL c = "" -> SUPABASE_SERVICE_ROLE_KEY c <> "" ->
        validateConfig c
        = ([], Thrown "Missing required environment variables: SUPABASE_URL"))
    /\ (SUPABASE_URL c <> "" -> SUPABASE_SERVICE_ROLE_KEY c = "" ->
        validateConfig c
        = ([], Thrown "Missing required environment variables: SUPABASE_SERVICE_ROLE_KEY"))
    /\ (SUPABASE_URL c = "" -> SUPABASE_SERVICE_ROLE_KEY c = "" ->
        validateConfig c
        = ([], Thrown "Missing required environment variables: SUPABASE_URL, SUPABASE_SERVICE_ROLE_KEY"))
    /\ (fst (validateConfig c) <> []
        <-> SUPABASE_URL c <> "" /\ SUPABASE_SERVICE_ROLE_KEY c <> ""
            /\ NODE_ENV (app_payment c) = "production"
            /\ (FACILITATOR_API_URL (app_payment c) = ""
                \/ FACILITATOR_API_KEY (app_payment c) = ""
                \/ MERCHANT_ADDRESS (app_payment c) = "")).
Proof.
  intros [[env url key merchant secret] surl skey].
  unfold validateConfig.
  cbn [app_payment NODE_ENV FACILITATOR_API_URL FACILITATOR_API_KEY MERCHANT_ADDRESS
       SUPABASE_URL SUPABASE_SERVICE_ROLE_KEY filter config_index
       String.eqb Ascii.eqb Bool.eqb].
  destruct surl as [| c1 surl], skey as [| c2 skey];
    rewrite ?truthy_empty, ?truthy_nonempty;
    cbn [negb filter List.length Nat.ltb Nat.leb fst snd String.concat append];
    try (repeat split; intros; try discriminate; try tauto;
         try (exfalso; tauto); fail).
  destruct (env =? "production")%string eqn:Henv.
  - apply String.eqb_eq in Henv.
    destruct url as [| c3 url], key as [| c4 key], merchant as [| c5 merchant];
      rewrite ?truthy_empty, ?truthy_nonempty;
      cbn [negb filter List.length Nat.ltb Nat.leb fst snd];
      (split; [split; [intros _; split; discriminate | reflexivity] |]);
      (split; [discriminate |]); (split; [intros _ H; discriminate H |]);
      (split; [discriminate |]);
      (split;
       [ intros Hwarn; repeat split; try discriminate; try assumption;
         try tauto; try (exfalso; now apply Hwarn)
       | intros (_ & _ & _ & Hmissing); try discriminate;
         destruct Hmissing as [H | [H | H]]; discriminate H ]).
  - apply String.eqb_neq in Henv.
    cbn [fst snd].
    split; [split; [intros _; split; discriminate | reflexivity] |].
    split; [discriminate |]. split; [intros _ H; discriminate H |].
    split; [discriminate |].
    split; [intros H; now contradiction H | intros (_ & _ & H & _); contradiction].
Qed.

(** X20.  From the environment to the bypass: when [DEV_BYPASS_SECRET]
    is unset or empty no token opens the bypass, in any environment; in
    production none does either; and when [NODE_ENV] is unset the
    configuration counts as development, so that a set secret, sent as
    the token, settles a payment with no facilitator configured and none
    called. *)
Theorem bypass_from_environment :
  forall env : Env,
    let cfg := app_payment (CONFIG env) in
    ((env "DEV_BYPASS_SECRET" = None \/ env "DEV_BYPASS_SECRET" = Some "") ->
     forall devBypass, ~ bypass_guard cfg devBypass)
    /\ (env "NODE_ENV" = Some "production" ->
        forall devBypass, ~ bypass_guard cfg devBypass)
    /\ (forall secret,
          env "DEV_BYPASS_SECRET" = Some secret ->
          secret <> "" ->
          env "NODE_ENV" = None \/ env "NODE_ENV" = Some "" ->
          NODE_ENV cfg = "development"
          /\ bypass_guard cfg (Some secret)
          /\ forall facilitator requirements permit,
               settlePayment cfg facilitator requirements permit (Some secret)
               = ([ELog "Using dev bypass mode for settlement"],
                  Returned {| success := true; txHash := "dev-bypass";
                              facilitatorResponse := ArgNull |})).
Proof.
  intros env cfg. subst cfg. unfold CONFIG. cbn [app_payment].
  split; [| split].
  - intros Hunset devBypass (_ & token & _ & Hne & Heq).
    cbn [DEV_BYPASS_SECRET] in Heq.
    destruct Hunset as [H | H]; rewrite H in Heq; now apply Hne.
  - intros Hprod devBypass (Hnot & _). cbn [NODE_ENV] in Hnot.
    rewrite Hprod in Hnot. now apply Hnot.
  - intros secret Hsecret Hne Henv.
    assert (Hdev : or_else (env "NODE_ENV") "development" = "development")
      by (destruct Henv as [H | H]; rewrite H; reflexivity).
    assert (Hkept : or_else (env "DEV_BYPASS_SECRET") "" = secret).
    { rewrite Hsecret. unfold or_else.
      apply truthy_str in Hne. now rewrite Hne. }
    assert (Hguard : bypass_guard
                       {| NODE_ENV := or_else (env "NODE_ENV") "development";
                          FACILITATOR_API_URL := or_else (env "FACILITATOR_API_URL") "";
                          FACILITATOR_API_KEY := or_else (env "FACILITATOR_API_KEY") "";
                          MERCHANT_ADDRESS := or_else (env "MERCHANT_ADDRESS") "";
                          DEV_BYPASS_SECRET := or_else (env "DEV_BYPASS_SECRET") "" |}
                       (Some secret)).
    { split.
      - cbn [NODE_ENV]. rewrite Hdev. discriminate.
      - exists secret. cbn [DEV_BYPASS_SECRET]. rewrite Hkept. now repeat split. }
    split; [exact Hdev |]. split; [exact Hguard |].
    intros facilitator requirements permit.
    now apply settlePayment_bypass.
Qed.

(** ** utils/validation.ts: the validators on values of the declared types *)

(** What an accepted permit has passed. *)
Lemma validatePermit_accepted (read_numeral : string -> Number) (Lib : Type)
    (isAddress : Value -> Checked Lib bool) (now_ms : Z) (permit : Value) (lib : Lib) :
  answer (validatePermit read_numeral isAddress now_ms permit lib) = Returned true ->
  forallb (fun f => truthy_value (field_value permit f)) permit_requiredFields = true
  /\ (exists lib1 lib2,
         isAddress (field_value permit "owner") lib = (Returned true, lib1)
         /\ isAddress (field_value permit "spender") lib1 = (Returned true, lib2))
  /\ test_value 130 (field_value permit "sig") = Returned true
  /\ test_value 64 (field_value permit "nonce") = Returned true
  /\ value_le read_numeral (field_value permit "deadline") (unix_seconds now_ms)
     = Returned false.
Proof.
  unfold answer. intros H.
  destruct (truthy_value permit) eqn:Ht;
    [| rewrite validatePermit_not_object in H by (now left); discriminate H].
  destruct (typeof_object_value permit) eqn:Ho;
    [| rewrite validatePermit_not_object in H by (now right); discriminate H].
  rewrite (validatePermit_object read_numeral Lib isAddress now_ms permit lib Ht Ho)
    in H.
  destruct (forallb _ permit_requiredFields); [| discriminate H].
  split; [reflexivity |].
  destruct (isAddress (field_value permit "owner") lib) as [[[|] | m] lib1];
    cbn [fst] in H; try discriminate H.
  destruct (isAddress (field_value permit "spender") lib1) as [[[|] | m] lib2]
    eqn:Hspender; cbn [fst] in H; try discriminate H.
  split; [exists lib1, lib2; split; [reflexivity | exact Hspender] |].
  destruct (test_value 130 (field_value permit "sig")) as [[|] | m];
    try discriminate H.
  destruct (test_value 64 (field_value permit "nonce")) as [[|] | m];
    try discriminate H.
  destruct (value_le read_numeral (field_value permit "deadline") (unix_seconds now_ms))
    as [[|] | m]; try discriminate H.
  repeat split.
Qed.

(** X21.  [validatePermit] accepts no permit whose deadline is a number
    of seconds that the clock has reached: when the time of the call lies
    in second [s] of Unix time (the clock is read in milliseconds) and
    the deadline is an integer [d <= s], the answer is not [true],
    whatever the other fields hold and whatever the address check
    does. *)
Theorem validatePermit_refuses_reached_deadline :
  forall (read_numeral : string -> Number) (Lib : Type)
         (isAddress : Value -> Checked Lib bool) (now_ms s d : Z)
         (permit : Value) (lib : Lib),
    unix_time_at now_ms s ->
    field_value permit "deadline" = VNumber (Integer d) ->
    d <= s ->
    answer (validatePermit read_numeral isAddress now_ms permit lib) <> Returned true.
Proof.
  intros read_numeral Lib isAddress now_ms s d permit lib Hnow Hfield Hle Hvalid.
  apply validatePermit_accepted in Hvalid as (_ & _ & _ & _ & Hlate).
  rewrite Hfield, (unix_seconds_unique now_ms s Hnow) in Hlate.
  unfold value_le in Hlate. cbn [unconvertible to_number number_le] in Hlate.
  replace (d <=? s) with true in Hlate by (symmetry; apply Z.leb_le; exact Hle).
  discriminate Hlate.
Qed.

Lemma validatePermit_refuses_reached_deadline_witness :
  answer (validatePermit decimal_numeral address_check 1700000000999
            (permit_arg (with_deadline 1700000000 example_permit)) [])
  <> Returned true.
Proof.
  apply (validatePermit_refuses_reached_deadline decimal_numeral Cache address_check
           1700000000999 1700000000 1700000000
           (permit_arg (with_deadline 1700000000 example_permit)) []).
  - unfold unix_time_at. lia.
  - reflexivity.
  - lia.
Defined.

(** X24.  [validatePermit] accepts no permit whose [sig] is a string of
    a length other than 132, and none whose [nonce] is a string of a
    length other than 66. *)
Theorem validatePermit_refuses_other_lengths :
  forall (read_numeral : string -> Number) (Lib : Type)
         (isAddress : Value -> Checked Lib bool) (now_ms : Z)
         (permit : Value) (lib : Lib),
    (exists sig, field_value permit "sig" = VString sig
                 /\ String.length sig <> 132%nat)
    \/ (exists nonce, field_value permit "nonce" = VString nonce
                      /\ String.length nonce <> 66%nat) ->
    answer (validatePermit read_numeral isAddress now_ms permit lib) <> Returned true.
Proof.
  intros read_numeral Lib isAddress now_ms permit lib Hlength Hvalid.
  apply validatePermit_accepted in Hvalid as (_ & _ & Hsig & Hnonce & _).
  destruct Hlength as [(sig & Hfield & Hlen) | (nonce & Hfield & Hlen)].
  - rewrite Hfield in Hsig. unfold test_value in Hsig.
    cbn [unconvertible matches_0x_hex] in Hsig.
    injection Hsig as Hsig. apply test_0x_hex_length in Hsig.
    apply Hlen. exact Hsig.
  - rewrite Hfield in Hnonce. unfold test_value in Hnonce.
    cbn [unconvertible matches_0x_hex] in Hnonce.
    injection Hnonce as Hnonce. apply test_0x_hex_length in Hnonce.
    apply Hlen. exact Hnonce.
Qed.

Lemma validatePermit_refuses_other_lengths_witness :
  answer (validatePermit decimal_numeral address_check 1700000000000
            (permit_arg (with_sig "0x1a1a1a1a1a1a1a1a1a1a1a1a1a1a1a1a1a1a1a1a1a1a1a1a1a1a1a1a1a1a1a1a1a2b2b2b2b2b2b2b2b2b2b2b2b2b2b2b2b2b2b2b2b2b2b2b2b2b2b2b2b2b2b2b2b1c1"
                           example_permit)) [])
  <> Returned true.
Proof.
  apply (validatePermit_refuses_other_lengths decimal_numeral Cache address_check
           1700000000000).
  left. eexists. split; [reflexivity |]. vm_compute. discriminate.
Defined.

(** [validatePermit] on a permit of the declared type. *)
Lemma validatePermit_typed (read_numeral : string -> Number) (Lib : Type)
    (isAddress : Value -> Checked Lib bool) (now_ms : Z) (p : Permit) (lib : Lib) :
  validatePermit read_numeral isAddress now_ms (permit_arg p) lib
  = if negb (permit_owner p =? "")%string && negb (permit_spender p =? "")%string
       && negb (permit_value p =? "")%string && negb (permit_deadline p =? 0)
       && negb (permit_nonce p =? "")%string && negb (permit_sig p =? "")%string
    then
      match isAddress (VString (permit_owner p)) lib with
      | (Returned true, lib1) =>
          match isAddress (VString (permit_spender p)) lib1 with
          | (Returned true, lib2) =>
              (Returned (test_0x_hex 130 (permit_sig p)
                         && test_0x_hex 64 (permit_nonce p)
                         && negb (permit_deadline p <=? unix_seconds now_ms)), lib2)
          | other => other
          end
      | other => other
      end
    else (Returned false, lib).
Proof.
  rewrite validatePermit_object by reflexivity.
  change (forallb (fun f => truthy_value (field_value (permit_arg p) f))
                  permit_requiredFields)
    with (negb (permit_owner p =? "")%string
          && (negb (permit_spender p =? "")%string
              && (negb (permit_value p =? "")%string
                  && (negb (permit_deadline p =? 0)
                      && (negb (permit_nonce p =? "")%string
                          && (negb (permit_sig p =? "")%string && true)))))).
  change (field_value (permit_arg p) "owner") with (VString (permit_owner p)).
  change (field_value (permit_arg p) "spender") with (VString (permit_spender p)).
  change (field_value (permit_arg p) "sig") with (VString (permit_sig p)).
  change (field_value (permit_arg p) "nonce") with (VString (permit_nonce p)).
  change (field_value (permit_arg p) "deadline")
    with (VNumber (Integer (permit_deadline p))).
  rewrite andb_true_r, !andb_assoc.
  unfold test_value, value_le. cbn [unconvertible matches_0x_hex to_number number_le].
  destruct (negb (permit_owner p =? "")%string && negb (permit_spender p =? "")%string
            && negb (permit_value p =? "")%string && negb (permit_deadline p =? 0)
            && negb (permit_nonce p =? "")%string && negb (permit_sig p =? "")%string);
    [| reflexivity].
  destruct (isAddress (VString (permit_owner p)) lib) as [[[|] | m] lib1];
    try reflexivity.
  destruct (isAddress (VString (permit_spender p)) lib1) as [[[|] | m] lib2];
    try reflexivity.
  destruct (test_0x_hex 130 (permit_sig p)); [| reflexivity].
  destruct (test_0x_hex 64 (permit_nonce p)); reflexivity.
Qed.

Lemma nonempty_fields (a b c e f : string) (d : Z) :
  negb (a =? "")%string && negb (b =? "")%string && negb (c =? "")%string
  && negb (d =? 0) && negb (e =? "")%string && negb (f =? "")%string = true
  <-> a <> "" /\ b <> "" /\ c <> "" /\ d <> 0 /\ e <> "" /\ f <> "".
Proof.
  rewrite !andb_true_iff, !negb_true_iff, !String.eqb_neq, Z.eqb_neq. tauto.
Qed.

(** X25.  On a permit whose fields have the types [settlePayment]
    declares (strings, and an integer deadline), [validatePermit] answers
    [true] exactly when no field is empty or zero, the address check
    accepts the owner and then the spender, [sig] is [0x] and 130
    hexadecimal characters, [nonce] is [0x] and 64 hexadecimal
    characters, and the deadline is later than the second of Unix time
    in which the clock is read. *)
Theorem validatePermit_on_typed_permit :
  forall (read_numeral : string -> Number) (Lib : Type)
         (isAddress : Value -> Checked Lib bool) (now_ms s : Z)
         (p : Permit) (lib : Lib),
    unix_time_at now_ms s ->
    (answer (validatePermit read_numeral isAddress now_ms (permit_arg p) lib)
     = Returned true
     <-> (permit_owner p <> "" /\ permit_spender p <> "" /\ permit_value p <> ""
          /\ permit_deadline p <> 0 /\ permit_nonce p <> "" /\ permit_sig p <> "")
         /\ (exists lib1,
                isAddress (VString (permit_owner p)) lib = (Returned true, lib1)
                /\ answer (isAddress (VString (permit_spender p)) lib1) = Returned true)
         /\ is_0x_hex 130 (permit_sig p)
         /\ is_0x_hex 64 (permit_nonce p)
         /\ s < permit_deadline p).
Proof.
  intros read_numeral Lib isAddress now_ms s p lib Hnow.
  rewrite validatePermit_typed, (unix_seconds_unique now_ms s Hnow).
  rewrite <- nonempty_fields, <- !test_0x_hex_spec. unfold answer.
  destruct (negb (permit_owner p =? "")%string && negb (permit_spender p =? "")%string
            && negb (permit_value p =? "")%string && negb (permit_deadline p =? 0)
            && negb (permit_nonce p =? "")%string && negb (permit_sig p =? "")%string).
  - destruct (isAddress (VString (permit_owner p)) lib) as [[[|] | m] lib1].
    + destruct (isAddress (VString (permit_spender p)) lib1) as [[[|] | m] lib2]
        eqn:Hspender; cbn [fst].
      * split.
        -- intros H. injection H as H.
           apply andb_prop in H as [H Hd]. apply andb_prop in H as [Hs Hn].
           split; [reflexivity |].
           split; [exists lib1; split; [reflexivity | now rewrite Hspender] |].
           split; [exact Hs |]. split; [exact Hn |].
           apply negb_true_iff, Z.leb_gt in Hd. exact Hd.
        -- intros (_ & _ & Hs & Hn & Hd).
           rewrite Hs, Hn. cbn [andb].
           replace (permit_deadline p <=? s) with false
             by (symmetry; apply Z.leb_gt; exact Hd).
           reflexivity.
      * split; [discriminate |].
        intros (_ & (lib1' & Ho & Hsp) & _).
        injection Ho as <-. rewrite Hspender in Hsp. discriminate Hsp.
      * split; [discriminate |].
        intros (_ & (lib1' & Ho & Hsp) & _).
        injection Ho as <-. rewrite Hspender in Hsp. discriminate Hsp.
    + cbn [fst]. split; [discriminate |].
      intros (_ & (lib1' & Ho & _) & _). discriminate Ho.
    + cbn [fst]. split; [discriminate |].
      intros (_ & (lib1' & Ho & _) & _). discriminate Ho.
  - cbn [fst]. split; [discriminate |]. intros (H & _). discriminate H.
Qed.

Lemma validatePermit_on_typed_permit_witness :
  answer (validatePermit decimal_numeral address_check 1700003599999
            (permit_arg example_permit) [])
  = Returned true
  <-> (permit_owner example_permit <> "" /\ permit_spender example_permit <> ""
       /\ permit_value example_permit <> "" /\ permit_deadline example_permit <> 0
       /\ permit_nonce example_permit <> "" /\ permit_sig example_permit <> "")
      /\ (exists lib1,
             address_check (VString (permit_owner example_permit)) []
             = (Returned true, lib1)
             /\ answer (address_check (VString (permit_spender example_permit)) lib1)
                = Returned true)
      /\ is_0x_hex 130 (permit_sig example_permit)
      /\ is_0x_hex 64 (permit_nonce example_permit)
      /\ 1700003599 < permit_deadline example_permit.
Proof.
  apply (validatePermit_on_typed_permit decimal_numeral Cache address_check
           1700003599999 1700003599 example_permit []).
  unfold unix_time_at. lia.
Defined.

(** X26.  On requirements whose fields have the declared types, and with
    an address check that answers on every string, [validateRequirements]
    does not raise, and it answers [false] exactly when a field is empty
    or zero, or the network is not [arbitrum], or the address check
    refuses the recipient or, after it, the token.  It reads no clock:
    any two deadlines other than zero give the same answer. *)
Theorem validateRequirements_on_typed_requirements :
  forall (Lib : Type) (isAddress : Value -> Checked Lib bool)
         (r : PaymentRequirements) (lib : Lib),
    (forall text l, exists b, answer (isAddress (VString text) l) = Returned b) ->
    (exists b,
        answer (validateRequirements isAddress (requirements_arg r) lib) = Returned b)
    /\ (answer (validateRequirements isAddress (requirements_arg r) lib)
        = Returned false
        <-> ~ (req_network r <> "" /\ req_token r <> "" /\ req_recipient r <> ""
               /\ req_deadline r <> 0 /\ req_amount r <> "" /\ req_nonce r <> "")
            \/ req_network r <> "arbitrum"
            \/ answer (isAddress (VString (req_recipient r)) lib) = Returned false
            \/ exists lib1,
                 isAddress (VString (req_recipient r)) lib = (Returned true, lib1)
                 /\ answer (isAddress (VString (req_token r)) lib1) = Returned false)
    /\ (forall deadline : Z,
          req_deadline r <> 0 ->
          deadline <> 0 ->
          validateRequirements isAddress
            (requirements_arg
               {| req_network := req_network r; req_token := req_token r;
                  req_recipient := req_recipient r; req_amount := req_amount r;
                  req_nonce := req_nonce r; req_deadline := deadline |}) lib
          = validateRequirements isAddress (requirements_arg r) lib).
Proof.
  intros Lib isAddress r lib Htotal.
  assert (Hfields :
            negb (req_network r =? "")%string && negb (req_token r =? "")%string
            && negb (req_recipient r =? "")%string && negb (req_amount r =? "")%string
            && negb (req_nonce r =? "")%string && negb (req_deadline r =? 0) = true
            <-> req_network r <> "" /\ req_token r <> "" /\ req_recipient r <> ""
                /\ req_deadline r <> 0 /\ req_amount r <> "" /\ req_nonce r <> "").
  { rewrite !andb_true_iff, !negb_true_iff, !String.eqb_neq, Z.eqb_neq. tauto. }
  split; [| split].
  - rewrite validateRequirements_typed. unfold answer.
    destruct (negb (req_network r =? "")%string && negb (req_token r =? "")%string
              && negb (req_recipient r =? "")%string
              && negb (req_amount r =? "")%string
              && negb (req_nonce r =? "")%string && negb (req_deadline r =? 0));
      [| now exists false].
    destruct (req_network r =? "arbitrum")%string; [| now exists false].
    destruct (Htotal (req_recipient r) lib) as (b & Hb). unfold answer in Hb.
    destruct (isAddress (VString (req_recipient r)) lib) as [outcome lib1].
    cbn [fst] in Hb. subst outcome.
    destruct b; [| now exists false].
    destruct (Htotal (req_token r) lib1) as (b & Hb). unfold answer in Hb.
    destruct (isAddress (VString (req_token r)) lib1) as [outcome lib2].
    cbn [fst] in Hb. subst outcome. now exists b.
  - rewrite validateRequirements_typed, <- Hfields. unfold answer.
    destruct (negb (req_network r =? "")%string && negb (req_token r =? "")%string
              && negb (req_recipient r =? "")%string
              && negb (req_amount r =? "")%string
              && negb (req_nonce r =? "")%string && negb (req_deadline r =? 0)).
    + destruct (String.eqb_spec (req_network r) "arbitrum") as [Hnet | Hnet].
      * destruct (Htotal (req_recipient r) lib) as (b & Hb). unfold answer in Hb.
        destruct (isAddress (VString (req_recipient r)) lib) as [outcome lib1].
        cbn [fst] in Hb. subst outcome.
        destruct b; cbn [fst].
        -- split.
           ++ intros H. do 3 right. exists lib1. split; [reflexivity | exact H].
           ++ intros [H | [H | [H | (lib1' & Hr & H)]]].
              ** now contradiction H.
              ** now contradiction H.
              ** discriminate H.
              ** injection Hr as <-. exact H.
        -- split; [intros _; do 2 right; now left | reflexivity].
      * cbn [fst]. split; [intros _; right; now left | reflexivity].
    + cbn [fst]. split; [intros _; left; intros H; discriminate H | reflexivity].
  - intros deadline Hr Hd. rewrite !validateRequirements_typed.
    cbn [req_network req_token req_recipient req_amount req_nonce req_deadline].
    apply Z.eqb_neq in Hr, Hd. rewrite Hr, Hd. reflexivity.
Qed.

Lemma validateRequirements_on_typed_requirements_witness :
  (exists b,
      answer (validateRequirements address_check
                (requirements_arg example_requirements) [])
      = Returned b)
  /\ (answer (validateRequirements address_check
                (requirements_arg example_requirements) [])
      = Returned false
      <-> ~ (req_network example_requirements <> ""
             /\ req_token example_requirements <> ""
             /\ req_recipient example_requirements <> ""
             /\ req_deadline example_requirements <> 0
             /\ req_amount example_requirements <> ""
             /\ req_nonce example_requirements <> "")
          \/ req_network example_requirements <> "arbitrum"
          \/ answer (address_check (VString (req_recipient example_requirements)) [])
             = Returned false
          \/ exists lib1,
               address_check (VString (req_recipient example_requirements)) []
               = (Returned true, lib1)
               /\ answer (address_check (VString (req_token example_requirements)) lib1)
                  = Returned false)
  /\ (forall deadline : Z,
        req_deadline example_requirements <> 0 ->
        deadline <> 0 ->
        validateRequirements address_check
          (requirements_arg
             {| req_network := req_network example_requirements;
                req_token := req_token example_requirements;
                req_recipient := req_recipient example_requirements;
                req_amount := req_amount example_requirements;
                req_nonce := req_nonce example_requirements;
                req_deadline := deadline |}) []
        = validateRequirements address_check
            (requirements_arg example_requirements) []).
Proof.
  apply (validateRequirements_on_typed_requirements Cache address_check
           example_requirements []).
  intros text l. eexists. apply address_check_string.
Defined.

(** ** services/payment.ts: the cost of a settlement *)

Lemma calls_needed_ext (answers answers' : nat -> FetchOutcome SettleData)
    (remaining attempt : nat) :
  (forall n, (attempt <= n < attempt + remaining)%nat ->
             succeeds (answers n) = succeeds (answers' n)) ->
  calls_needed answers remaining attempt = calls_needed answers' remaining attempt.
Proof.
  revert attempt. induction remaining as [| rest IH]; intros attempt Hsame;
    [reflexivity |].
  cbn [calls_needed]. rewrite <- (Hsame attempt) by lia.
  destruct (succeeds (answers attempt)); [reflexivity |].
  f_equal. apply IH. intros n Hn. apply Hsame. lia.
Qed.

(** X22.  A call of [settlePayment] makes at most four requests and
    waits at most 7000 ms in all, whatever the facilitator answers; on
    the bypass path and without configuration it waits not at all. *)
Theorem settlePayment_total_wait :
  forall (cfg : Config) (facilitator : Facilitator)
         (requirements : PaymentRequirements) (permit : Permit)
         (devBypass : option string),
    let run := settlePayment cfg facilitator requirements permit devBypass in
    (settle_calls (events run) <= 4)%nat
    /\ 0 <= total_wait (events run) <= 7000
    /\ total_wait (events run)
       = 1000 * (2 ^ Z.of_nat (Nat.pred (settle_calls (events run))) - 1).
Proof.
  intros cfg facilitator requirements permit devBypass run. subst run.
  destruct (bypass_guard_dec cfg devBypass) as [Hb | Hb].
  - rewrite (settlePayment_bypass cfg facilitator requirements permit devBypass Hb).
    cbn. lia.
  - destruct (settle_configured_dec cfg) as [Hc | Hc].
    + pose proof (settlePayment_shape cfg facilitator requirements permit devBypass
                    Hb Hc) as Hshape.
      cbv zeta in Hshape. destruct Hshape as (Hk & _ & _ & Hcalls & Hsleeps & _).
      unfold total_wait. rewrite Hsleeps, Hcalls.
      set (k := calls_needed _ maxRetries 1) in *.
      assert (Hcases : k = 1%nat \/ k = 2%nat \/ k = 3%nat \/ k = 4%nat) by lia.
      destruct Hcases as [-> | [-> | [-> | ->]]]; cbn; lia.
    + rewrite (settlePayment_not_configured cfg facilitator requirements permit
                 devBypass Hb Hc).
      cbn. lia.
Qed.

(** X23.  Which requests a live settlement makes and how long it waits
    between them depends only on which attempts settle, not on how the
    others fail: an answer classified as not retryable costs the same
    calls and the same delays as a server error or a rejected call in
    its place.  The classification shows in the console and in the error
    message only. *)
Theorem settlePayment_schedule_ignores_classification :
  forall (cfg : Config) (facilitator facilitator' : Facilitator)
         (requirements : PaymentRequirements) (permit : Permit)
         (devBypass : option string),
    ~ bypass_guard cfg devBypass ->
    settle_configured cfg ->
    let request := build_facilitatorRequest cfg requirements permit in
    (forall n, (1 <= n <= 4)%nat ->
               succeeds (facilitator request n) = succeeds (facilitator' request n)) ->
    let run := settlePayment cfg facilitator requirements permit devBypass in
    let run' := settlePayment cfg facilitator' requirements permit devBypass in
    without_logs (events run) = without_logs (events run')
    /\ settle_calls (events run) = settle_calls (events run')
    /\ sleeps (events run) = sleeps (events run').
Proof.
  intros cfg facilitator facilitator' requirements permit devBypass Hb Hc request
         Hsame run run'.
  subst run run'.
  pose proof (settlePayment_shape cfg facilitator requirements permit devBypass Hb Hc)
    as Hshape.
  pose proof (settlePayment_shape cfg facilitator' requirements permit devBypass Hb Hc)
    as Hshape'.
  cbv zeta in Hshape, Hshape'. fold request in Hshape, Hshape'.
  destruct Hshape as (_ & Ht & _ & Hcalls & Hsleeps & _).
  destruct Hshape' as (_ & Ht' & _ & Hcalls' & Hsleeps' & _).
  assert (Hk : calls_needed (facilitator request) maxRetries 1
               = calls_needed (facilitator' request) maxRetries 1).
  { apply calls_needed_ext. intros n Hn. apply Hsame. unfold maxRetries in Hn. lia. }
  rewrite Ht, Ht', Hcalls, Hcalls', Hsleeps, Hsleeps', Hk. repeat split.
Qed.

Lemma settlePayment_schedule_ignores_classification_witness :
  let run := settlePayment example_cfg recovering_facilitator example_requirements
               example_permit None in
  let run' := settlePayment example_cfg refusing_once_facilitator example_requirements
                example_permit None in
  without_logs (events run) = without_logs (events run')
  /\ settle_calls (events run) = settle_calls (events run')
  /\ sleeps (events run) = sleeps (events run').
Proof.
  apply (settlePayment_schedule_ignores_classification example_cfg
           recovering_facilitator refusing_once_facilitator
           example_requirements example_permit None).
  - intros (Hprod & _). now apply Hprod.
  - split; discriminate.
  - intros n Hn.
    assert (Hcases : n = 1%nat \/ n = 2%nat \/ n = 3%nat \/ n = 4%nat) by lia.
    destruct Hcases as [-> | [-> | [-> | ->]]]; vm_compute; reflexivity.
Defined.

(** ** Further scenarios, by evaluation *)

(** With only a bypass secret in the environment the server does not
    start, for want of the database settings; the payment service, were
    it reached, would take the bypass. *)
Example secret_only_environment :
  validateConfig (CONFIG secret_only_env)
  = ([], Thrown "Missing required environment variables: SUPABASE_URL, SUPABASE_SERVICE_ROLE_KEY")
  /\ NODE_ENV (app_payment (CONFIG secret_only_env)) = "development"
  /\ events (startPayment (app_payment (CONFIG secret_only_env)) quoting_world
               example_wallet (Some "let-me-in"))
     = [ELog "Using dev bypass mode"].
Proof. repeat split; vm_compute; reflexivity. Qed.

(** A refusal at the first attempt costs one second, like a server
    error. *)
Example refusal_costs_a_retry :
  sleeps (events (settlePayment example_cfg refusing_once_facilitator
                    example_requirements example_permit None)) = [1000]
  /\ sleeps (events (settlePayment example_cfg recovering_facilitator
                       example_requirements example_permit None)) = [1000]
  /\ total_wait (events (settlePayment example_cfg refusing_facilitator
                           example_requirements example_permit None)) = 7000.
Proof. repeat split; vm_compute; reflexivity. Qed.

(** The status handler for a wallet the store does not know, and for a
    string that is not an address. *)
Example status_route_unknown_wallet :
  let unknown := "0xdddddddddddddddddddddddddddddddddddddddd" in
  let asked := status_route address_check store_latest_entitlement example_reply
                 unknown 1700000001000 [] example_store in
  let refused := status_route address_check store_latest_entitlement example_reply
                   "not-an-address" 1700000001000 [] example_store in
  handled_reply asked
  = successResponse example_reply
      {| ps_dataset := None; ps_entitlement := None;
         ps_now := 1700000001000; ps_valid_until := None |} 200
  /\ handled_wire asked
     = Serialized (VObject [("success", VBool true); ("data", VObject [])])
  /\ reply_code (handled_reply refused) = 400
  /\ handled_wire refused = AsHanded.
Proof. repeat split; vm_compute; reflexivity. Qed.

(** The settle handler on a permit that has run out: refused as an
    invalid signature, without a call and without a log line. *)
Example settle_route_expired_permit :
  let expired := {| validated_at_ms := 1700003600000;
                    dataset_read_at := 1700003600500 |} in
  let handled :=
    settle_route decimal_numeral address_check example_cfg settling_facilitator
      no_untyped_settlement store_client expired example_reply example_body
      [] example_store in
  replied_error (handled_reply handled) 400 INVALID_SIGNATURE
    "Invalid permit signature" None
  /\ handled_events handled = []
  /\ handled_logged handled = None
  /\ handled_db handled = example_store.
Proof. repeat split; vm_compute; reflexivity. Qed.
